(** * The "perf script" import adapter of speedscope

    A shallow embedding of [src/import/linux-tools-perf.ts]: the record
    splitter [parseEvents], the record parser [parseEvent] with its seven
    regular expressions, and the adapter [importFromLinuxPerf].

    Conventions of the embedding.
    - A JavaScript string is a [string]; a character is a code unit below
      256.
    - [null] and [undefined] are [None].
    - A regular expression literal is a term of [regex], run by a backtracking
      matcher that follows the priorities of the ECMAScript matcher (greedy
      and lazy quantifiers, optional groups, captures, [^] and [$]).
    - A [TypeError] (property access on [null] or [undefined]) is the [Throw]
      of the monad [Exc]; the guards of the source are kept apart from the
      accesses they protect.
    - JavaScript numbers are the carrier of a class [JSNumber], and the
      interface [TextFileContent] is a class [LineSource].
    - A generator is the list of what it yields; a [Map] is the list of its
      entries in insertion order; an object that is mutated through its only
      reference is updated in place.
    - [StackListProfileBuilder], [getOrInsert] and the Frame Registry are
      imported by the adapter from files that are not under [src/]; they are
      modelled from the spec.

    The file has four parts: the embedding, the notions the statements use,
    the properties with their instances at concrete inputs, and further
    properties of the three functions. *)

From Stdlib Require Import List String Ascii Bool Arith PeanoNat Lia NArith.
From Stdlib Require Import DecimalString.
Import ListNotations.
Local Open Scope string_scope.
Local Open Scope list_scope.

Set Implicit Arguments.

(** ** Exceptions *)

Inductive Error : Type := TypeError.

Inductive Exc (A : Type) : Type :=
| Return (a : A)
| Throw (e : Error).
Arguments Return {A} a.
Arguments Throw {A} e.

Definition bind {A B : Type} (m : Exc A) (f : A -> Exc B) : Exc B :=
  match m with
  | Return a => f a
  | Throw e => Throw e
  end.

Notation "x <- m ;; k" := (bind m (fun x => k))
  (at level 61, m at next level, right associativity).

(** [o.p] where [o] may be [null] or [undefined]. *)
Definition deref {A : Type} (o : option A) : Exc A :=
  match o with
  | Some a => Return a
  | None => Throw TypeError
  end.

(** ** Strings *)

(** [`${x}`] for [x : string | undefined]. *)
Definition toStr (x : option string) : string :=
  match x with
  | Some s => s
  | None => "undefined"
  end.

(** [s.slice(n)] for [n <= s.length]. *)
Fixpoint drop (n : nat) (s : string) : string :=
  match n, s with
  | S n', String _ s' => drop n' s'
  | _, _ => s
  end.

(** [s.slice(0, n)]. *)
Definition take (n : nat) (s : string) : string := substring 0 n s.

(** ** Regular expressions *)

Module RegExp.

(** One item of a character class. *)
Inductive item : Type :=
| Chr (c : ascii)            (* a literal character *)
| Rng (lo hi : ascii)        (* lo-hi *)
| Dot                        (* .  : anything but a line terminator *)
| Space                      (* \s *)
| NonSpace                   (* \S *)
| Digit.                     (* \d *)

(** A character class: the union of its items ([[...]] in the source, or a
    single atom). *)
Definition cls : Type := list item.

Definition code (a : ascii) : nat := nat_of_ascii a.

(** WhiteSpace and LineTerminator code units below 256: TAB, LF, VT, FF,
    CR, SP, NBSP. *)
Definition isSpace (a : ascii) : bool :=
  existsb (Nat.eqb (code a)) [9; 10; 11; 12; 13; 32; 160].

Definition isLineTerminator (a : ascii) : bool :=
  existsb (Nat.eqb (code a)) [10; 13].

Definition inItem (i : item) (a : ascii) : bool :=
  match i with
  | Chr c => Ascii.eqb a c
  | Rng lo hi => Nat.leb (code lo) (code a) && Nat.leb (code a) (code hi)
  | Dot => negb (isLineTerminator a)
  | Space => isSpace a
  | NonSpace => negb (isSpace a)
  | Digit => Nat.leb 48 (code a) && Nat.leb (code a) 57
  end.

Definition inCls (c : cls) (a : ascii) : bool :=
  existsb (fun i => inItem i a) c.

Inductive regex : Type :=
| Eps                              (* the empty pattern *)
| One (c : cls)                    (* one character of the class *)
| Cat (r1 r2 : regex)              (* r1 r2 *)
| Opt (r : regex)                  (* r?   greedy *)
| Star (c : cls)                   (* c*   greedy *)
| Plus (c : cls)                   (* c+   greedy *)
| PlusLazy (c : cls)               (* c+?  lazy *)
| Group (i : nat) (r : regex)      (* the i-th capturing parenthesis *)
| Bol                              (* ^ *)
| Eol.                             (* $ *)

(** The captures of a match, most recent first. *)
Definition captures : Type := list (nat * string).

Fixpoint capture (i : nat) (cs : captures) : option string :=
  match cs with
  | [] => None
  | (j, s) :: cs' => if Nat.eqb i j then Some s else capture i cs'
  end.

(** A match in progress ends at position [fst] with captures [snd]. *)
Definition result : Type := (nat * captures)%type.

(** [c*], greedy: the longest run first, then shorter ones. *)
Fixpoint greedy (c : cls) (s : string) (pos : nat)
    (k : string -> nat -> option result) : option result :=
  match s with
  | String a s' =>
      if inCls c a then
        match greedy c s' (S pos) k with
        | Some r => Some r
        | None => k s pos
        end
      else k s pos
  | EmptyString => k s pos
  end.

(** [c*?], lazy: the shortest run first, then longer ones. *)
Fixpoint lazy (c : cls) (s : string) (pos : nat)
    (k : string -> nat -> option result) : option result :=
  match k s pos with
  | Some r => Some r
  | None =>
      match s with
      | String a s' => if inCls c a then lazy c s' (S pos) k else None
      | EmptyString => None
      end
  end.

(** The backtracking matcher, in continuation-passing style: [s] is the
    input left at position [pos], [cs] the captures so far, [k] what is
    left to match. *)
Fixpoint run (r : regex) (s : string) (pos : nat) (cs : captures)
    (k : string -> nat -> captures -> option result) : option result :=
  match r with
  | Eps => k s pos cs
  | One c =>
      match s with
      | String a s' => if inCls c a then k s' (S pos) cs else None
      | EmptyString => None
      end
  | Cat r1 r2 => run r1 s pos cs (fun s' pos' cs' => run r2 s' pos' cs' k)
  | Opt r1 =>
      (* an iteration that matches the empty string is refused *)
      match run r1 s pos cs
              (fun s' pos' cs' => if Nat.eqb pos' pos then None else k s' pos' cs') with
      | Some res => Some res
      | None => k s pos cs
      end
  | Star c => greedy c s pos (fun s' pos' => k s' pos' cs)
  | Plus c =>
      match s with
      | String a s' =>
          if inCls c a then greedy c s' (S pos) (fun s' pos' => k s' pos' cs) else None
      | EmptyString => None
      end
  | PlusLazy c =>
      match s with
      | String a s' =>
          if inCls c a then lazy c s' (S pos) (fun s' pos' => k s' pos' cs) else None
      | EmptyString => None
      end
  | Group i r1 =>
      run r1 s pos cs (fun s' pos' cs' => k s' pos' ((i, take (pos' - pos) s) :: cs'))
  | Bol => if Nat.eqb pos 0 then k s pos cs else None
  | Eol =>
      match s with
      | EmptyString => k s pos cs
      | String _ _ => None
      end
  end.

(** The match array of [exec]: [index], the whole match [[0]] and the
    parenthesised captures. *)
Record RegExpExecArray : Type := {
  index : nat;
  matched : string;
  groups : captures
}.

(** [m[i]]. *)
Definition get (m : RegExpExecArray) (i : nat) : option string :=
  match i with
  | 0 => Some (matched m)
  | _ => capture i (groups m)
  end.

(** One attempt at position [pos], where [s] is what is left of the input. *)
Definition attempt (r : regex) (s : string) (pos : nat) : option RegExpExecArray :=
  match run r s pos [] (fun _ pos' cs => Some (pos', cs)) with
  | Some (e, cs) => Some {| index := pos; matched := take (e - pos) s; groups := cs |}
  | None => None
  end.

(** The leftmost match at or after position [pos]. *)
Fixpoint search (r : regex) (s : string) (pos : nat) : option RegExpExecArray :=
  match attempt r s pos with
  | Some m => Some m
  | None =>
      match s with
      | String _ s' => search r s' (S pos)
      | EmptyString => None
      end
  end.

(** [r.exec(s)] for a regular expression without the [g] and [y] flags. *)
Definition exec (r : regex) (s : string) : option RegExpExecArray :=
  search r s 0.

(** [s.replace(r, '')] for a regular expression without the [g] flag. *)
Definition replaceEmpty (r : regex) (s : string) : string :=
  match exec r s with
  | Some m => (take (index m) s ++ drop (index m + String.length (matched m)) s)%string
  | None => s
  end.

(** A sequence of regular expressions. *)
Fixpoint seq (rs : list regex) : regex :=
  match rs with
  | [] => Eps
  | [r] => r
  | r :: rs' => Cat r (seq rs')
  end.

(** A literal text. *)
Fixpoint lit (s : string) : list regex :=
  match s with
  | String a s' => One [Chr a] :: lit s'
  | EmptyString => []
  end.

End RegExp.
Import RegExp.

(** ** JavaScript numbers *)

(** The operations on numbers the adapter uses.  The carrier stands for
    the IEEE 754 doubles of JavaScript. *)
Class JSNumber : Type := {
  number : Type;
  (** [parseInt(s, 10)]; on a string of decimal digits [parseInt(s)] is
      the same. *)
  parseInt : string -> number;
  (** [parseFloat(s)] *)
  parseFloat : string -> number;
  (** the truth value of a number in a condition: false for [0] and [NaN] *)
  truthy : number -> bool;
  (** [`${n}`] *)
  numberToString : number -> string
}.

(** ** The Line Source *)

(** [interface TextFileContent] of [import/utils], which is not under
    [src/]: the adapter uses its [splitLines] only, the sequence of the lines
    of the input. *)
Class LineSource : Type := {
  TextFileContent : Type;
  splitLines : TextFileContent -> list string
}.

(** The truth value of a [string | null | undefined] in a condition. *)
Definition truthyString (x : option string) : bool :=
  match x with
  | Some s => negb (String.eqb s "")
  | None => false
  end.

(** The truth value of an object reference in a condition. *)
Definition notNull {A : Type} (x : option A) : bool :=
  match x with
  | Some _ => true
  | None => false
  end.

(** ** The regular expressions of the adapter *)

(** [/^\s*#/] *)
Definition reComment : regex :=
  seq [Bol; Star [Space]; One [Chr "#"]].

(** [/^(\S.+?)\s+(\d+)(?:\/?(\d+))?\s+/] *)
Definition reEventStart : regex :=
  seq [Bol;
       Group 1 (seq [One [NonSpace]; PlusLazy [Dot]]);
       Plus [Space];
       Group 2 (Plus [Digit]);
       Opt (seq [Opt (One [Chr "/"]); Group 3 (Plus [Digit])]);
       Plus [Space]].

(** [/\s+(\d+\.\d+):\s+/] *)
Definition reTime : regex :=
  seq [Plus [Space];
       Group 1 (seq [Plus [Digit]; One [Chr "."]; Plus [Digit]]);
       One [Chr ":"];
       Plus [Space]].

(** [/(\S+):\s*$/] *)
Definition reEvName : regex :=
  seq [Group 1 (Plus [NonSpace]); One [Chr ":"]; Star [Space]; Eol].

(** [/^[ ]+([0-9a-zA-Z\[\].\/\-_]+)(:([0-9]+))?( \(inlined\))?$/] *)
Definition reSourceLine : regex :=
  seq [Bol;
       Plus [Chr " "];
       Group 1 (Plus [Rng "0" "9"; Rng "a" "z"; Rng "A" "Z";
                      Chr "["; Chr "]"; Chr "."; Chr "/"; Chr "-"; Chr "_"]);
       Opt (Group 2 (seq [One [Chr ":"]; Group 3 (Plus [Rng "0" "9"])]));
       Opt (Group 4 (seq (lit " (inlined)")));
       Eol].

(** [/^\s*([0-9a-fA-F]+) (.+?)( \((\S* )\))?$/], where the source has no
    blank between [\S*] and the parenthesis that closes the capture. *)
Definition reStackLine : regex :=
  seq [Bol;
       Star [Space];
       Group 1 (Plus [Rng "0" "9"; Rng "a" "f"; Rng "A" "F"]);
       One [Chr " "];
       Group 2 (PlusLazy [Dot]);
       Opt (Group 3 (seq [One [Chr " "]; One [Chr "("];
                          Group 4 (Star [NonSpace]);
                          One [Chr ")"]]));
       Eol].

(** [/\+0x[\da-f]+$/] *)
Definition reOffset : regex :=
  seq (lit "+0x" ++ [Plus [Digit; Rng "a" "f"]; Eol]).

(** [m[i]] for a capture that the source types as [string]: reading an
    undefined one is reported as an error. *)
Definition getString (m : RegExpExecArray) (i : nat) : Exc string :=
  deref (get m i).

(** ** The data model *)

Section Adapter.

Context {num : JSNumber} {src : LineSource}.

(** [interface PerfStackFrame] *)
Record PerfStackFrame : Type := {
  address : string;
  symbolName : string;
  file : option string;
  line : option number
}.

(** [interface PerfEvent] *)
Record PerfEvent : Type := {
  command : option string;
  processID : option number;
  threadID : option number;
  time : option number;
  eventType : string;
  stack : list PerfStackFrame
}.

(** [interface FrameInfo] of [lib/profile]: what the adapter hands to a
    Builder for one stack entry. *)
Record FrameInfo : Type := {
  key : string;
  name : string;
  frameFile : option string;
  frameLine : option number
}.

(** The value formatters of [lib/value-formatters]: [TimeFormatter] with its
    unit, and the formatter a Builder starts with. *)
Inductive ValueFormatter : Type :=
| RawValueFormatter
| TimeFormatter (unit : string).

(** Modelled from the spec: the Stack-Sample Builder
    [StackListProfileBuilder] of [lib/profile], which is not under [src/].
    [setName] and [setValueFormatter] are configuration without validation,
    [appendSampleWithTimestamp] appends one full-stack snapshot, and
    [build] finalizes the Profile.  The call tree that [build] aggregates
    from the snapshots is not needed here: a Builder is the name, the
    formatter and the snapshots it was given, in order. *)
Record StackListProfileBuilder : Type := {
  builderName : string;
  builderFormatter : ValueFormatter;
  builderSamples : list (list FrameInfo * number)
}.

Definition newStackListProfileBuilder : StackListProfileBuilder :=
  {| builderName := ""; builderFormatter := RawValueFormatter; builderSamples := [] |}.

Definition setName (n : string) (b : StackListProfileBuilder) : StackListProfileBuilder :=
  {| builderName := n;
     builderFormatter := builderFormatter b;
     builderSamples := builderSamples b |}.

Definition setValueFormatter (f : ValueFormatter) (b : StackListProfileBuilder)
    : StackListProfileBuilder :=
  {| builderName := builderName b;
     builderFormatter := f;
     builderSamples := builderSamples b |}.

Definition appendSampleWithTimestamp (frames : list FrameInfo) (t : number)
    (b : StackListProfileBuilder) : StackListProfileBuilder :=
  {| builderName := builderName b;
     builderFormatter := builderFormatter b;
     builderSamples := builderSamples b ++ [(frames, t)] |}.

(** Modelled from the spec: the [Profile] that [build] returns, which is
    not under [src/]: its name, its value formatter, and the snapshots that
    determine its call tree and total weight. *)
Record Profile : Type := {
  profileName : string;
  profileFormatter : ValueFormatter;
  profileSamples : list (list FrameInfo * number)
}.

Definition build (b : StackListProfileBuilder) : Profile :=
  {| profileName := builderName b;
     profileFormatter := builderFormatter b;
     profileSamples := builderSamples b |}.

(** [interface ProfileGroup] *)
Record ProfileGroup : Type := {
  groupName : string;
  indexToView : nat;
  profiles : list Profile
}.

(** ** [Map<string, V>]: the entries in insertion order *)

Definition Map (V : Type) : Type := list (string * V).

Fixpoint mapGet {V : Type} (m : Map V) (k : string) : option V :=
  match m with
  | [] => None
  | (k', v) :: m' => if String.eqb k k' then Some v else mapGet m' k
  end.

(** [m.set(k, v)]: an entry that exists keeps its place. *)
Fixpoint mapSet {V : Type} (m : Map V) (k : string) (v : V) : Map V :=
  match m with
  | [] => [(k, v)]
  | (k', v') :: m' =>
      if String.eqb k k' then (k', v) :: m' else (k', v') :: mapSet m' k v
  end.

Definition mapKeys {V : Type} (m : Map V) : list string := map fst m.
Definition mapValues {V : Type} (m : Map V) : list V := map snd m.
Definition mapSize {V : Type} (m : Map V) : nat := List.length m.

(** Modelled from the spec: [getOrInsert] of [lib/utils], which is not
    under [src/]: the first encounter of a key creates its value with
    [fallback]; the value of the key is returned with the map. *)
Definition getOrInsert {V : Type} (m : Map V) (k : string) (fallback : string -> V)
    : Map V * V :=
  match mapGet m k with
  | Some v => (m, v)
  | None => (mapSet m k (fallback k), fallback k)
  end.

(** ** [parseEvent] *)

(** The truth value of a [number | null] in a condition. *)
Definition truthyNumber (x : option number) : bool :=
  match x with
  | Some n => truthy n
  | None => false
  end.

(** [`${x}`] for [x : number | null]. *)
Definition numStr (x : option number) : string :=
  match x with
  | Some n => numberToString n
  | None => "null"
  end.

(** [a[i] = f(a[i])] for an index [i] of the array [a]. *)
Fixpoint modify {A : Type} (i : nat) (f : A -> A) (a : list A) {struct a}
    : list A :=
  match a, i with
  | [], _ => []
  | x :: a', 0 => f x :: a'
  | x :: a', S i' => x :: modify i' f a'
  end.

(** The variables of the loop over the lines of a record (source lines
    81-112): [event.stack], and [lastWasSymbol], which is [null] or a
    reference to the frame pushed last, here the index of that frame in
    [event.stack]. *)
Record LineLoop : Type := {
  frames : list PerfStackFrame;
  lastWasSymbol : option nat
}.

(** Source lines 84-97: what the [if (lastWasSymbol)] block does with a
    line.  [inl] is its [continue], [inr] falls through to line 98. *)
Definition sourceLineStep (st : LineLoop) (line : string) : Exc (LineLoop + LineLoop) :=
  if notNull (lastWasSymbol st) then
    let lineMatch := exec reSourceLine line in
    if notNull lineMatch then
      m <- deref lineMatch ;;
      sourceFile <- getString m 1 ;;
      let sourceLine := get m 3 in
      ref <- deref (lastWasSymbol st) ;;
      let setFileLine (f : PerfStackFrame) :=
        {| address := address f;
           symbolName := symbolName f;
           file := Some sourceFile;
           line := if truthyString sourceLine
                   then Some (parseInt (toStr sourceLine)) else None |} in
      Return (inl {| frames := modify ref setFileLine (frames st);
                     lastWasSymbol := None |})
    else
      Return (inr {| frames := frames st; lastWasSymbol := None |})
  else Return (inr st).

(** Source lines 98-111: a stack line pushes a frame. *)
Definition stackLineStep (st : LineLoop) (line : string) : Exc LineLoop :=
  let lineMatch := exec reStackLine line in
  if negb (notNull lineMatch) then Return st
  else
    m <- deref lineMatch ;;
    address <- getString m 1 ;;
    symbolName <- getString m 2 ;;
    let file := get m 4 in
    let symbolName := replaceEmpty reOffset symbolName in
    let frame := {| address := ("0x" ++ address)%string;
                    symbolName := symbolName;
                    file := file;
                    line := None |} in
    Return {| frames := frames st ++ [frame];
              lastWasSymbol := Some (List.length (frames st)) |}.

(** The body of [for (let line of lines)]. *)
Definition lineStep (st : LineLoop) (line : string) : Exc LineLoop :=
  r <- sourceLineStep st line ;;
  match r with
  | inl st' => Return st'
  | inr st' => stackLineStep st' line
  end.

Fixpoint lineLoop (st : LineLoop) (lines : list string) : Exc LineLoop :=
  match lines with
  | [] => Return st
  | l :: lines' => st' <- lineStep st l ;; lineLoop st' lines'
  end.

Definition parseEvent (rawEvent : list string) : Exc (option PerfEvent) :=
  let lines := filter (fun l => negb (notNull (exec reComment l))) rawEvent in
  (* const firstLine = lines.shift() *)
  let firstLine := hd_error lines in
  let lines := tl lines in
  if negb (truthyString firstLine) then Return None
  else
    let firstLine := toStr firstLine in
    let eventStartMatch := exec reEventStart firstLine in
    if negb (notNull eventStartMatch) then Return None
    else
      m <- deref eventStartMatch ;;
      command <- getString m 1 ;;
      (* default "perf script" output has TID but not PID *)
      let ids := if truthyString (get m 3)
                 then (Some (parseInt (toStr (get m 2))),
                       Some (parseInt (toStr (get m 3))))
                 else (None, Some (parseInt (toStr (get m 2)))) in
      let timeMatch := exec reTime firstLine in
      time <- (if notNull timeMatch
               then tm <- deref timeMatch ;;
                    Return (Some (parseFloat (toStr (get tm 1))))
               else Return None) ;;
      let evName := exec reEvName firstLine in
      eventType <- (if notNull evName
                    then em <- deref evName ;; getString em 1
                    else Return "") ;;
      st <- lineLoop {| frames := []; lastWasSymbol := None |} lines ;;
      Return (Some {| command := Some command;
                      processID := fst ids;
                      threadID := snd ids;
                      time := time;
                      eventType := eventType;
                      stack := rev (frames st) |}).

(** ** [parseEvents] *)

(** The loop of the generator: [buffer] holds the lines of the record in
    progress; the events are listed in the order they are yielded. *)
Fixpoint parseEventsLoop (lines : list string) (buffer : list string)
    : Exc (list (option PerfEvent)) :=
  match lines with
  | [] =>
      if Nat.ltb 0 (List.length buffer)
      then e <- parseEvent buffer ;; Return [e]
      else Return []
  | line :: lines' =>
      if String.eqb line ""
      then e <- parseEvent buffer ;;
           es <- parseEventsLoop lines' [] ;;
           Return (e :: es)
      else parseEventsLoop lines' (buffer ++ [line])
  end.

Definition parseEvents (contents : TextFileContent) : Exc (list (option PerfEvent)) :=
  parseEventsLoop (splitLines contents) [].

(** ** [importFromLinuxPerf] *)

(** The variables of the loop over the events: the map [profiles] and
    [eventType]. *)
Record ImportLoop : Type := {
  profilesMap : Map StackListProfileBuilder;
  currentEventType : option string
}.

(** Source lines 129-133. *)
Definition profileNameOf (event : PerfEvent) : string :=
  let profileNameParts :=
    (if truthyString (command event) then [toStr (command event)] else [])
    ++ (if truthyNumber (processID event)
        then [("pid: " ++ numStr (processID event))%string] else [])
    ++ (if truthyNumber (threadID event)
        then [("tid: " ++ numStr (threadID event))%string] else []) in
  String.concat " " profileNameParts.

(** The fallback of source lines 134-139. *)
Definition newBuilder (profileName : string) : StackListProfileBuilder :=
  setValueFormatter (TimeFormatter "seconds")
    (setName profileName newStackListProfileBuilder).

(** Source lines 144-151. *)
Definition frameInfoOf (f : PerfStackFrame) : FrameInfo :=
  {| key := (symbolName f ++ " (" ++ toStr (file f) ++ ")")%string;
     name := if String.eqb (symbolName f) "[unknown]"
             then ("??? (" ++ toStr (file f) ++ ")")%string
             else symbolName f;
     frameFile := file f;
     frameLine := line f |}.

(** The body of [for (let event of parseEvents(contents))]. *)
Definition importEvent (st : ImportLoop) (event : option PerfEvent) : Exc ImportLoop :=
  if negb (notNull event) then Return st
  else
    ev <- deref event ;;
    (* eventType != null && eventType != event.eventType *)
    if match currentEventType st with
       | Some t => negb (String.eqb t (eventType ev))
       | None => false
       end
    then Return st
    else if negb (notNull (time ev)) then Return st
    else
      let profileName := profileNameOf ev in
      let (profiles', builder) :=
        getOrInsert (profilesMap st) profileName (fun _ => newBuilder profileName) in
      t <- deref (time ev) ;;
      let builder := appendSampleWithTimestamp (map frameInfoOf (stack ev)) t builder in
      Return {| profilesMap := mapSet profiles' profileName builder;
                currentEventType := Some (eventType ev) |}.

Fixpoint importLoop (st : ImportLoop) (events : list (option PerfEvent)) : Exc ImportLoop :=
  match events with
  | [] => Return st
  | e :: events' => st' <- importEvent st e ;; importLoop st' events'
  end.

(** Source lines 156-164. *)
Definition groupOf (profiles : Map StackListProfileBuilder) : option ProfileGroup :=
  if Nat.eqb (mapSize profiles) 0 then None
  else Some {| groupName := if Nat.eqb (mapSize profiles) 1
                            then toStr (hd_error (mapKeys profiles)) else "";
               indexToView := 0;
               profiles := map build (mapValues profiles) |}.

(** Source lines 119-121: the loop starts with an empty map and no event
    type. *)
Definition importStart : ImportLoop :=
  {| profilesMap := []; currentEventType := None |}.

Definition importFromLinuxPerf (contents : TextFileContent) : Exc (option ProfileGroup) :=
  events <- parseEvents contents ;;
  st <- importLoop importStart events ;;
  Return (groupOf (profilesMap st)).

(** Modelled from the spec: the Frame Registry of [lib/profile], which is
    not under [src/].  [internFrame] returns the Frame that is stored under
    the key, or stores and returns a new one: the attributes of the first
    writer win.  A Frame is represented by the attributes it was created
    with. *)
Definition internFrame (registry : Map FrameInfo) (fi : FrameInfo)
    : Map FrameInfo * FrameInfo :=
  getOrInsert registry (key fi) (fun _ => fi).

End Adapter.

(** * Notions for the statements *)

(** ** Numbers for running the adapter *)

(** Exact decimal numbers: on numerals of at most 15 significant digits they
    behave as the doubles of JavaScript do under the operations of
    [JSNumber]. *)
Module Decimal.

(** [Fin m e] is [m / 10^e], with [e = 0] or [m] not a multiple of ten. *)
Inductive t : Type :=
| NaN
| Fin (m : N) (e : nat).

Definition isDigit (a : ascii) : bool := inItem Digit a.

(** The value of the digits at the head of [s], after the digits [acc]. *)
Fixpoint digits (s : string) (acc : N) : N :=
  match s with
  | String a s' =>
      if isDigit a then digits s' (10 * acc + N.of_nat (code a - 48))%N else acc
  | EmptyString => acc
  end.

(** What follows the digits at the head of [s]. *)
Fixpoint afterDigits (s : string) : string :=
  match s with
  | String a s' => if isDigit a then afterDigits s' else s
  | EmptyString => s
  end.

(** Drop the zeros at the end of a fraction of [e] digits. *)
Fixpoint normalize (m : N) (e : nat) : t :=
  match e with
  | 0 => Fin m 0
  | S e' => if N.eqb (m mod 10) 0 then normalize (m / 10) e' else Fin m e
  end.

Definition startsWithDigit (s : string) : bool :=
  match s with
  | String a _ => isDigit a
  | EmptyString => false
  end.

(** [parseInt(s, 10)] for a string without sign and without blanks in
    front. *)
Definition parseInt (s : string) : t :=
  if startsWithDigit s then Fin (digits s 0) 0 else NaN.

(** [parseFloat(s)] for a string without sign, exponent and blanks in
    front. *)
Definition parseFloat (s : string) : t :=
  if startsWithDigit s then
    match afterDigits s with
    | String "." f =>
        let e := String.length f - String.length (afterDigits f) in
        normalize (digits f (digits s 0)) e
    | _ => Fin (digits s 0) 0
    end
  else NaN.

Definition truthy (x : t) : bool :=
  match x with
  | NaN => false
  | Fin m _ => negb (N.eqb m 0)
  end.

Definition natural (n : N) : string := NilZero.string_of_uint (N.to_uint n).

(** [n] written with at least [e] digits. *)
Definition padded (n : N) (e : nat) : string :=
  let s := natural n in
  (string_of_list_ascii (repeat "0"%char (e - String.length s)) ++ s)%string.

(** [s] without the zeros at its end. *)
Fixpoint significant (s : string) : string :=
  match s with
  | String a s' =>
      let r := significant s' in
      if Ascii.eqb a "0" && String.eqb r "" then "" else String a r
  | EmptyString => ""
  end.

(** The exponential notation of an integer of 22 digits or more. *)
Definition exponential (m : N) : string :=
  let d := natural m in
  match significant d with
  | String a "" => String a ""
  | String a r => String a ("." ++ r)
  | EmptyString => "0"
  end ++ "e+" ++ natural (N.of_nat (String.length d - 1)).

Definition toString (x : t) : string :=
  match x with
  | NaN => "NaN"
  | Fin m 0 =>
      if Nat.leb (String.length (natural m)) 21 then natural m else exponential m
  | Fin m e =>
      (natural (m / 10 ^ N.of_nat e) ++ "." ++ padded (m mod 10 ^ N.of_nat e) e)%string
  end.

End Decimal.

(** An input given as the list of its lines. *)
#[export] Instance textLines : LineSource := {
  TextFileContent := list string;
  splitLines := fun lines => lines
}.

#[export] Instance decimalNumber : JSNumber := {
  number := Decimal.t;
  parseInt := Decimal.parseInt;
  parseFloat := Decimal.parseFloat;
  truthy := Decimal.truthy;
  numberToString := Decimal.toString
}.

(** The input with the given lines. *)
Definition text (lines : list string) : @TextFileContent textLines := lines.

(** ** Captures and offsets *)

(** The captures that every match of a pattern defines. *)
Fixpoint mandatory (r : regex) : list nat :=
  match r with
  | Cat r1 r2 => mandatory r1 ++ mandatory r2
  | Group i r1 => i :: mandatory r1
  | _ => []
  end.

Definition defined (cs : captures) (i : nat) : Prop := capture i cs <> None.

(** The class [[\da-f]] of the offset pattern. *)
Definition lowerHex : cls := [Digit; Rng "a" "f"].

(** Every character of [s] is in the class [c]. *)
Fixpoint allIn (c : cls) (s : string) : bool :=
  match s with
  | String a s' => inCls c a && allIn c s'
  | EmptyString => true
  end.

(** [s] is [+0x] followed by one or more characters of [[\da-f]]. *)
Definition isOffset (s : string) : bool :=
  match s with
  | String a1 (String a2 (String a3 h)) =>
      Ascii.eqb a1 "+" && Ascii.eqb a2 "0" && Ascii.eqb a3 "x"
      && negb (String.eqb h "") && allIn lowerHex h
  | _ => false
  end.

(** The match array of [r.exec(s)] as the list of [[0]] to [[4]], empty when
    there is no match. *)
Definition capturesOf (r : regex) (s : string) : list (option string) :=
  match exec r s with
  | Some m => map (get m) [0; 1; 2; 3; 4]
  | None => []
  end.

(** The header grammar in the words of the spec:
    [<command><ws><tid>[/<pid>]<ws><time>: <eventtype>:], with the event type
    the token before the final colon.  It is used to state that a header fails
    the grammar, not by the adapter. *)
Definition specHeaderGrammar : regex :=
  seq [Bol;
       One [NonSpace]; PlusLazy [Dot];
       Plus [Space];
       Plus [Digit]; Opt (seq [One [Chr "/"]; Plus [Digit]]);
       Plus [Space];
       Plus [Digit]; One [Chr "."]; Plus [Digit]; One [Chr ":"];
       One [Chr " "];
       Plus [NonSpace]; One [Chr ":"];
       Eol].

(** ** Records, events and Builders *)

Section Notions.

Context {num : JSNumber} {src : LineSource}.

(** The header of a record: its first line that is not a comment. *)
Definition headerOf (rawEvent : list string) : option string :=
  hd_error (filter (fun l => negb (notNull (exec reComment l))) rawEvent).

(** The lines of a record after its header. *)
Definition bodyOf (rawEvent : list string) : list string :=
  tl (filter (fun l => negb (notNull (exec reComment l))) rawEvent).

(** The lines before the body of a record that [parseEvent] requires: a
    header that starts with command and thread, and has a timestamp. *)
Definition headerAccepted (rawEvent : list string) : bool :=
  truthyString (headerOf rawEvent)
  && notNull (exec reEventStart (toStr (headerOf rawEvent)))
  && notNull (exec reTime (toStr (headerOf rawEvent))).

(** The buffers that [parseEvents] hands to [parseEvent], in order. *)
Fixpoint rawEventsLoop (lines : list string) (buffer : list string)
    : list (list string) :=
  match lines with
  | [] => if Nat.ltb 0 (List.length buffer) then [buffer] else []
  | line :: lines' =>
      if String.eqb line ""
      then buffer :: rawEventsLoop lines' []
      else rawEventsLoop lines' (buffer ++ [line])
  end.

Definition rawEvents (contents : TextFileContent) : list (list string) :=
  rawEventsLoop (splitLines contents) [].

(** The event passes the two guards of source lines 125 and 126. *)
Definition accepts (st : ImportLoop) (ev : PerfEvent) : bool :=
  match currentEventType st with
  | Some t => String.eqb t (eventType ev)
  | None => true
  end && notNull (time ev).

(** What source lines 129-153 do to the map for an event with timestamp
    [t]. *)
Definition feed (m : Map StackListProfileBuilder) (ev : PerfEvent) (t : number)
    : Map StackListProfileBuilder :=
  let k := profileNameOf ev in
  let b := match mapGet m k with
           | Some b => b
           | None => newBuilder k
           end in
  mapSet m k (appendSampleWithTimestamp (map frameInfoOf (stack ev)) t b).

(** The first event of a list that is parsed and has a timestamp. *)
Fixpoint firstTimed (es : list (option PerfEvent)) : option PerfEvent :=
  match es with
  | [] => None
  | Some ev :: es' => if notNull (time ev) then Some ev else firstTimed es'
  | None :: es' => firstTimed es'
  end.

(** The Profiles that result from an input: the Builders of the map at the
    end of the loop, built in the order of the map. *)
Definition resultingProfiles (contents : TextFileContent) : Exc (list Profile) :=
  events <- parseEvents contents ;;
  st <- importLoop importStart events ;;
  Return (map build (mapValues (profilesMap st))).

(** Every Builder of the map carries the name it is filed under, the
    seconds formatter, and at least one sample. *)
Definition configured (kb : string * StackListProfileBuilder) : Prop :=
  builderName (snd kb) = fst kb /\
  builderFormatter (snd kb) = TimeFormatter "seconds" /\
  builderSamples (snd kb) <> [].

(** The symbol of the frame is what [replace] made of the symbol of a stack
    line of the record. *)
Definition stripped (rawEvent : list string) (f : PerfStackFrame) : Prop :=
  exists line m raw,
    In line rawEvent /\
    exec reStackLine line = Some m /\
    get m 2 = Some raw /\
    symbolName f = replaceEmpty reOffset raw.

(** The event comes from one of the records. *)
Definition parsedFrom (records : list (list string)) (e : option PerfEvent) : Prop :=
  forall ev, e = Some ev ->
  exists rawEvent, In rawEvent records /\ Forall (stripped rawEvent) (stack ev).

(** The stack entry was made from a frame of one of the records. *)
Definition fromFrame (records : list (list string)) (fi : FrameInfo) : Prop :=
  exists rawEvent f,
    In rawEvent records /\ stripped rawEvent f /\ fi = frameInfoOf f.

(** Every stack entry of every sample of a Builder was made from a frame of
    one of the records. *)
Definition framed (records : list (list string))
    (kb : string * StackListProfileBuilder) : Prop :=
  Forall (fun sample => Forall (fromFrame records) (fst sample))
         (builderSamples (snd kb)).

End Notions.

(** ** The grouping of the events *)

Section Grouping.

Context {num : JSNumber}.

(** The sample that the loop appends for an event and its timestamp. *)
Definition sampleOf (p : PerfEvent * number) : list FrameInfo * number :=
  (map frameInfoOf (stack (fst p)), snd p).

(** The events of the event type [ty] that are parsed and have a
    timestamp, with that timestamp, in the order of the list. *)
Definition eventsOfType (ty : string) (es : list (option PerfEvent))
    : list (PerfEvent * number) :=
  flat_map (fun e => match e with
                     | Some ev =>
                         match time ev with
                         | Some t => if String.eqb ty (eventType ev)
                                     then [(ev, t)] else []
                         | None => []
                         end
                     | None => []
                     end) es.

(** The events that count for the import: those of the event type of the
    first event that is parsed and has a timestamp. *)
Definition acceptedEvents (es : list (option PerfEvent))
    : list (PerfEvent * number) :=
  match firstTimed es with
  | Some first => eventsOfType (eventType first) es
  | None => []
  end.

(** The strings of a list in the order of their first occurrences. *)
Definition firstOccurrences (l : list string) : list string :=
  rev (nodup string_dec (rev l)).

(** The profile names of a list of events. *)
Definition namesOf (acc : list (PerfEvent * number)) : list string :=
  map (fun p => profileNameOf (fst p)) acc.

(** The events of a list that have the profile name [k]. *)
Definition eventsNamed (k : string) (acc : list (PerfEvent * number))
    : list (PerfEvent * number) :=
  filter (fun p => String.eqb (profileNameOf (fst p)) k) acc.

(** The Builder of the events named [k]. *)
Definition builderOf (acc : list (PerfEvent * number)) (k : string)
    : StackListProfileBuilder :=
  {| builderName := k;
     builderFormatter := TimeFormatter "seconds";
     builderSamples := map sampleOf (eventsNamed k acc) |}.

(** The map that groups the events by profile name. *)
Definition groupMap (acc : list (PerfEvent * number)) : Map StackListProfileBuilder :=
  map (fun k => (k, builderOf acc k)) (firstOccurrences (namesOf acc)).

(** The Profiles of a list of events: one for each profile name, in the
    order of the first occurrences of the names, with the samples of the
    events of that name in the order of the events. *)
Definition groupedProfiles (acc : list (PerfEvent * number)) : list Profile :=
  map (fun k => build (builderOf acc k)) (firstOccurrences (namesOf acc)).

(** The group of a list of Profiles (source lines 156-164). *)
Definition groupOfProfiles (ps : list Profile) : option ProfileGroup :=
  match ps with
  | [] => None
  | [p] => Some {| groupName := profileName p; indexToView := 0; profiles := [p] |}
  | _ => Some {| groupName := ""; indexToView := 0; profiles := ps |}
  end.

(** The number of samples of a list of Profiles. *)
Definition sampleCount (ps : list Profile) : nat :=
  list_sum (map (fun p => List.length (profileSamples p)) ps).

End Grouping.

(** ** The records of an input *)

Section Records.

Context {num : JSNumber}.

(** The line is not a comment: the test of the filter of source line 41. *)
Definition notComment (l : string) : bool := negb (notNull (exec reComment l)).

(** The line is not blank: the test of source line 30. *)
Definition notBlank (l : string) : bool := negb (String.eqb l "").

(** The loop of source line 123 as it runs: the generator hands over one
    event at a time, so that every record is parsed right before its event is
    imported. *)
Fixpoint importRecords (st : ImportLoop) (records : list (list string))
    : Exc ImportLoop :=
  match records with
  | [] => Return st
  | r :: records' =>
      e <- parseEvent r ;;
      st' <- importEvent st e ;;
      importRecords st' records'
  end.

End Records.

(** ** What a pattern matches *)

(** [matches r pos w rest cs cs']: at position [pos] of the input, and in
    front of [rest], the pattern [r] matches the text [w]; [cs'] are the
    captures [cs] and, on top of them, those of this match. *)
Inductive matches : regex -> nat -> string -> string -> captures -> captures -> Prop :=
| MEps pos rest cs :
    matches Eps pos "" rest cs cs
| MOne c a pos rest cs :
    inCls c a = true ->
    matches (One c) pos (String a "") rest cs cs
| MCat r1 r2 pos w1 w2 rest cs cs1 cs2 :
    matches r1 pos w1 (w2 ++ rest) cs cs1 ->
    matches r2 (pos + String.length w1) w2 rest cs1 cs2 ->
    matches (Cat r1 r2) pos (w1 ++ w2) rest cs cs2
| MOptNone r pos rest cs :
    matches (Opt r) pos "" rest cs cs
| MOptSome r pos w rest cs cs' :
    w <> "" ->
    matches r pos w rest cs cs' ->
    matches (Opt r) pos w rest cs cs'
| MStar c pos w rest cs :
    allIn c w = true ->
    matches (Star c) pos w rest cs cs
| MPlus c pos w rest cs :
    w <> "" -> allIn c w = true ->
    matches (Plus c) pos w rest cs cs
| MPlusLazy c pos w rest cs :
    w <> "" -> allIn c w = true ->
    matches (PlusLazy c) pos w rest cs cs
| MGroup i r pos w rest cs cs' :
    matches r pos w rest cs cs' ->
    matches (Group i r) pos w rest cs ((i, w) :: cs')
| MBol rest cs :
    matches Bol 0 "" rest cs cs
| MEol pos cs :
    matches Eol pos "" "" cs cs.

(** The first character of [s] is in the class [c]. *)
Definition startsIn (c : cls) (s : string) : bool :=
  match s with
  | String a _ => inCls c a
  | EmptyString => false
  end.

(** The class [[0-9a-fA-F]] of the addresses. *)
Definition hexDigit : cls := [Rng "0" "9"; Rng "a" "f"; Rng "A" "F"].

(** The class [[0-9a-zA-Z\[\].\/\-_]] of the source files. *)
Definition sourceChar : cls :=
  [Rng "0" "9"; Rng "a" "z"; Rng "A" "Z";
   Chr "["; Chr "]"; Chr "."; Chr "/"; Chr "-"; Chr "_"].

(** What follows the symbol of a stack line, [( \((\S* )\))?$], where the
    source has no blank between [\S*] and the parenthesis that closes the
    capture. *)
Definition fileTail : regex :=
  Cat (Opt (Group 3 (Cat (One [Chr " "])
                       (Cat (One [Chr "("])
                          (Cat (Group 4 (Star [NonSpace])) (One [Chr ")"]))))))
      Eol.

(** ** Tactics *)

(** A fact about every character, by cases on its eight bits. *)
Ltac by_ascii a :=
  destruct a as [[] [] [] [] [] [] [] []]; vm_compute; intros;
  first [reflexivity | discriminate | congruence].

(** The test of an optional part that it did not match the empty string. *)
Ltac pass_guard :=
  match goal with
  | |- (if Nat.eqb ?x ?y then _ else _) = _ =>
      replace (Nat.eqb x y) with false
        by (symmetry; apply Nat.eqb_neq; cbn [String.length]; lia)
  end.

(** A continuation whose success does not depend on the captures. *)
Definition insensitive (k : string -> nat -> captures -> option result) : Prop :=
  forall s p c1 c2, k s p c1 = None -> k s p c2 = None.

(** ** The loop over the lines of a record *)

Section Steps.

Context {num : JSNumber}.

(** The frame that source line 108 makes of the match of a stack line. *)
Definition frameOf (m : RegExpExecArray) : PerfStackFrame :=
  {| address := ("0x" ++ toStr (get m 1))%string;
     symbolName := replaceEmpty reOffset (toStr (get m 2));
     file := get m 4;
     line := None |}.

(** What source lines 89 and 90 make of a frame, for the match of a source
    line. *)
Definition withSource (m : RegExpExecArray) (f : PerfStackFrame) : PerfStackFrame :=
  {| address := address f;
     symbolName := symbolName f;
     file := Some (toStr (get m 1));
     line := if truthyString (get m 3)
             then Some (parseInt (toStr (get m 3))) else None |}.

(** The variables of the loop over the lines of a record after one more
    line. *)
Definition lineNext (st : LineLoop) (l : string) : LineLoop :=
  match lastWasSymbol st, exec reSourceLine l with
  | Some ref, Some m =>
      {| frames := modify ref (withSource m) (frames st); lastWasSymbol := None |}
  | _, _ =>
      match exec reStackLine l with
      | Some m => {| frames := frames st ++ [frameOf m];
                     lastWasSymbol := Some (List.length (frames st)) |}
      | None => {| frames := frames st; lastWasSymbol := None |}
      end
  end.

(** The address is [0x] and hexadecimal digits, the symbol has no line
    terminator, the file has no white space, and a line number comes with a
    file. *)
Definition wellFormedFrame (f : PerfStackFrame) : Prop :=
  (exists hex, address f = ("0x" ++ hex)%string /\ hex <> "" /\
               allIn hexDigit hex = true) /\
  allIn [Dot] (symbolName f) = true /\
  (forall fl, file f = Some fl -> allIn [NonSpace] fl = true) /\
  (forall n, line f = Some n ->
     file f <> None /\
     exists d, d <> "" /\ allIn [Digit] d = true /\ n = parseInt d).

End Steps.

(** ** Records as [perf script] prints them *)

Module Printed.

(** The source line under a stack line: indentation, file and line
    number. *)
Record Source : Type := {
  sourceIndent : string;
  sourceFile : string;
  sourceLine : string
}.

(** A stack line: indentation, address, symbol and file, and the source line
    under it when there is one. *)
Record Frame : Type := {
  indent : string;
  address : string;
  symbol : string;
  file : string;
  source : option Source
}.

(** A header: the command, the process id when it is printed, the thread id,
    the timestamp as seconds and fraction, the event type, and the white space
    between them. *)
Record Header : Type := {
  command : string;
  gap1 : string;
  pid : option string;
  tid : string;
  gap2 : string;
  seconds : string;
  fraction : string;
  gap3 : string;
  eventType : string
}.

Record Event : Type := {
  header : Header;
  frames : list Frame
}.

Definition headerLine (h : Header) : string :=
  (command h ++ gap1 h
   ++ match pid h with
      | Some p => p ++ "/"
      | None => ""
      end
   ++ tid h ++ gap2 h ++ seconds h ++ "." ++ fraction h ++ ":" ++ gap3 h
   ++ eventType h ++ ":")%string.

(** The ids of a header: the thread id, after the process id and a slash
    when the process id is printed. *)
Definition ids (h : Header) : string :=
  (match pid h with
   | Some p => p ++ "/"
   | None => ""
   end ++ tid h)%string.

(** The header from the white space in front of its timestamp on. *)
Definition fromTime (h : Header) : string :=
  (gap2 h ++ seconds h ++ "." ++ fraction h ++ ":" ++ gap3 h ++ eventType h ++ ":")%string.

Definition stackLine (f : Frame) : string :=
  (indent f ++ address f ++ " " ++ symbol f ++ " (" ++ file f ++ ")")%string.

Definition sourceLineOf (s : Source) : string :=
  (sourceIndent s ++ sourceFile s ++ ":" ++ sourceLine s)%string.

Definition frameLines (f : Frame) : list string :=
  stackLine f :: match source f with
                 | Some s => [sourceLineOf s]
                 | None => []
                 end.

(** The lines of a record. *)
Definition lines (e : Event) : list string :=
  headerLine (header e) :: flat_map frameLines (frames e).

(** One or more characters of a class. *)
Definition some (c : cls) (s : string) : bool :=
  negb (String.eqb s "") && allIn c s.

(** The last character of [s] is in the class [c]. *)
Fixpoint endsIn (c : cls) (s : string) : bool :=
  match s with
  | EmptyString => false
  | String a EmptyString => inCls c a
  | String _ s' => endsIn c s'
  end.

(** No white space of [s] is followed by a digit. *)
Fixpoint noBlankDigit (s : string) : bool :=
  match s with
  | String a s' =>
      negb (inCls [Space] a && startsIn [Digit] s') && noBlankDigit s'
  | EmptyString => true
  end.

(** A command is two or more characters without a line terminator; it
    starts and ends with a character that is not white space, it does not
    start with [#], and it has no digit right after white space. *)
Definition commandOk (s : string) : bool :=
  match s with
  | String a w =>
      inCls [NonSpace] a && negb (Ascii.eqb a "#") && some [Dot] w
      && endsIn [NonSpace] w && noBlankDigit w
  | EmptyString => false
  end.

(** The fields of a header: ids, seconds and fraction are one or more
    decimal digits, the gaps one or more characters of white space, the
    event type one or more characters that are not white space. *)
Definition headerOk (h : Header) : bool :=
  commandOk (command h)
  && some [Space] (gap1 h)
  && match pid h with
     | Some p => some [Digit] p
     | None => true
     end
  && some [Digit] (tid h)
  && some [Space] (gap2 h)
  && some [Digit] (seconds h)
  && some [Digit] (fraction h)
  && some [Space] (gap3 h)
  && some [NonSpace] (eventType h).

(** A source line: one or more blanks, one or more characters of a file
    name, one or more decimal digits. *)
Definition sourceOk (s : Source) : bool :=
  some [Chr " "] (sourceIndent s)
  && some sourceChar (sourceFile s)
  && some [Digit] (sourceLine s).

(** A stack line: white space or nothing, one or more hexadecimal digits,
    a symbol of one or more characters without a line terminator, and a file
    without white space. *)
Definition frameOk (f : Frame) : bool :=
  allIn [Space] (indent f)
  && some hexDigit (address f)
  && some [Dot] (symbol f)
  && allIn [NonSpace] (file f)
  && match source f with
     | Some s => sourceOk s
     | None => true
     end.

(** The records that are read back as they were printed.  The conditions
    on the command are needed: a command of one character is no command for
    the header pattern, and a command with a number after white space ends
    in front of that number. *)
Definition eventOk (e : Event) : bool :=
  headerOk (header e) && forallb frameOk (frames e).

End Printed.

Section PrintedEvents.

Context {num : JSNumber}.

(** The frame that a printed frame stands for. *)
Definition frameOfPrinted (f : Printed.Frame) : PerfStackFrame :=
  {| address := ("0x" ++ Printed.address f)%string;
     symbolName := replaceEmpty reOffset (Printed.symbol f);
     file := match Printed.source f with
             | Some s => Some (Printed.sourceFile s)
             | None => Some (Printed.file f)
             end;
     line := match Printed.source f with
             | Some s => Some (parseInt (Printed.sourceLine s))
             | None => None
             end |}.

(** The event that a printed record stands for. *)
Definition eventOfPrinted (e : Printed.Event) : PerfEvent :=
  let h := Printed.header e in
  {| command := Some (Printed.command h);
     processID := match Printed.pid h with
                  | Some p => Some (parseInt p)
                  | None => None
                  end;
     threadID := Some (parseInt (Printed.tid h));
     time := Some (parseFloat (Printed.seconds h ++ "." ++ Printed.fraction h));
     eventType := Printed.eventType h;
     stack := rev (map frameOfPrinted (Printed.frames e)) |}.

(** The event of a printed record with its timestamp. *)
Definition timedEvent (e : Printed.Event) : PerfEvent * number :=
  (eventOfPrinted e,
   parseFloat (Printed.seconds (Printed.header e) ++ "."
               ++ Printed.fraction (Printed.header e))).

(** The input in which every record is followed by a blank line. *)
Definition printedInput (es : list Printed.Event) : list string :=
  flat_map (fun e => Printed.lines e ++ [""]) es.

End PrintedEvents.

(** ** The lines that the patterns accept *)

(** One or more decimal digits. *)
Definition digits (s : string) : Prop := s <> "" /\ allIn [Digit] s = true.

(** One or more characters of white space. *)
Definition blanks (s : string) : Prop := s <> "" /\ allIn [Space] s = true.

(** The ids of a header: a number, or two numbers with a slash between
    them. *)
Definition idsText (ids : string) : Prop :=
  digits ids \/
  exists p t, ids = (p ++ "/" ++ t)%string /\ digits p /\ digits t.

(** The header starts with the command [cmd], white space, the ids and
    white space; a command is a character that is not white space and one or
    more characters after it. *)
Definition commandAndIds (cmd h : string) : Prop :=
  exists a w sp ids sp' rest,
    cmd = String a w /\
    h = (cmd ++ sp ++ ids ++ sp' ++ rest)%string /\
    inCls [NonSpace] a = true /\ w <> "" /\ allIn [Dot] w = true /\
    blanks sp /\ idsText ids /\ blanks sp'.

Definition startsWithCommandAndIds (h : string) : Prop :=
  exists cmd, commandAndIds cmd h.

(** The header has, somewhere, white space, digits, a point, digits, a
    colon and white space. *)
Definition hasTimestamp (h : string) : Prop :=
  exists pre sp i f sp' rest,
    h = (pre ++ sp ++ i ++ "." ++ f ++ ":" ++ sp' ++ rest)%string /\
    blanks sp /\ digits i /\ digits f /\ blanks sp'.

(** The header ends with one or more characters that are not white space,
    a colon, and white space or nothing. *)
Definition hasEventType (h : string) : Prop :=
  exists pre ty ws,
    h = (pre ++ ty ++ ":" ++ ws)%string /\
    ty <> "" /\ allIn [NonSpace] ty = true /\ allIn [Space] ws = true.

(** The line is white space or nothing, hexadecimal digits, a blank, and
    one or more characters without a line terminator. *)
Definition isStackLine (l : string) : Prop :=
  exists ws hex sy,
    l = (ws ++ hex ++ " " ++ sy)%string /\
    allIn [Space] ws = true /\
    hex <> "" /\ allIn hexDigit hex = true /\
    sy <> "" /\ allIn [Dot] sy = true.


(** What follows the command in the header pattern: white space, the ids
    and white space. *)
Definition afterCommand : regex :=
  Cat (Plus [Space])
    (Cat (Group 2 (Plus [Digit]))
       (Cat (Opt (Cat (Opt (One [Chr "/"])) (Group 3 (Plus [Digit]))))
            (Plus [Space]))).

(** ** The ids in a profile name *)

Section Contexts.

Context {num : JSNumber}.

(** An id that the record has is not [0] and is written in decimal digits,
    as JavaScript writes the integers below [10^21]. *)
Definition idInDigits (x : option number) : bool :=
  match x with
  | Some n => truthy n && Printed.some [Digit] (numberToString n)
  | None => true
  end.

Definition idsInDigits (ev : PerfEvent) : bool :=
  idInDigits (processID ev) && idInDigits (threadID ev).

(** The part of a profile name for an id that is not [0]. *)
Definition namePart (label : string) (x : option number) : string :=
  match x with
  | Some n => (" " ++ label ++ ": " ++ numberToString n)%string
  | None => ""
  end.

End Contexts.

(** * Properties *)

(** ** The patterns on lines of [perf script] *)

(** The header of the comment of source line 57: the command has a blank. *)
Example eventStart_command_with_blank :
  capturesOf reEventStart "V8 WorkerThread 25607 4794564.109216: cycles:"
  = [Some "V8 WorkerThread 25607 "; Some "V8 WorkerThread"; Some "25607";
     None; None].
Proof. reflexivity. Qed.

Example eventStart_pid_and_tid :
  capturesOf reEventStart "foo 12/34 4794564.109216: cycles:"
  = [Some "foo 12/34 "; Some "foo"; Some "12"; Some "34"; None].
Proof. reflexivity. Qed.

Example eventStart_without_command :
  capturesOf reEventStart "25607 4794564.109216: cycles:" = [].
Proof. reflexivity. Qed.

Example time_of_header :
  capturesOf reTime "V8 WorkerThread 25607 4794564.109216: cycles:"
  = [Some " 4794564.109216: "; Some "4794564.109216"; None; None; None].
Proof. reflexivity. Qed.

Example evName_of_header :
  capturesOf reEvName "V8 WorkerThread 25607 4794564.109216: cycles:"
  = [Some "cycles:"; Some "cycles"; None; None; None].
Proof. reflexivity. Qed.

(** The stack line of the comment of source line 104. *)
Example stackLine_with_offset :
  capturesOf reStackLine
    "	    7fffb84c9afc cpu_startup_entry+0x800047c022ec ([kernel.kallsyms])"
  = [Some "	    7fffb84c9afc cpu_startup_entry+0x800047c022ec ([kernel.kallsyms])";
     Some "7fffb84c9afc"; Some "cpu_startup_entry+0x800047c022ec";
     Some " ([kernel.kallsyms])"; Some "[kernel.kallsyms]"].
Proof. reflexivity. Qed.

(** Without a file in parentheses at its end, the line is all symbol. *)
Example stackLine_without_file :
  capturesOf reStackLine " 7fff operator new (unsigned long)"
  = [Some " 7fff operator new (unsigned long)"; Some "7fff";
     Some "operator new (unsigned long)"; None; None].
Proof. reflexivity. Qed.

Example sourceLine_inlined :
  capturesOf reSourceLine "  foo/bar.c:12 (inlined)"
  = [Some "  foo/bar.c:12 (inlined)"; Some "foo/bar.c"; Some ":12"; Some "12";
     Some " (inlined)"].
Proof. reflexivity. Qed.

Example comment_line :
  capturesOf reComment "  # captured on: Mon Jan  1" = [Some "  #"; None; None; None; None]
  /\ capturesOf reComment "perf # 1" = [].
Proof. split; reflexivity. Qed.

(** ** The matcher *)

Module RegExpFacts.

Lemma defined_cons i j s cs :
  i = j \/ defined cs i -> defined ((j, s) :: cs) i.
Proof.
  unfold defined; simpl. destruct (Nat.eqb_spec i j); intros [H | H]; congruence.
Qed.

Lemma greedy_some c s : forall pos k res,
  greedy c s pos k = Some res -> exists s' pos', k s' pos' = Some res.
Proof.
  induction s as [| a s IH]; simpl; intros pos k res H; eauto.
  destruct (inCls c a); eauto.
  destruct (greedy c s (S pos) k) eqn:E; eauto.
  inversion H; subst. eauto.
Qed.

Lemma lazy_some c s : forall pos k res,
  lazy c s pos k = Some res -> exists s' pos', k s' pos' = Some res.
Proof.
  induction s as [| a s IH]; simpl; intros pos k res H.
  - destruct (k "" pos) eqn:E; [inversion H; subst; eauto | discriminate].
  - destruct (k (String a s) pos) eqn:E; [inversion H; subst; eauto |].
    destruct (inCls c a); [eauto | discriminate].
Qed.

(** A match of [r] reaches its continuation, with the captures it had and
    the ones [r] always defines. *)
Lemma run_some r : forall s pos cs k res,
  run r s pos cs k = Some res ->
  exists s' pos' cs',
    k s' pos' cs' = Some res /\
    forall i, In i (mandatory r) \/ defined cs i -> defined cs' i.
Proof.
  induction r; simpl; intros s pos cs k res H.
  - exists s, pos, cs. split; [assumption | intros i [[] | Hi]; assumption].
  - destruct s as [| a s]; [discriminate |].
    destruct (inCls c a); [| discriminate].
    exists s, (S pos), cs. split; [assumption | intros i [[] | Hi]; assumption].
  - apply IHr1 in H. destruct H as (s1 & p1 & c1 & H & D1).
    apply IHr2 in H. destruct H as (s2 & p2 & c2 & H & D2).
    exists s2, p2, c2. split; [assumption |].
    intros i [Hi | Hi].
    + apply in_app_or in Hi. destruct Hi; [apply D2; right; apply D1 | apply D2]; auto.
    + apply D2; right; apply D1; auto.
  - match type of H with
    | match ?x with _ => _ end = _ => destruct x eqn:E
    end.
    + inversion H; subst. apply IHr in E. destruct E as (s1 & p1 & c1 & E & D1).
      destruct (Nat.eqb p1 pos); [discriminate |].
      exists s1, p1, c1. split; [assumption | intros i [[] | Hi]; auto].
    + exists s, pos, cs. split; [assumption | intros i [[] | Hi]; assumption].
  - apply greedy_some in H. destruct H as (s' & p' & H).
    exists s', p', cs. split; [assumption | intros i [[] | Hi]; assumption].
  - destruct s as [| a s]; [discriminate |].
    destruct (inCls c a); [| discriminate].
    apply greedy_some in H. destruct H as (s' & p' & H).
    exists s', p', cs. split; [assumption | intros i [[] | Hi]; assumption].
  - destruct s as [| a s]; [discriminate |].
    destruct (inCls c a); [| discriminate].
    apply lazy_some in H. destruct H as (s' & p' & H).
    exists s', p', cs. split; [assumption | intros i [[] | Hi]; assumption].
  - apply IHr in H. destruct H as (s1 & p1 & c1 & H & D1).
    eexists _, _, _. split; [exact H |].
    intros j [[Hj | Hj] | Hj]; apply defined_cons; auto.
  - destruct (Nat.eqb pos 0); [| discriminate].
    exists s, pos, cs. split; [assumption | intros i [[] | Hi]; assumption].
  - destruct s; [| discriminate].
    exists "", pos, cs. split; [assumption | intros i [[] | Hi]; assumption].
Qed.

Lemma attempt_mandatory r s pos m i :
  attempt r s pos = Some m -> In i (mandatory r) -> capture i (groups m) <> None.
Proof.
  unfold attempt. intros H Hi.
  destruct (run r s pos [] (fun _ pos' cs => Some (pos', cs))) as [[e cs] |] eqn:E;
    [| discriminate].
  inversion H; subst; simpl.
  apply run_some in E. destruct E as (s' & p' & c' & E & D).
  inversion E; subst. apply D; auto.
Qed.

Lemma search_mandatory r s : forall pos m i,
  search r s pos = Some m -> In i (mandatory r) -> capture i (groups m) <> None.
Proof.
  induction s as [| a s IH]; simpl; intros pos m i H Hi.
  - destruct (attempt r "" pos) eqn:E; [| discriminate].
    inversion H; subst. eapply attempt_mandatory; eauto.
  - destruct (attempt r (String a s) pos) eqn:E.
    + inversion H; subst. eapply attempt_mandatory; eauto.
    + eapply IH; eauto.
Qed.

(** A capture that the pattern always defines is a string in every match
    array. *)
Lemma getString_mandatory r s m i :
  exec r s = Some m -> In i (mandatory r) -> i <> 0 ->
  exists g, get m i = Some g /\ getString m i = Return g.
Proof.
  intros H Hi Hz. unfold getString, get.
  destruct i as [| i]; [congruence |].
  pose proof (search_mandatory _ _ _ _ H Hi) as D.
  destruct (capture (S i) (groups m)) as [g |]; [| congruence].
  exists g. split; reflexivity.
Qed.

End RegExpFacts.
Import RegExpFacts.

(** ** The offset pattern *)

Module OffsetFacts.

Lemma take_length s : take (String.length s) s = s.
Proof.
  unfold take. induction s as [| a s IH]; simpl; [reflexivity |].
  rewrite IH. reflexivity.
Qed.

Lemma take_app p t : take (String.length p) (p ++ t) = p.
Proof.
  unfold take. induction p as [| a p IH]; simpl.
  - destruct t; reflexivity.
  - rewrite IH. reflexivity.
Qed.

Lemma drop_app p t : drop (String.length p) (p ++ t) = t.
Proof.
  induction p as [| a p IH]; simpl; [destruct t; reflexivity | exact IH].
Qed.

Lemma drop_length s : drop (String.length s) s = "".
Proof. induction s as [| a s IH]; simpl; auto. Qed.

Lemma drop_add n m s : drop (n + m) s = drop m (drop n s).
Proof.
  revert s. induction n as [| n IH]; intros s; simpl.
  - destruct s; reflexivity.
  - destruct s as [| a s]; [destruct m; reflexivity | apply IH].
Qed.

Lemma append_empty_r s : (s ++ "")%string = s.
Proof. induction s as [| a s IH]; simpl; [| rewrite IH]; reflexivity. Qed.

(** A greedy run before the end of the input takes all of it or fails. *)
Lemma greedy_Eol c cs s : forall pos,
  greedy c s pos (fun s' pos' => match s' with
                                 | EmptyString => Some (pos', cs)
                                 | String _ _ => None
                                 end)
  = if allIn c s then Some (pos + String.length s, cs) else None.
Proof.
  induction s as [| a s IH]; intros pos; simpl.
  - rewrite Nat.add_0_r. reflexivity.
  - destruct (inCls c a); simpl; [| reflexivity].
    rewrite IH. destruct (allIn c s); [| reflexivity].
    rewrite Nat.add_succ_r. reflexivity.
Qed.

Lemma inCls_Chr c a : inCls [Chr c] a = Ascii.eqb a c.
Proof. unfold inCls; simpl. apply orb_false_r. Qed.

Lemma attempt_reOffset s pos :
  attempt reOffset s pos =
  if isOffset s
  then Some {| index := pos; matched := s; groups := [] |}
  else None.
Proof.
  unfold attempt, isOffset.
  change reOffset
    with (Cat (One [Chr "+"]) (Cat (One [Chr "0"]) (Cat (One [Chr "x"])
            (Cat (Plus lowerHex) Eol)))).
  cbn [run].
  destruct s as [| a1 s]; [reflexivity |].
  rewrite inCls_Chr. destruct (Ascii.eqb a1 "+");
    [| destruct s as [| a2 [| a3 h]]; reflexivity].
  destruct s as [| a2 s]; [reflexivity |].
  rewrite inCls_Chr. destruct (Ascii.eqb a2 "0");
    [| destruct s as [| a3 h]; reflexivity].
  destruct s as [| a3 h]; [reflexivity |].
  rewrite inCls_Chr. destruct (Ascii.eqb a3 "x"); [| reflexivity].
  cbn [andb].
  destruct h as [| a h]; [reflexivity |].
  cbn [String.eqb negb andb allIn].
  destruct (inCls lowerHex a); [| reflexivity].
  rewrite greedy_Eol. cbn [andb].
  destruct (allIn lowerHex h); [| reflexivity].
  replace (S (S (S (S pos))) + String.length h - pos)
    with (String.length (String a1 (String a2 (String a3 (String a h)))))
    by (cbn [String.length]; lia).
  rewrite take_length. reflexivity.
Qed.

Lemma isOffset_inv s :
  isOffset s = true ->
  exists h, s = ("+0x" ++ h)%string /\ h <> "" /\ allIn lowerHex h = true.
Proof.
  unfold isOffset. destruct s as [| a1 [| a2 [| a3 h]]]; try discriminate.
  intros H. repeat (apply andb_prop in H; destruct H as [H ?]).
  apply Ascii.eqb_eq in H. subst a1.
  repeat match goal with
         | E : Ascii.eqb _ _ = true |- _ => apply Ascii.eqb_eq in E; subst
         end.
  exists h. repeat split; auto.
  intros ->. discriminate.
Qed.

Lemma isOffset_intro h :
  h <> "" -> allIn lowerHex h = true -> isOffset ("+0x" ++ h) = true.
Proof.
  intros N A. simpl. rewrite A. apply String.eqb_neq in N. rewrite N. reflexivity.
Qed.

Lemma allIn_app c p t : allIn c (p ++ t) = allIn c p && allIn c t.
Proof.
  induction p as [| a p IH]; simpl; [reflexivity |].
  rewrite IH. apply andb_assoc.
Qed.

(** No offset starts before the last [+] of the string. *)
Lemma not_isOffset_before a p h :
  isOffset (String a (p ++ "+0x" ++ h)) = false.
Proof.
  unfold isOffset. destruct p as [| b [| c p]]; simpl.
  - destruct (Ascii.eqb a "+"); reflexivity.
  - destruct (Ascii.eqb a "+"), (Ascii.eqb b "0"); reflexivity.
  - rewrite allIn_app. simpl. rewrite !andb_false_r. reflexivity.
Qed.

Lemma search_unfold r s pos :
  search r s pos =
  match attempt r s pos with
  | Some m => Some m
  | None =>
      match s with
      | String _ s' => search r s' (S pos)
      | EmptyString => None
      end
  end.
Proof. destruct s; reflexivity. Qed.

Lemma search_reOffset_found p : forall h pos,
  h <> "" -> allIn lowerHex h = true ->
  search reOffset (p ++ "+0x" ++ h) pos =
  Some {| index := pos + String.length p;
          matched := ("+0x" ++ h)%string;
          groups := [] |}.
Proof.
  induction p as [| a p IH]; intros h pos N A.
  - rewrite search_unfold, attempt_reOffset.
    change ("" ++ "+0x" ++ h)%string with ("+0x" ++ h)%string.
    rewrite (isOffset_intro N A). simpl. rewrite Nat.add_0_r. reflexivity.
  - rewrite search_unfold, attempt_reOffset.
    change (String a p ++ "+0x" ++ h)%string
      with (String a (p ++ "+0x" ++ h))%string.
    rewrite not_isOffset_before. rewrite IH by assumption.
    simpl. rewrite Nat.add_succ_r. reflexivity.
Qed.

Lemma search_reOffset_none s : forall pos,
  (forall p t, s = (p ++ t)%string -> isOffset t = false) ->
  search reOffset s pos = None.
Proof.
  induction s as [| a s IH]; intros pos H;
    rewrite search_unfold, attempt_reOffset.
  - rewrite (H "" "" eq_refl). reflexivity.
  - rewrite (H "" (String a s) eq_refl). apply IH.
    intros p t ->. apply (H (String a p) t). reflexivity.
Qed.

(** The offset at the end of a symbol is removed. *)
Lemma replaceEmpty_offset p h :
  h <> "" -> allIn lowerHex h = true ->
  replaceEmpty reOffset (p ++ "+0x" ++ h) = p.
Proof.
  intros N A. unfold replaceEmpty, exec.
  rewrite (search_reOffset_found p 0 N A). cbn [index matched Nat.add].
  rewrite take_app, drop_add, drop_app, drop_length. apply append_empty_r.
Qed.

(** A symbol that does not end with an offset is left as it is. *)
Lemma replaceEmpty_no_offset s :
  (forall p h, h <> "" -> allIn lowerHex h = true ->
               s <> (p ++ "+0x" ++ h)%string) ->
  replaceEmpty reOffset s = s.
Proof.
  intros H. unfold replaceEmpty, exec.
  rewrite search_reOffset_none; [reflexivity |].
  intros p t ->. destruct (isOffset t) eqn:E; [| reflexivity].
  apply isOffset_inv in E. destruct E as (h & -> & N & A).
  exfalso. exact (H p h N A eq_refl).
Qed.

End OffsetFacts.
Import OffsetFacts.

(** ** No step of the adapter throws *)

Section Totality.

Context {num : JSNumber}.

Lemma sourceLineStep_total st line :
  exists r, sourceLineStep st line = Return r.
Proof.
  unfold sourceLineStep.
  destruct (lastWasSymbol st) as [ref |] eqn:L; simpl; [| eauto].
  destruct (exec reSourceLine line) as [m |] eqn:E; simpl; [| eauto].
  destruct (@getString_mandatory _ _ _ 1 E) as (g & _ & ->);
    [vm_compute; auto | discriminate |].
  simpl. eauto.
Qed.

Lemma stackLineStep_total st line :
  exists st', stackLineStep st line = Return st'.
Proof.
  unfold stackLineStep.
  destruct (exec reStackLine line) as [m |] eqn:E; simpl; [| eauto].
  destruct (@getString_mandatory _ _ _ 1 E) as (g1 & _ & ->);
    [vm_compute; auto | discriminate |].
  destruct (@getString_mandatory _ _ _ 2 E) as (g2 & _ & ->);
    [vm_compute; auto | discriminate |].
  simpl. eauto.
Qed.

Lemma lineStep_total st line :
  exists st', lineStep st line = Return st'.
Proof.
  unfold lineStep.
  destruct (sourceLineStep_total st line) as ([st' | st'] & ->); simpl; eauto.
  apply stackLineStep_total.
Qed.

Lemma lineLoop_total lines : forall st,
  exists st', lineLoop st lines = Return st'.
Proof.
  induction lines as [| l lines IH]; simpl; intros st; eauto.
  destruct (lineStep_total st l) as (st' & ->). simpl. apply IH.
Qed.

(** What [parseEvent] returns, case by case. *)
Lemma parseEvent_cases rawEvent :
  let h := toStr (headerOf rawEvent) in
  (truthyString (headerOf rawEvent) = false /\ parseEvent rawEvent = Return None)
  \/ (truthyString (headerOf rawEvent) = true /\ exec reEventStart h = None /\
      parseEvent rawEvent = Return None)
  \/ (exists m cmd st,
        truthyString (headerOf rawEvent) = true /\
        exec reEventStart h = Some m /\
        get m 1 = Some cmd /\
        lineLoop {| frames := []; lastWasSymbol := None |} (bodyOf rawEvent) = Return st /\
        parseEvent rawEvent =
          Return (Some
            {| command := Some cmd;
               processID := if truthyString (get m 3)
                            then Some (parseInt (toStr (get m 2))) else None;
               threadID := if truthyString (get m 3)
                           then Some (parseInt (toStr (get m 3)))
                           else Some (parseInt (toStr (get m 2)));
               time := match exec reTime h with
                       | Some tm => Some (parseFloat (toStr (get tm 1)))
                       | None => None
                       end;
               eventType := match exec reEvName h with
                            | Some em => toStr (get em 1)
                            | None => ""
                            end;
               stack := rev (frames st) |})).
Proof.
  unfold parseEvent, headerOf, bodyOf.
  set (lines := filter _ rawEvent). cbv zeta.
  destruct (truthyString (hd_error lines)) eqn:T; cbn [negb]; [| auto].
  right.
  destruct (exec reEventStart (toStr (hd_error lines))) as [m |] eqn:E;
    cbn [negb notNull bind deref]; [| auto].
  right.
  destruct (@getString_mandatory _ _ _ 1 E) as (g1 & G1 & ->);
    [vm_compute; auto | discriminate |].
  destruct (lineLoop_total (tl lines) {| frames := []; lastWasSymbol := None |})
    as (st & L).
  exists m, g1, st. repeat split; auto.
  assert (N : forall em, exec reEvName (toStr (hd_error lines)) = Some em ->
                         getString em 1 = Return (toStr (get em 1))).
  { intros em N. destruct (@getString_mandatory _ _ _ 1 N) as (g & G & ->);
      [vm_compute; auto | discriminate |].
    rewrite G. reflexivity. }
  destruct (truthyString (get m 3));
    destruct (exec reTime (toStr (hd_error lines))) as [tm |];
    destruct (exec reEvName (toStr (hd_error lines))) as [em |];
    cbn [bind notNull negb deref fst snd];
    try rewrite (N em eq_refl); cbn [bind]; rewrite L; reflexivity.
Qed.

Lemma parseEvent_total rawEvent :
  exists e, parseEvent rawEvent = Return e.
Proof.
  destruct (parseEvent_cases rawEvent)
    as [[_ H] | [(_ & _ & H) | (m & cmd & st & _ & _ & _ & _ & H)]]; eauto.
Qed.

Lemma parseEventsLoop_total lines : forall buffer,
  exists es, parseEventsLoop lines buffer = Return es.
Proof.
  induction lines as [| l lines IH]; simpl; intros buffer.
  - destruct (Nat.ltb 0 (List.length buffer)); [| eauto].
    destruct (parseEvent_total buffer) as (e & ->). simpl. eauto.
  - destruct (String.eqb l ""); [| apply IH].
    destruct (parseEvent_total buffer) as (e & ->). simpl.
    destruct (IH []) as (es & ->). simpl. eauto.
Qed.

Lemma importEvent_total st event :
  exists st', importEvent st event = Return st'.
Proof.
  unfold importEvent.
  destruct event as [ev |]; simpl; [| eauto].
  destruct (currentEventType st) as [t |];
    [destruct (String.eqb t (eventType ev)); simpl; [| eauto] |];
    (destruct (time ev) as [tm |]; simpl; [| eauto]);
    destruct (getOrInsert _ _ _); simpl; eauto.
Qed.

Lemma importLoop_total events : forall st,
  exists st', importLoop st events = Return st'.
Proof.
  induction events as [| e events IH]; simpl; intros st; eauto.
  destruct (importEvent_total st e) as (st' & ->). simpl. apply IH.
Qed.

End Totality.

(** ** Maps *)

Section MapFacts.

Context {V : Type}.

Lemma mapGet_mapSet_same (m : Map V) k v : mapGet (mapSet m k v) k = Some v.
Proof.
  induction m as [| [k' v'] m IH]; simpl.
  - rewrite String.eqb_refl. reflexivity.
  - destruct (String.eqb k k') eqn:E; simpl; rewrite E; auto.
Qed.

Lemma mapGet_mapSet_other (m : Map V) k k' v :
  k' <> k -> mapGet (mapSet m k v) k' = mapGet m k'.
Proof.
  intros N. induction m as [| [k0 v0] m IH]; simpl.
  - apply String.eqb_neq in N. rewrite N. reflexivity.
  - destruct (String.eqb k k0) eqn:E; simpl.
    + apply String.eqb_eq in E. subst k0.
      apply String.eqb_neq in N. rewrite N. reflexivity.
    + rewrite IH. reflexivity.
Qed.

(** Setting a new key appends an entry. *)
Lemma mapSet_absent (m : Map V) k v :
  mapGet m k = None -> mapSet m k v = m ++ [(k, v)].
Proof.
  induction m as [| [k' v'] m IH]; simpl; [reflexivity |].
  destruct (String.eqb k k'); [discriminate |].
  intros H. rewrite IH; auto.
Qed.

(** Setting a key that exists keeps the keys, in their order. *)
Lemma mapKeys_mapSet_present (m : Map V) k v :
  mapGet m k <> None -> mapKeys (mapSet m k v) = mapKeys m.
Proof.
  unfold mapKeys. induction m as [| [k' v'] m IH]; simpl; [congruence |].
  destruct (String.eqb k k'); simpl; [reflexivity |].
  intros H. rewrite IH; auto.
Qed.

Lemma mapSet_mapSet (m : Map V) k v v' :
  mapSet (mapSet m k v) k v' = mapSet m k v'.
Proof.
  induction m as [| [k' v0] m IH]; simpl.
  - rewrite String.eqb_refl. reflexivity.
  - destruct (String.eqb k k') eqn:E; simpl; rewrite E; [reflexivity |].
    rewrite IH. reflexivity.
Qed.

Lemma mapGet_In (m : Map V) k v : mapGet m k = Some v -> In (k, v) m.
Proof.
  induction m as [| [k' v'] m IH]; simpl; [discriminate |].
  destruct (String.eqb_spec k k'); intros H.
  - inversion H; subst. auto.
  - auto.
Qed.

Lemma Forall_mapSet (P : string * V -> Prop) (m : Map V) k v :
  Forall P m -> P (k, v) -> Forall P (mapSet m k v).
Proof.
  intros H Hk. induction H as [| [k' v'] m Hx H IH]; simpl.
  - constructor; auto.
  - destruct (String.eqb_spec k k'); constructor; auto.
    subst k'. assumption.
Qed.

End MapFacts.

(** ** The loop over the events *)

Section ImportFacts.

Context {num : JSNumber}.

Lemma importEvent_null st : importEvent st None = Return st.
Proof. reflexivity. Qed.

Lemma importEvent_rejected st ev :
  accepts st ev = false -> importEvent st (Some ev) = Return st.
Proof.
  unfold accepts, importEvent. cbn [notNull negb deref bind].
  destruct (currentEventType st) as [t |].
  - destruct (String.eqb t (eventType ev)); cbn [negb andb]; [| reflexivity].
    destruct (time ev); cbn [notNull negb]; [discriminate | reflexivity].
  - destruct (time ev); cbn [notNull negb andb]; [discriminate | reflexivity].
Qed.

Lemma importEvent_accepted st ev :
  accepts st ev = true ->
  exists t, time ev = Some t /\
    importEvent st (Some ev) =
      Return {| profilesMap := feed (profilesMap st) ev t;
                currentEventType := Some (eventType ev) |}.
Proof.
  unfold accepts, importEvent, feed, getOrInsert. cbn [notNull negb deref bind].
  intros H. apply andb_prop in H. destruct H as [Ht Hn].
  destruct (time ev) as [t |]; [| discriminate].
  exists t. split; [reflexivity |].
  assert (G : match currentEventType st with
              | Some t0 => negb (String.eqb t0 (eventType ev))
              | None => false
              end = false).
  { destruct (currentEventType st); [rewrite Ht |]; reflexivity. }
  rewrite G. cbn [notNull negb].
  destruct (mapGet (profilesMap st) (profileNameOf ev)); cbn [bind deref].
  - reflexivity.
  - rewrite mapSet_mapSet. reflexivity.
Qed.

Lemma importLoop_app es1 : forall es2 st,
  importLoop st (es1 ++ es2) = (st' <- importLoop st es1 ;; importLoop st' es2).
Proof.
  induction es1 as [| e es1 IH]; simpl; intros es2 st; [reflexivity |].
  destruct (importEvent st e); simpl; auto.
Qed.

End ImportFacts.

Section GroupFacts.

Context {num : JSNumber} {src : LineSource}.

Lemma feed_configured m ev t :
  Forall configured m -> Forall configured (feed m ev t).
Proof.
  intros H. unfold feed. apply Forall_mapSet; [assumption |].
  destruct (mapGet m (profileNameOf ev)) as [b |] eqn:G.
  - apply mapGet_In in G. rewrite Forall_forall in H. apply H in G.
    destruct G as (Hn & Hf & _). unfold configured; simpl in *.
    repeat split; auto. destruct (builderSamples b); discriminate.
  - unfold configured; simpl. repeat split; auto. discriminate.
Qed.

Lemma importEvent_configured st e st' :
  Forall configured (profilesMap st) -> importEvent st e = Return st' ->
  Forall configured (profilesMap st').
Proof.
  intros H S. destruct e as [ev |].
  - destruct (accepts st ev) eqn:A.
    + destruct (importEvent_accepted _ _ A) as (t & _ & S').
      rewrite S' in S. inversion S; subst; simpl. apply feed_configured; assumption.
    + rewrite (importEvent_rejected _ _ A) in S. inversion S; subst; assumption.
  - rewrite importEvent_null in S. inversion S; subst; assumption.
Qed.

Lemma importLoop_configured es : forall st st',
  Forall configured (profilesMap st) -> importLoop st es = Return st' ->
  Forall configured (profilesMap st').
Proof.
  induction es as [| e es IH]; simpl; intros st st' H S.
  - inversion S; subst; assumption.
  - destruct (importEvent st e) as [st1 |] eqn:E; simpl in S; [| discriminate].
    eapply IH; [| exact S]. eapply importEvent_configured; eauto.
Qed.

(** C2: the adapter returns [null] exactly when no Profile results; one
    Profile gives a group named after it, several give a group with the empty
    name; the index to view is 0 in both cases. *)
Theorem group_of_resulting_profiles (contents : TextFileContent) :
  exists ps,
    resultingProfiles contents = Return ps /\
    importFromLinuxPerf contents =
      Return match ps with
             | [] => None
             | [p] => Some {| groupName := profileName p;
                              indexToView := 0;
                              profiles := [p] |}
             | _ => Some {| groupName := ""; indexToView := 0; profiles := ps |}
             end.
Proof.
  unfold resultingProfiles, importFromLinuxPerf, parseEvents.
  destruct (parseEventsLoop_total (splitLines contents) []) as (es & ->).
  cbn [bind].
  destruct (importLoop_total es importStart) as (st & L). rewrite L. cbn [bind].
  eexists. split; [reflexivity |].
  assert (C : Forall configured (profilesMap st)).
  { eapply importLoop_configured; [| exact L]. constructor. }
  unfold groupOf, mapSize, mapKeys, mapValues.
  destruct (profilesMap st) as [| [k b] [| kb2 m]]; simpl; try reflexivity.
  inversion C as [| ? ? (Hn & _) _]; subst. simpl in Hn. rewrite Hn. reflexivity.
Qed.

End GroupFacts.

(** ** The records of an input *)

Section RecordFacts.

Context {num : JSNumber} {src : LineSource}.

Lemma parseEventsLoop_Forall2 lines : forall buffer es,
  parseEventsLoop lines buffer = Return es ->
  Forall2 (fun r e => parseEvent r = Return e) (rawEventsLoop lines buffer) es.
Proof.
  induction lines as [| l lines IH]; simpl; intros buffer es H.
  - destruct (Nat.ltb 0 (List.length buffer)).
    + destruct (parseEvent buffer) as [e |] eqn:E; simpl in H; [| discriminate].
      inversion H; subst. repeat constructor. assumption.
    + inversion H; subst. constructor.
  - destruct (String.eqb l ""); [| auto].
    destruct (parseEvent buffer) as [e |] eqn:E; simpl in H; [| discriminate].
    destruct (parseEventsLoop lines []) as [es' |] eqn:E'; simpl in H; [| discriminate].
    inversion H; subst. constructor; auto.
Qed.

(** The state is left as it was by a list of events that are [null] or
    without a timestamp. *)
Lemma importLoop_no_time es : forall st,
  Forall (fun e => forall ev, e = Some ev -> time ev = None) es ->
  importLoop st es = Return st.
Proof.
  induction es as [| e es IH]; simpl; intros st H; [reflexivity |].
  inversion H as [| ? ? He Hes]; subst.
  assert (S : importEvent st e = Return st).
  { destruct e as [ev |]; [| reflexivity].
    apply importEvent_rejected. unfold accepts.
    rewrite (He ev eq_refl). apply andb_false_r. }
  rewrite S. simpl. apply IH. assumption.
Qed.

Lemma parseEvent_no_time rawEvent :
  exec reTime (toStr (headerOf rawEvent)) = None ->
  exists e, parseEvent rawEvent = Return e /\
            forall ev, e = Some ev -> time ev = None.
Proof.
  intros T.
  destruct (parseEvent_cases rawEvent)
    as [[_ H] | [(_ & _ & H) | (m & cmd & st & _ & _ & _ & _ & H)]];
    rewrite H; eexists; (split; [reflexivity |]); intros ev Hev; inversion Hev.
  simpl. rewrite T. reflexivity.
Qed.

End RecordFacts.

Section Claims.

Context {num : JSNumber} {src : LineSource}.

(** The adapter returns: no step of it throws. *)
Lemma importFromLinuxPerf_total (contents : TextFileContent) :
  exists r, importFromLinuxPerf contents = Return r.
Proof.
  unfold importFromLinuxPerf, parseEvents.
  destruct (parseEventsLoop_total (splitLines contents) []) as (es & ->).
  cbn [bind].
  destruct (importLoop_total es importStart) as (st & ->). cbn [bind]. eauto.
Qed.

(** C4: the adapter never throws, whatever the text: it returns [null] or
    a group; [parseEvent] returns [null] or an event for every record; a
    record that is not parsed leaves the loop over the events as it was;
    and a line of a record is a stack line, or refines the frame before it,
    or is passed over with the frames as they were. *)
Theorem importFromLinuxPerf_never_throws
    (contents : TextFileContent) (rawEvent : list string)
    (st : ImportLoop) (ls : LineLoop) (line : string) :
  (importFromLinuxPerf contents = Return None \/
   exists g, importFromLinuxPerf contents = Return (Some g)) /\
  (parseEvent rawEvent = Return None \/
   exists e, parseEvent rawEvent = Return (Some e)) /\
  importEvent st None = Return st /\
  ((exists m, exec reStackLine line = Some m) \/
   (exists m, lastWasSymbol ls <> None /\ exec reSourceLine line = Some m) \/
   (exists ls', lineStep ls line = Return ls' /\ frames ls' = frames ls)).
Proof.
  split; [| split; [| split]].
  - destruct (importFromLinuxPerf_total contents) as ([g |] & ->); eauto.
  - destruct (parseEvent_total rawEvent) as ([e |] & ->); eauto.
  - reflexivity.
  - destruct (exec reStackLine line) as [m |] eqn:S; [eauto | right].
    unfold lineStep, sourceLineStep, stackLineStep. rewrite S.
    destruct (lastWasSymbol ls) as [ref |] eqn:L; cbn [notNull negb bind].
    + destruct (exec reSourceLine line) as [m |] eqn:C.
      * left. exists m. split; [discriminate | reflexivity].
      * right. cbn [notNull negb bind]. eexists. split; reflexivity.
    + right. eexists. split; reflexivity.
Qed.

(** C3: a record whose header has no timestamp is parsed to [null] or to
    an event without time, and the loop over the events is left as it was
    by it: no Builder is created or fed and the event type of the import is
    not set.  An input of such records only is not recognized. *)
Theorem records_without_timestamp_are_discarded
    (contents : TextFileContent) (rawEvent : list string) (st : ImportLoop) :
  (exec reTime (toStr (headerOf rawEvent)) = None ->
   exists e, parseEvent rawEvent = Return e /\
             (forall ev, e = Some ev -> time ev = None) /\
             importEvent st e = Return st) /\
  ((forall r, In r (rawEvents contents) ->
              exec reTime (toStr (headerOf r)) = None) ->
   importFromLinuxPerf contents = Return None).
Proof.
  split.
  - intros T. destruct (parseEvent_no_time _ T) as (e & P & N).
    exists e. repeat split; auto.
    destruct e as [ev |]; [| reflexivity].
    apply importEvent_rejected. unfold accepts.
    rewrite (N ev eq_refl). apply andb_false_r.
  - intros H. unfold importFromLinuxPerf, parseEvents.
    destruct (parseEventsLoop_total (splitLines contents) []) as (es & E).
    rewrite E. cbn [bind].
    rewrite importLoop_no_time; [reflexivity |].
    apply parseEventsLoop_Forall2 in E. fold (rawEvents contents) in E.
    revert H. generalize dependent (rawEvents contents). intros rs E.
    induction E as [| r e rs' es' P _ IH]; intros H; constructor.
    + destruct (parseEvent_no_time r (H r (or_introl eq_refl))) as (e' & P' & N).
      rewrite P in P'. inversion P'; subst. assumption.
    + apply IH. intros r' Hr'. apply H. right. assumption.
Qed.

Lemma importEvent_keeps_type st e st' t :
  currentEventType st = Some t -> importEvent st e = Return st' ->
  currentEventType st' = Some t.
Proof.
  intros T S. destruct e as [ev |].
  - destruct (accepts st ev) eqn:A.
    + destruct (importEvent_accepted _ _ A) as (tm & _ & S').
      rewrite S' in S. inversion S; subst; simpl.
      unfold accepts in A. rewrite T in A.
      apply andb_prop in A. destruct A as [A _].
      apply String.eqb_eq in A. congruence.
    + rewrite (importEvent_rejected _ _ A) in S. inversion S; subst; assumption.
  - inversion S; subst; assumption.
Qed.

Lemma importLoop_keeps_type es : forall st st' t,
  currentEventType st = Some t -> importLoop st es = Return st' ->
  currentEventType st' = Some t.
Proof.
  induction es as [| e es IH]; simpl; intros st st' t T S.
  - inversion S; subst; assumption.
  - destruct (importEvent st e) as [st1 |] eqn:E; simpl in S; [| discriminate].
    eapply IH; [| exact S]. eapply importEvent_keeps_type; eauto.
Qed.

Lemma importLoop_first_type es : forall st st',
  currentEventType st = None -> importLoop st es = Return st' ->
  currentEventType st' = option_map eventType (firstTimed es).
Proof.
  induction es as [| e es IH]; simpl; intros st st' T S.
  - inversion S; subst; assumption.
  - destruct e as [ev |].
    + destruct (time ev) as [tm |] eqn:Tm; cbn [notNull].
      * assert (A : accepts st ev = true)
          by (unfold accepts; rewrite T, Tm; reflexivity).
        destruct (importEvent_accepted _ _ A) as (tm' & _ & S').
        rewrite S' in S. simpl in S.
        eapply importLoop_keeps_type; [| exact S]. reflexivity.
      * rewrite importEvent_rejected in S
          by (unfold accepts; rewrite Tm; apply andb_false_r).
        simpl in S. eauto.
    + simpl in S. eauto.
Qed.

Lemma importEvent_other_type st ev t :
  currentEventType st = Some t -> eventType ev <> t ->
  importEvent st (Some ev) = Return st.
Proof.
  intros T N. apply importEvent_rejected. unfold accepts. rewrite T.
  apply not_eq_sym in N. apply String.eqb_neq in N. rewrite N. reflexivity.
Qed.

(** C1, amended: the event type of the first record that is parsed and has
    a timestamp is the event type of the whole import, and every later parsed
    record of another event type is discarded in full: the loop is left as it
    was by it, and the import is what it is without that record. *)
Theorem first_timed_record_sets_the_event_type
    (contents : TextFileContent) (es : list (option PerfEvent)) :
  parseEvents contents = Return es ->
  exists st,
    importLoop importStart es = Return st /\
    importFromLinuxPerf contents = Return (groupOf (profilesMap st)) /\
    currentEventType st = option_map eventType (firstTimed es) /\
    forall pre ev post first,
      es = pre ++ Some ev :: post ->
      firstTimed pre = Some first ->
      eventType ev <> eventType first ->
      exists st1,
        importLoop importStart pre = Return st1 /\
        importEvent st1 (Some ev) = Return st1 /\
        importLoop importStart (pre ++ post) = Return st.
Proof.
  intros P. destruct (importLoop_total es importStart) as (st & L).
  exists st. split; [assumption |]. split.
  { unfold importFromLinuxPerf. rewrite P. cbn [bind]. rewrite L. reflexivity. }
  split.
  { eapply importLoop_first_type; [| exact L]. reflexivity. }
  intros pre ev post first Hes Hf Hne.
  destruct (importLoop_total pre importStart) as (st1 & L1).
  assert (T1 : currentEventType st1 = Some (eventType first)).
  { erewrite importLoop_first_type; [| | exact L1]; [| reflexivity].
    rewrite Hf. reflexivity. }
  pose proof (importEvent_other_type st1 ev T1 Hne) as D.
  exists st1. repeat split; auto.
  rewrite Hes in L. rewrite importLoop_app in L. rewrite L1 in L.
  cbn [bind importLoop] in L. rewrite D in L. cbn [bind] in L.
  rewrite importLoop_app, L1. exact L.
Qed.

(** C7, amended: a record is discarded in full when its first line that is
    not a comment is missing or empty, does not start with command and
    thread, or has no timestamp.  The event type is not required: without a
    token before a final colon the record is parsed with the empty event
    type, and a loop that has no event type yet, or the empty one, routes it
    to a Builder. *)
Theorem record_with_malformed_header_is_discarded
    (rawEvent : list string) (st : ImportLoop) :
  (headerAccepted rawEvent = false ->
   exists e, parseEvent rawEvent = Return e /\ importEvent st e = Return st) /\
  (headerAccepted rawEvent = true ->
   exec reEvName (toStr (headerOf rawEvent)) = None ->
   exists ev, parseEvent rawEvent = Return (Some ev) /\
     eventType ev = "" /\
     ((currentEventType st = None \/ currentEventType st = Some "") ->
      exists st', importEvent st (Some ev) = Return st' /\
                  mapGet (profilesMap st') (profileNameOf ev) <> None /\
                  currentEventType st' = Some "")).
Proof.
  unfold headerAccepted.
  destruct (parseEvent_cases rawEvent)
    as [[T H] | [(T & E & H) | (m & cmd & ls & T & E & _ & _ & H)]];
    cbv zeta in *; rewrite T; try rewrite E; cbn [andb notNull].
  - split; [| discriminate]. intros _. exists None. split; auto.
  - split; [| discriminate]. intros _. exists None. split; auto.
  - split.
    + intros Tm. eexists. split; [exact H |].
      apply importEvent_rejected. unfold accepts. cbn [time].
      destruct (exec reTime (toStr (headerOf rawEvent))); [discriminate |].
      apply andb_false_r.
    + intros Tm N. eexists. split; [exact H |]. rewrite N. split; [reflexivity |].
      intros C.
      match goal with
      | |- context [importEvent st (Some ?e)] => set (ev := e)
      end.
      assert (A : accepts st ev = true).
      { unfold accepts. subst ev. cbn [time eventType].
        destruct (exec reTime (toStr (headerOf rawEvent))); [| discriminate].
        destruct C as [-> | ->]; reflexivity. }
      destruct (importEvent_accepted _ _ A) as (t & _ & S).
      eexists. split; [exact S |]. split; [| reflexivity].
      cbn [profilesMap]. unfold feed. rewrite mapGet_mapSet_same. discriminate.
Qed.

(** An accepted record is routed to the Builder filed under its profile
    name.  Records that agree on command, process ID and thread ID have the
    same name; the Builders under other names are left as they were; the
    Builder is created on the first encounter of its name, at the end of the
    map, with that name and the seconds formatter. *)
Lemma importEvent_routed
    (st : ImportLoop) (ev : PerfEvent) (t : number) :
  accepts st ev = true ->
  time ev = Some t ->
  exists st',
    importEvent st (Some ev) = Return st' /\
    (forall ev', command ev' = command ev -> processID ev' = processID ev ->
                 threadID ev' = threadID ev ->
                 profileNameOf ev' = profileNameOf ev) /\
    (mapGet (profilesMap st) (profileNameOf ev) = None ->
     profilesMap st' =
       profilesMap st ++
       [(profileNameOf ev,
         {| builderName := profileNameOf ev;
            builderFormatter := TimeFormatter "seconds";
            builderSamples := [(map frameInfoOf (stack ev), t)] |})]) /\
    (forall b, mapGet (profilesMap st) (profileNameOf ev) = Some b ->
       mapKeys (profilesMap st') = mapKeys (profilesMap st) /\
       mapGet (profilesMap st') (profileNameOf ev) =
         Some (appendSampleWithTimestamp (map frameInfoOf (stack ev)) t b)) /\
    (forall k, k <> profileNameOf ev ->
       mapGet (profilesMap st') k = mapGet (profilesMap st) k).
Proof.
  intros A T.
  destruct (importEvent_accepted _ _ A) as (t' & T' & S).
  rewrite T in T'. inversion T'; subst t'.
  eexists. split; [exact S |]. cbn [profilesMap]. unfold feed.
  split; [| split; [| split]].
  - intros ev' Hc Hp Ht. unfold profileNameOf. rewrite Hc, Hp, Ht. reflexivity.
  - intros G. rewrite G. apply mapSet_absent. assumption.
  - intros b G. rewrite G. split.
    + apply mapKeys_mapSet_present. congruence.
    + apply mapGet_mapSet_same.
  - intros k N. apply mapGet_mapSet_other. assumption.
Qed.

Lemma Forall_modify {A : Type} (P : A -> Prop) (f : A -> A) (a : list A) :
  (forall x, P x -> P (f x)) -> forall i, Forall P a -> Forall P (modify i f a).
Proof.
  intros Hf i H. revert i.
  induction H as [| x a Hx H IH]; intros i; simpl; [constructor |].
  destruct i; constructor; auto.
Qed.

Lemma lineStep_stripped rawEvent st line st' :
  In line rawEvent ->
  Forall (stripped rawEvent) (frames st) -> lineStep st line = Return st' ->
  Forall (stripped rawEvent) (frames st').
Proof.
  intros Hl H. unfold lineStep, sourceLineStep.
  assert (K : forall st0 st1, Forall (stripped rawEvent) (frames st0) ->
                stackLineStep st0 line = Return st1 ->
                Forall (stripped rawEvent) (frames st1)).
  { intros st0 st1 H0. unfold stackLineStep.
    destruct (exec reStackLine line) as [m |] eqn:E; cbn [notNull negb bind deref].
    - destruct (@getString_mandatory _ _ _ 1 E) as (g1 & _ & ->);
        [vm_compute; auto | discriminate |].
      destruct (@getString_mandatory _ _ _ 2 E) as (g2 & G2 & ->);
        [vm_compute; auto | discriminate |].
      cbn [bind deref]. intros S. inversion S; subst; cbn [frames].
      apply Forall_app. split; [assumption |]. repeat constructor.
      exists line, m, g2. repeat split; auto.
    - intros S. inversion S; subst. assumption. }
  destruct (lastWasSymbol st) as [ref |]; cbn [notNull bind].
  - destruct (exec reSourceLine line) as [m |] eqn:E; cbn [notNull bind deref].
    + destruct (@getString_mandatory _ _ _ 1 E) as (g1 & _ & ->);
        [vm_compute; auto | discriminate |].
      cbn [bind]. intros S. inversion S; subst; cbn [frames].
      apply Forall_modify; [| assumption].
      intros f (l & m' & raw & Hraw). exists l, m', raw. exact Hraw.
    + apply K. assumption.
  - apply K. assumption.
Qed.

Lemma lineLoop_stripped rawEvent lines : forall st st',
  incl lines rawEvent ->
  Forall (stripped rawEvent) (frames st) -> lineLoop st lines = Return st' ->
  Forall (stripped rawEvent) (frames st').
Proof.
  induction lines as [| l lines IH]; simpl; intros st st' Hi H S.
  - inversion S; subst; assumption.
  - destruct (lineStep st l) as [st1 |] eqn:E; simpl in S; [| discriminate].
    eapply IH; [| | exact S].
    + intros x Hx. apply Hi. right. assumption.
    + eapply lineStep_stripped; [| | exact E]; auto. apply Hi. left. reflexivity.
Qed.

Lemma bodyOf_incl rawEvent : incl (bodyOf rawEvent) rawEvent.
Proof.
  unfold bodyOf. intros x Hx.
  assert (F : In x (filter (fun l => negb (notNull (exec reComment l))) rawEvent)).
  { destruct (filter _ rawEvent); [destruct Hx | right; exact Hx]. }
  apply filter_In in F. apply F.
Qed.

Lemma parseEvent_stripped rawEvent ev :
  parseEvent rawEvent = Return (Some ev) -> Forall (stripped rawEvent) (stack ev).
Proof.
  destruct (parseEvent_cases rawEvent)
    as [[_ H] | [(_ & _ & H) | (m & cmd & st & _ & _ & _ & L & H)]];
    rewrite H; intros E; inversion E; subst; cbn [stack].
  apply Forall_rev. eapply lineLoop_stripped; [| | exact L].
  - apply bodyOf_incl.
  - constructor.
Qed.

Lemma importEvent_framed records st e st' :
  parsedFrom records e ->
  Forall (framed records) (profilesMap st) -> importEvent st e = Return st' ->
  Forall (framed records) (profilesMap st').
Proof.
  intros He H S. destruct e as [ev |]; [| inversion S; subst; assumption].
  destruct (accepts st ev) eqn:A.
  - destruct (importEvent_accepted _ _ A) as (t & _ & S').
    rewrite S' in S. inversion S; subst; cbn [profilesMap]. unfold feed.
    apply Forall_mapSet; [assumption |].
    unfold framed; cbn [snd builderSamples appendSampleWithTimestamp].
    apply Forall_app. split.
    + destruct (mapGet (profilesMap st) (profileNameOf ev)) as [b |] eqn:G.
      * apply mapGet_In in G. rewrite Forall_forall in H. exact (H _ G).
      * constructor.
    + repeat constructor. cbn [fst].
      destruct (He ev eq_refl) as (r & Hr & Hs).
      induction Hs as [| f fs Hf _ IH]; simpl; constructor; auto.
      exists r, f. repeat split; auto.
  - rewrite (importEvent_rejected _ _ A) in S. inversion S; subst; assumption.
Qed.

Lemma importLoop_framed records es : forall st st',
  Forall (parsedFrom records) es ->
  Forall (framed records) (profilesMap st) -> importLoop st es = Return st' ->
  Forall (framed records) (profilesMap st').
Proof.
  induction es as [| e es IH]; simpl; intros st st' He H S.
  - inversion S; subst; assumption.
  - inversion He; subst.
    destruct (importEvent st e) as [st1 |] eqn:E; simpl in S; [| discriminate].
    eapply IH; [assumption | | exact S]. eapply importEvent_framed; eauto.
Qed.

Lemma parseEventsLoop_parsedFrom lines buffer es :
  parseEventsLoop lines buffer = Return es ->
  Forall (parsedFrom (rawEventsLoop lines buffer)) es.
Proof.
  intros H. apply parseEventsLoop_Forall2 in H.
  assert (G : forall records,
             incl (rawEventsLoop lines buffer) records ->
             Forall (parsedFrom records) es).
  { induction H as [| r e rs es' P _ IH]; intros records Hi; constructor.
    - intros ev ->. exists r. split.
      + apply Hi. left. reflexivity.
      + eapply parseEvent_stripped; eauto.
    - apply IH. intros x Hx. apply Hi. right. assumption. }
  apply G. intros x Hx. exact Hx.
Qed.

(** C10: every stack entry of every sample of every Profile of the import
    was made from a frame of a stack line of a record, with the symbol of
    that line after [replace], and its key is [symbolName (file)]; address
    and line are not part of the key: two frames with the same symbol and
    file get the same key, whatever their addresses and lines, and the Frame
    Registry gives the second the Frame of the first. *)
Theorem frame_key_is_symbol_and_file
    (contents : TextFileContent) (g : ProfileGroup) (p : Profile)
    (sample : list FrameInfo * number) (fi : FrameInfo)
    (f1 f2 : PerfStackFrame) (registry : Map FrameInfo) :
  (importFromLinuxPerf contents = Return (Some g) ->
   In p (profiles g) -> In sample (profileSamples p) -> In fi (fst sample) ->
   exists rawEvent line m raw f,
     In rawEvent (rawEvents contents) /\
     In line rawEvent /\
     exec reStackLine line = Some m /\
     get m 2 = Some raw /\
     symbolName f = replaceEmpty reOffset raw /\
     fi = frameInfoOf f /\
     key fi = (symbolName f ++ " (" ++ toStr (file f) ++ ")")%string) /\
  (symbolName f1 = symbolName f2 -> file f1 = file f2 ->
   key (frameInfoOf f1) = key (frameInfoOf f2) /\
   snd (internFrame (fst (internFrame registry (frameInfoOf f1))) (frameInfoOf f2))
   = snd (internFrame registry (frameInfoOf f1))).
Proof.
  split.
  - unfold importFromLinuxPerf, parseEvents, rawEvents. intros I Hp Hs Hf.
    destruct (parseEventsLoop (splitLines contents) []) as [es |] eqn:P;
      cbn [bind] in I; [| discriminate].
    destruct (importLoop importStart es) as [st |] eqn:L;
      cbn [bind] in I; [| discriminate].
    assert (F : Forall (framed (rawEventsLoop (splitLines contents) []))
                       (profilesMap st)).
    { eapply importLoop_framed; [| | exact L].
      - apply parseEventsLoop_parsedFrom. assumption.
      - constructor. }
    unfold groupOf in I.
    destruct (Nat.eqb (mapSize (profilesMap st)) 0); [discriminate |].
    inversion I; subst g; cbn [profiles] in Hp.
    unfold mapValues in Hp. rewrite map_map in Hp.
    apply in_map_iff in Hp. destruct Hp as ([k b] & <- & Hb).
    rewrite Forall_forall in F. apply F in Hb. unfold framed in Hb.
    cbn [snd build profileSamples] in *.
    rewrite Forall_forall in Hb. apply Hb in Hs.
    rewrite Forall_forall in Hs. apply Hs in Hf.
    destruct Hf as (r & f & Hr & (l & m & raw & Hl & E & G & Hraw) & ->).
    exists r, l, m, raw, f. repeat split; auto.
  - intros Hs Hf.
    assert (K : key (frameInfoOf f1) = key (frameInfoOf f2)).
    { unfold frameInfoOf; cbn [key]. rewrite Hs, Hf. reflexivity. }
    split; [exact K |].
    unfold internFrame, getOrInsert. rewrite <- K.
    destruct (mapGet registry (key (frameInfoOf f1))) as [fr |] eqn:G;
      cbn [fst snd].
    + rewrite G. reflexivity.
    + rewrite mapGet_mapSet_same. reflexivity.
Qed.

(** C6, amended: a stack line stores its symbol after [replace]; a symbol
    that ends with [+0x] and one or more digits or lowercase letters [a] to
    [f] is stored without that suffix; any other symbol is stored as it
    is. *)
Theorem lowercase_offset_suffix_is_stripped
    (st : LineLoop) (line p h s : string) :
  (forall m raw,
     exec reStackLine line = Some m -> get m 2 = Some raw ->
     exists st' f,
       stackLineStep st line = Return st' /\
       frames st' = frames st ++ [f] /\
       symbolName f = replaceEmpty reOffset raw) /\
  (h <> "" -> allIn lowerHex h = true ->
   replaceEmpty reOffset (p ++ "+0x" ++ h) = p) /\
  ((forall p' h', h' <> "" -> allIn lowerHex h' = true ->
                  s <> (p' ++ "+0x" ++ h')%string) ->
   replaceEmpty reOffset s = s).
Proof.
  split; [| split].
  - intros m raw E G. unfold stackLineStep. rewrite E.
    cbn [notNull negb bind deref].
    destruct (@getString_mandatory _ _ _ 1 E) as (g1 & _ & ->);
      [vm_compute; auto | discriminate |].
    unfold getString. rewrite G. cbn [bind deref].
    eexists. eexists. split; [reflexivity |]. split; reflexivity.
  - apply replaceEmpty_offset.
  - apply replaceEmpty_no_offset.
Qed.

End Claims.

(** * The statements at concrete inputs *)

(** Scenario 1 of the spec: two samples of thread 1234 of [foo] with the
    stack [bar], [baz] make one Profile named [foo tid: 1234]. *)
Example one_thread_one_profile :
  let contents :=
    text ["foo 1234 1000.000000: cycles:"; "	7fff02 baz (/usr/bin/foo)";
          "	7fff01 bar (/usr/bin/foo)"; "";
          "foo 1234 1000.002000: cycles:"; "	7fff02 baz (/usr/bin/foo)";
          "	7fff01 bar (/usr/bin/foo)"] in
  let entry n := {| key := (n ++ " (/usr/bin/foo)")%string; name := n;
                    frameFile := Some "/usr/bin/foo"; frameLine := None |} in
  @importFromLinuxPerf decimalNumber textLines contents =
    Return (Some {| groupName := "foo tid: 1234";
                    indexToView := 0;
                    profiles :=
                      [{| profileName := "foo tid: 1234";
                          profileFormatter := TimeFormatter "seconds";
                          profileSamples :=
                            [([entry "bar"; entry "baz"], Decimal.Fin 1000 0);
                             ([entry "bar"; entry "baz"],
                              Decimal.Fin 1000002 3)] |}] |}).
Proof. reflexivity. Qed.

(** Scenario 5 of the spec: two threads of one command make two Profiles, in
    a group without name. *)
Example two_threads_two_profiles :
  let contents :=
    text ["foo 1 1000.000000: cycles:"; ""; "foo 2 1000.000000: cycles:"] in
  let profile n := {| profileName := n;
                      profileFormatter := TimeFormatter "seconds";
                      profileSamples := [([], Decimal.Fin 1000 0)] |} in
  @importFromLinuxPerf decimalNumber textLines contents =
    Return (Some {| groupName := "";
                    indexToView := 0;
                    profiles := [profile "foo tid: 1"; profile "foo tid: 2"] |}).
Proof. reflexivity. Qed.

(** A record with thread and event type but no decimal time, and the input
    made of two such records. *)
Lemma records_without_timestamp_are_discarded_witness :
  let contents :=
    text ["foo 1234 cycles:"; " 7fff bar (baz)"; ""; "# note";
          "qux 12/34 1000: cycles:"] in
  let rawEvent := ["foo 1234 cycles:"; " 7fff bar (baz)"] in
  exec reTime (toStr (headerOf rawEvent)) = None /\
  (forall r, In r (rawEvents contents) -> exec reTime (toStr (headerOf r)) = None) /\
  (exists e, parseEvent rawEvent = Return e /\
             (forall ev, e = Some ev -> time ev = None) /\
             importEvent importStart e = Return importStart) /\
  importFromLinuxPerf contents = Return None.
Proof.
  intros contents rawEvent.
  assert (H1 : exec reTime (toStr (headerOf rawEvent)) = None)
    by (vm_compute; reflexivity).
  assert (H2 : forall r, In r (rawEvents contents) ->
                         exec reTime (toStr (headerOf r)) = None).
  { intros r [<- | [<- | []]]; vm_compute; reflexivity. }
  destruct (@records_without_timestamp_are_discarded decimalNumber textLines
              contents rawEvent importStart) as [T1 T2].
  split; [exact H1 | split; [exact H2 | split; [exact (T1 H1) | exact (T2 H2)]]].
Defined.

(** C1 fails as stated: the first record is parsed with the event type
    [cycles] but has no timestamp; the second has the event type
    [cache-misses] and is not discarded: the only Profile holds its sample. *)
Lemma first_record_type_counterexample :
  let contents :=
    text ["foo 1234 cycles:"; ""; "foo 1234 1000.000000: cache-misses:";
          " 7ffe qux (baz)"] in
  let qux := {| address := "0x7ffe"; symbolName := "qux";
                file := Some "baz"; line := None |} in
  @parseEvents decimalNumber textLines contents =
    Return [Some {| command := Some "foo";
                    processID := None;
                    threadID := Some (Decimal.Fin 1234 0);
                    time := None;
                    eventType := "cycles";
                    stack := [] |};
            Some {| command := Some "foo";
                    processID := None;
                    threadID := Some (Decimal.Fin 1234 0);
                    time := Some (Decimal.Fin 1000 0);
                    eventType := "cache-misses";
                    stack := [qux] |}] /\
  importFromLinuxPerf contents =
    Return (Some {| groupName := "foo tid: 1234";
                    indexToView := 0;
                    profiles :=
                      [{| profileName := "foo tid: 1234";
                          profileFormatter := TimeFormatter "seconds";
                          profileSamples :=
                            [([frameInfoOf qux], Decimal.Fin 1000 0)] |}] |}).
Proof.
  split; reflexivity.
Qed.

(** Two records with timestamps: the first sets the event type [cycles], the
    second, of type [cache-misses], is discarded. *)
Lemma first_timed_record_sets_the_event_type_witness :
  let contents :=
    text ["foo 1 1000.000000: cycles:"; "";
          "foo 1 1000.002000: cache-misses:"] in
  let first := {| command := Some "foo";
                  processID := None;
                  threadID := Some (Decimal.Fin 1 0);
                  time := Some (Decimal.Fin 1000 0);
                  eventType := "cycles";
                  stack := [] |} in
  let ev := {| command := Some "foo";
               processID := None;
               threadID := Some (Decimal.Fin 1 0);
               time := Some (Decimal.Fin 1000002 3);
               eventType := "cache-misses";
               stack := [] |} in
  let es := [Some first; Some ev] in
  @parseEvents decimalNumber textLines contents = Return es /\
  es = [Some first] ++ Some ev :: [] /\
  firstTimed [Some first] = Some first /\
  eventType ev <> eventType first /\
  exists st st1,
    importLoop importStart es = Return st /\
    importFromLinuxPerf contents = Return (groupOf (profilesMap st)) /\
    currentEventType st = option_map eventType (firstTimed es) /\
    importLoop importStart [Some first] = Return st1 /\
    importEvent st1 (Some ev) = Return st1 /\
    importLoop importStart ([Some first] ++ []) = Return st.
Proof.
  intros contents first ev es.
  assert (P : @parseEvents decimalNumber textLines contents = Return es)
    by reflexivity.
  assert (D : es = [Some first] ++ Some ev :: []) by reflexivity.
  assert (F : firstTimed [Some first] = Some first) by reflexivity.
  assert (N : eventType ev <> eventType first) by discriminate.
  destruct (@first_timed_record_sets_the_event_type decimalNumber textLines
              contents es P) as (st & L & I & M & K).
  destruct (K [Some first] ev [] first D F N) as (st1 & L1 & S1 & L2).
  repeat (split; [assumption |]).
  exists st, st1. repeat (split; [assumption |]). assumption.
Defined.

(** C7 fails as stated: the header has no colon after the event type, so it
    fails the grammar, and the adapter finds no event type in it; the record
    is parsed all the same and makes the Profile of the import. *)
Lemma header_without_event_type_counterexample :
  let header := "foo 1234 1000.000000: cycles" in
  let contents :=
    text [header; " 7fff bar (baz)"] in
  let bar := {| address := "0x7fff"; symbolName := "bar";
                file := Some "baz"; line := None |} in
  exec specHeaderGrammar header = None /\
  exec reEvName header = None /\
  @importFromLinuxPerf decimalNumber textLines contents =
    Return (Some {| groupName := "foo tid: 1234";
                    indexToView := 0;
                    profiles :=
                      [{| profileName := "foo tid: 1234";
                          profileFormatter := TimeFormatter "seconds";
                          profileSamples :=
                            [([frameInfoOf bar], Decimal.Fin 1000 0)] |}] |}).
Proof.
  repeat split; reflexivity.
Qed.

(** A header without command is discarded; a header without event type is
    parsed with the empty one and fed to a Builder. *)
Lemma record_with_malformed_header_is_discarded_witness :
  let bad := ["1234 1000.000000: cycles:"; " 7fff bar (baz)"] in
  let untyped := ["foo 1234 1000.000000: cycles"; " 7fff bar (baz)"] in
  (headerAccepted bad = false /\
   exists e, @parseEvent decimalNumber bad = Return e /\
             importEvent importStart e = Return importStart) /\
  (headerAccepted untyped = true /\
   exec reEvName (toStr (headerOf untyped)) = None /\
   (currentEventType importStart = None \/
    currentEventType importStart = Some "") /\
   exists ev st',
     @parseEvent decimalNumber untyped = Return (Some ev) /\
     eventType ev = "" /\
     importEvent importStart (Some ev) = Return st' /\
     mapGet (profilesMap st') (profileNameOf ev) <> None /\
     currentEventType st' = Some "").
Proof.
  intros bad untyped. split.
  - assert (H : headerAccepted bad = false) by (vm_compute; reflexivity).
    split; [exact H |].
    exact (proj1 (@record_with_malformed_header_is_discarded decimalNumber
                    bad importStart) H).
  - assert (H : headerAccepted untyped = true) by (vm_compute; reflexivity).
    assert (N : exec reEvName (toStr (headerOf untyped)) = None)
      by (vm_compute; reflexivity).
    assert (C : currentEventType (@importStart decimalNumber) = None \/
                currentEventType (@importStart decimalNumber) = Some "")
      by (left; reflexivity).
    destruct (proj2 (@record_with_malformed_header_is_discarded decimalNumber
                       untyped importStart) H N) as (ev & P & T & K).
    destruct (K C) as (st' & S & G & M).
    repeat (split; [assumption |]).
    exists ev, st'. repeat (split; [assumption |]). assumption.
Defined.

(** C5 at the failing input: the thread ID of the record is the number 0,
    not [null], and the name of its Profile has no [tid: 0] part. *)
Lemma thread_zero_is_left_out_of_the_name :
  let rawEvent := ["swapper     0 [000] 1000.000000: cycles:"] in
  let ev := {| command := Some "swapper";
               processID := None;
               threadID := Some (Decimal.Fin 0 0);
               time := Some (Decimal.Fin 1000 0);
               eventType := "cycles";
               stack := [] |} in
  @parseEvent decimalNumber rawEvent = Return (Some ev) /\
  threadID ev <> None /\
  numStr (threadID ev) = "0" /\
  profileNameOf ev = "swapper" /\
  importFromLinuxPerf (text rawEvent) =
    Return (Some {| groupName := "swapper";
                    indexToView := 0;
                    profiles :=
                      [{| profileName := "swapper";
                          profileFormatter := TimeFormatter "seconds";
                          profileSamples := [([], Decimal.Fin 1000 0)] |}] |}).
Proof.
  repeat split; try reflexivity. discriminate.
Qed.

(** C8 fails as stated: the two records of the first input differ in command
    and process ID, those of the second in process ID ([0] and [null]); in
    both inputs the two records have the same profile name and feed one
    Builder. *)
Lemma distinct_contexts_share_a_builder_counterexample :
  let big :=
    text ["foo 1000000000000000000000/7 1000.000000: cycles:"; "";
          "foo pid: 1e+21 7 1000.000001: cycles:"] in
  let zero :=
    text ["bar 0/5 1000.000000: cycles:"; ""; "bar 5 1000.000001: cycles:"] in
  let event c p t tm := {| command := Some c; processID := p;
                           threadID := Some (Decimal.Fin t 0);
                           time := Some tm;
                           eventType := "cycles"; stack := [] |} in
  let group n := Some {| groupName := n;
                         indexToView := 0;
                         profiles :=
                           [{| profileName := n;
                               profileFormatter := TimeFormatter "seconds";
                               profileSamples :=
                                 [([], Decimal.Fin 1000 0);
                                  ([], Decimal.Fin 1000000001 6)] |}] |} in
  @parseEvents decimalNumber textLines big =
    Return [Some (event "foo" (Some (Decimal.Fin (10 ^ 21) 0)) 7%N
                        (Decimal.Fin 1000 0));
            Some (event "foo pid: 1e+21" None 7%N
                        (Decimal.Fin 1000000001 6))] /\
  importFromLinuxPerf big = Return (group "foo pid: 1e+21 tid: 7") /\
  @parseEvents decimalNumber textLines zero =
    Return [Some (event "bar" (Some (Decimal.Fin 0 0)) 5%N (Decimal.Fin 1000 0));
            Some (event "bar" None 5%N (Decimal.Fin 1000000001 6))] /\
  importFromLinuxPerf zero = Return (group "bar tid: 5").
Proof.
  repeat split; reflexivity.
Qed.

(** One sample of one frame, and a second frame with another address and a
    source line. *)
Lemma frame_key_is_symbol_and_file_witness :
  let contents :=
    text ["foo 1234 1000.000000: cycles:"; " 7fff bar+0x1f (baz)"] in
  let f1 := {| address := "0x7fff"; symbolName := "bar";
               file := Some "baz"; line := None |} in
  let f2 := {| address := "0x8000"; symbolName := "bar";
               file := Some "baz"; line := Some (Decimal.Fin 12 0) |} in
  let fi := frameInfoOf f1 in
  let sample := ([fi], Decimal.Fin 1000 0) in
  let p := {| profileName := "foo tid: 1234";
              profileFormatter := TimeFormatter "seconds";
              profileSamples := [sample] |} in
  let g := {| groupName := "foo tid: 1234"; indexToView := 0; profiles := [p] |} in
  (importFromLinuxPerf contents = Return (Some g) /\
   In p (profiles g) /\ In sample (profileSamples p) /\ In fi (fst sample) /\
   exists rawEvent line m raw f,
     In rawEvent (rawEvents contents) /\
     In line rawEvent /\
     exec reStackLine line = Some m /\
     get m 2 = Some raw /\
     symbolName f = replaceEmpty reOffset raw /\
     fi = frameInfoOf f /\
     key fi = (symbolName f ++ " (" ++ toStr (file f) ++ ")")%string) /\
  (symbolName f1 = symbolName f2 /\ file f1 = file f2 /\
   key (frameInfoOf f1) = key (frameInfoOf f2) /\
   snd (internFrame (fst (internFrame [] (frameInfoOf f1))) (frameInfoOf f2))
   = snd (internFrame [] (frameInfoOf f1))).
Proof.
  intros contents f1 f2 fi sample p g.
  destruct (@frame_key_is_symbol_and_file decimalNumber textLines
              contents g p sample fi f1 f2 []) as [T1 T2].
  assert (I : importFromLinuxPerf contents = Return (Some g)) by reflexivity.
  assert (Hp : In p (profiles g)) by (left; reflexivity).
  assert (Hs : In sample (profileSamples p)) by (left; reflexivity).
  assert (Hf : In fi (fst sample)) by (left; reflexivity).
  assert (E1 : symbolName f1 = symbolName f2) by reflexivity.
  assert (E2 : file f1 = file f2) by reflexivity.
  split.
  - repeat (split; [assumption |]). exact (T1 I Hp Hs Hf).
  - repeat (split; [assumption |]). exact (T2 E1 E2).
Defined.

(** C6 fails as stated: [1AB] is made of hexadecimal digits, those of the
    address of a stack line, but the offset [+0x1AB] is not stripped. *)
Lemma uppercase_offset_counterexample :
  allIn [Rng "0" "9"; Rng "a" "f"; Rng "A" "F"] "1AB" = true /\
  replaceEmpty reOffset "foo+0x1AB" = "foo+0x1AB" /\
  @stackLineStep decimalNumber {| frames := []; lastWasSymbol := None |}
                 " 7fff foo+0x1AB (bar)" =
    Return {| frames := [{| address := "0x7fff";
                            symbolName := "foo+0x1AB";
                            file := Some "bar";
                            line := None |}];
              lastWasSymbol := Some 0 |}.
Proof.
  repeat split; reflexivity.
Qed.

(** The stack line of the comment of source line 104, and the symbol
    [[unknown]] that has no offset. *)
Lemma lowercase_offset_suffix_is_stripped_witness :
  let st := {| frames := []; lastWasSymbol := None |} in
  let line := "	    7fffb84c9afc cpu_startup_entry+0x800047c022ec ([kernel.kallsyms])" in
  let m := {| index := 0;
              matched := line;
              groups := [(3, " ([kernel.kallsyms])"); (4, "[kernel.kallsyms]");
                         (2, "cpu_startup_entry+0x800047c022ec");
                         (1, "7fffb84c9afc")] |} in
  (exec reStackLine line = Some m /\
   get m 2 = Some "cpu_startup_entry+0x800047c022ec" /\
   exists st' f,
     @stackLineStep decimalNumber st line = Return st' /\
     frames st' = frames st ++ [f] /\
     symbolName f = replaceEmpty reOffset "cpu_startup_entry+0x800047c022ec") /\
  ("800047c022ec" <> "" /\ allIn lowerHex "800047c022ec" = true /\
   replaceEmpty reOffset ("cpu_startup_entry" ++ "+0x" ++ "800047c022ec")
   = "cpu_startup_entry") /\
  ((forall p' h', h' <> "" -> allIn lowerHex h' = true ->
                  "[unknown]" <> (p' ++ "+0x" ++ h')%string) /\
   replaceEmpty reOffset "[unknown]" = "[unknown]").
Proof.
  intros st line m.
  destruct (@lowercase_offset_suffix_is_stripped decimalNumber st line
              "cpu_startup_entry" "800047c022ec" "[unknown]") as (T1 & T2 & T3).
  assert (E : exec reStackLine line = Some m) by (vm_compute; reflexivity).
  assert (G : get m 2 = Some "cpu_startup_entry+0x800047c022ec") by reflexivity.
  assert (N : "800047c022ec" <> "") by discriminate.
  assert (A : allIn lowerHex "800047c022ec" = true) by reflexivity.
  assert (U : forall p' h', h' <> "" -> allIn lowerHex h' = true ->
                            "[unknown]" <> (p' ++ "+0x" ++ h')%string).
  { intros p' h' _ _ H.
    assert (C : existsb (Ascii.eqb "+")
                  (list_ascii_of_string (p' ++ "+0x" ++ h')) = true).
    { clear H. induction p' as [| a p0 IH]; simpl in *; [reflexivity |].
      rewrite IH. apply orb_true_r. }
    rewrite <- H in C. discriminate C. }
  split; [| split].
  - split; [exact E | split; [exact G | exact (T1 m _ E G)]].
  - split; [exact N | split; [exact A | exact (T2 N A)]].
  - split; [exact U | exact (T3 U)].
Defined.

(** * Further properties *)

(** ** The grouping of the events *)

Section GroupingFacts.

Context {num : JSNumber}.

Lemma firstOccurrences_snoc l k :
  firstOccurrences (l ++ [k]) =
  if in_dec string_dec k l then firstOccurrences l else firstOccurrences l ++ [k].
Proof.
  unfold firstOccurrences. rewrite rev_app_distr. simpl.
  destruct (in_dec string_dec k (rev l)) as [H | H];
    destruct (in_dec string_dec k l) as [H' | H']; try reflexivity.
  - exfalso. apply H'. apply in_rev. assumption.
  - exfalso. apply H. apply in_rev in H'. assumption.
Qed.

Lemma firstOccurrences_In l k : In k (firstOccurrences l) <-> In k l.
Proof.
  unfold firstOccurrences. rewrite <- in_rev, nodup_In, <- in_rev. reflexivity.
Qed.

Lemma firstOccurrences_NoDup l : NoDup (firstOccurrences l).
Proof. unfold firstOccurrences. apply NoDup_rev, NoDup_nodup. Qed.

Lemma mapGet_keyed {V : Type} (F : string -> V) ks k :
  mapGet (map (fun k' => (k', F k')) ks) k = if in_dec string_dec k ks then Some (F k) else None.
Proof.
  induction ks as [| k0 ks IH]; simpl; [reflexivity |].
  destruct (String.eqb_spec k k0) as [-> | N].
  - destruct (string_dec k0 k0); [reflexivity | congruence].
  - rewrite IH. destruct (string_dec k0 k); [congruence |].
    destruct (in_dec string_dec k ks); reflexivity.
Qed.

Lemma mapSet_keyed {V : Type} (F G : string -> V) ks k :
  NoDup ks -> In k ks ->
  (forall k', k' <> k -> G k' = F k') ->
  mapSet (map (fun k' => (k', F k')) ks) k (G k) = map (fun k' => (k', G k')) ks.
Proof.
  intros Hnd Hin HG. induction Hnd as [| k0 ks Hk0 Hnd IH]; simpl; [destruct Hin |].
  destruct (String.eqb_spec k k0) as [-> | N].
  - f_equal. apply map_ext_in. intros k' Hk'.
    rewrite HG; [reflexivity |]. intros ->. contradiction.
  - rewrite (HG k0) by congruence. f_equal. apply IH.
    destruct Hin as [-> | Hin]; [congruence | assumption].
Qed.

Lemma eventsNamed_snoc k acc p :
  eventsNamed k (acc ++ [p]) =
  eventsNamed k acc ++ (if String.eqb (profileNameOf (fst p)) k then [p] else []).
Proof. unfold eventsNamed. rewrite filter_app. reflexivity. Qed.

Lemma eventsNamed_absent k acc :
  ~ In k (namesOf acc) -> eventsNamed k acc = [].
Proof.
  unfold eventsNamed, namesOf. induction acc as [| p acc IH]; simpl; [reflexivity |].
  intros H. destruct (String.eqb_spec (profileNameOf (fst p)) k) as [E | N].
  - exfalso. apply H. left. assumption.
  - apply IH. intros H'. apply H. right. assumption.
Qed.

Lemma namesOf_snoc acc p :
  namesOf (acc ++ [p]) = namesOf acc ++ [profileNameOf (fst p)].
Proof. unfold namesOf. rewrite map_app. reflexivity. Qed.

(** Feeding an event to the map of a list of events gives the map of the
    list with that event at its end. *)
Lemma feed_groupMap acc ev t :
  feed (groupMap acc) ev t = groupMap (acc ++ [(ev, t)]).
Proof.
  unfold feed, groupMap. rewrite mapGet_keyed.
  rewrite namesOf_snoc. cbn [fst]. rewrite firstOccurrences_snoc.
  set (k := profileNameOf ev).
  destruct (in_dec string_dec k (firstOccurrences (namesOf acc))) as [H | H];
    destruct (in_dec string_dec k (namesOf acc)) as [H' | H'];
    try (exfalso; pose proof (firstOccurrences_In (namesOf acc) k); tauto).
  - assert (E : appendSampleWithTimestamp (map frameInfoOf (stack ev)) t (builderOf acc k)
                = builderOf (acc ++ [(ev, t)]) k).
    { unfold builderOf, appendSampleWithTimestamp; cbn [builderName builderFormatter builderSamples].
      rewrite eventsNamed_snoc. cbn [fst]. fold k. rewrite String.eqb_refl.
      rewrite map_app. reflexivity. }
    rewrite E. apply mapSet_keyed; [apply firstOccurrences_NoDup | assumption |].
    intros k' N. unfold builderOf. rewrite eventsNamed_snoc. cbn [fst]. fold k.
    apply not_eq_sym in N. apply String.eqb_neq in N. rewrite N, app_nil_r. reflexivity.
  - rewrite mapSet_absent.
    2:{ rewrite mapGet_keyed.
        destruct (in_dec string_dec k (firstOccurrences (namesOf acc))); [contradiction | reflexivity]. }
    rewrite map_app. cbn [map]. f_equal.
    + apply map_ext_in. intros k' Hk'. f_equal. unfold builderOf.
      rewrite eventsNamed_snoc. cbn [fst]. fold k.
      destruct (String.eqb_spec k k') as [<- | N]; [contradiction |].
      rewrite app_nil_r. reflexivity.
    + f_equal. f_equal. unfold builderOf, appendSampleWithTimestamp, newBuilder,
        setValueFormatter, setName, newStackListProfileBuilder;
        cbn [builderName builderFormatter builderSamples].
      rewrite eventsNamed_snoc, eventsNamed_absent by assumption.
      cbn [fst]. fold k. rewrite String.eqb_refl. reflexivity.
Qed.

(** A loop whose event type is set feeds the events of that type. *)
Lemma importLoop_eventsOfType es : forall st st' ty acc,
  currentEventType st = Some ty ->
  profilesMap st = groupMap acc ->
  importLoop st es = Return st' ->
  currentEventType st' = Some ty /\
  profilesMap st' = groupMap (acc ++ eventsOfType ty es).
Proof.
  induction es as [| e es IH]; simpl; intros st st' ty acc T M S.
  - inversion S; subst. rewrite app_nil_r. auto.
  - destruct (importEvent st e) as [st1 |] eqn:E; simpl in S; [| discriminate].
    destruct e as [ev |].
    + destruct (accepts st ev) eqn:A.
      * destruct (importEvent_accepted _ _ A) as (t & Tm & S1).
        rewrite S1 in E. inversion E; subst st1. clear E.
        unfold accepts in A. rewrite T in A. apply andb_prop in A. destruct A as [A _].
        apply String.eqb_eq in A. subst ty. rewrite Tm, String.eqb_refl.
        apply (IH _ st' (eventType ev) (acc ++ [(ev, t)])) in S;
          [| reflexivity | cbn [profilesMap]; rewrite M; apply feed_groupMap].
        destruct S as [T' M'].
        split; [assumption |]. rewrite M', <- app_assoc. reflexivity.
      * rewrite (importEvent_rejected _ _ A) in E. inversion E; subst st1.
        unfold accepts in A. rewrite T in A.
        destruct (time ev) as [t |]; cbn [notNull] in A.
        -- rewrite andb_true_r in A. rewrite A. simpl. eauto.
        -- simpl. eauto.
    + inversion E; subst st1. simpl. eauto.
Qed.

(** The map at the end of the loop groups the accepted events. *)
Lemma importLoop_groupMap es : forall st st',
  currentEventType st = None ->
  profilesMap st = [] ->
  importLoop st es = Return st' ->
  profilesMap st' = groupMap (acceptedEvents es).
Proof.
  unfold acceptedEvents.
  induction es as [| e es IH]; simpl; intros st st' T M S.
  - inversion S; subst. assumption.
  - destruct (importEvent st e) as [st1 |] eqn:E; simpl in S; [| discriminate].
    destruct e as [ev |].
    + destruct (time ev) as [t |] eqn:Tm; cbn [notNull].
      * assert (A : accepts st ev = true) by (unfold accepts; rewrite T, Tm; reflexivity).
        destruct (importEvent_accepted _ _ A) as (t' & Tm' & S1).
        rewrite Tm in Tm'. inversion Tm'; subst t'.
        rewrite S1 in E. inversion E; subst st1. clear E.
        simpl. rewrite String.eqb_refl.
        apply (@importLoop_eventsOfType es _ st' (eventType ev) [(ev, t)]) in S;
          [| reflexivity | cbn [profilesMap]; rewrite M; apply (feed_groupMap [] ev t)].
        apply S.
      * rewrite importEvent_rejected in E
          by (unfold accepts; rewrite Tm; apply andb_false_r).
        inversion E; subst st1.
        rewrite (IH _ _ T M S).
        destruct (firstTimed es); reflexivity.
    + inversion E; subst st1. rewrite (IH _ _ T M S).
      destruct (firstTimed es); reflexivity.
Qed.


Lemma groupOf_groupMap acc :
  groupOf (groupMap acc) = groupOfProfiles (groupedProfiles acc).
Proof.
  unfold groupOf, groupMap, groupedProfiles, groupOfProfiles, mapSize, mapKeys,
    mapValues.
  rewrite !map_map, length_map. cbn [fst snd].
  destruct (firstOccurrences (namesOf acc)) as [| k [| k' ks]]; reflexivity.
Qed.

Lemma namesOf_groupedProfiles acc :
  map profileName (groupedProfiles acc) = firstOccurrences (namesOf acc).
Proof.
  unfold groupedProfiles. rewrite map_map. cbn [build builderOf profileName builderName].
  apply map_id.
Qed.

Lemma groupOfProfiles_profiles ps g :
  groupOfProfiles ps = Some g -> profiles g = ps.
Proof.
  destruct ps as [| p [| q ps]]; simpl; intros H; inversion H; reflexivity.
Qed.

Lemma eventsNamed_cons k p acc :
  eventsNamed k (p :: acc) =
  if String.eqb (profileNameOf (fst p)) k then p :: eventsNamed k acc
  else eventsNamed k acc.
Proof. reflexivity. Qed.

Lemma list_sum_cons a l : list_sum (a :: l) = a + list_sum l.
Proof. reflexivity. Qed.

Lemma eventsNamed_count_cons ks p acc :
  NoDup ks -> In (profileNameOf (fst p)) ks ->
  list_sum (map (fun k => List.length (eventsNamed k (p :: acc))) ks) =
  S (list_sum (map (fun k => List.length (eventsNamed k acc)) ks)).
Proof.
  intros Hnd. induction Hnd as [| k ks Hk Hnd IHks]; intros Hp; [destruct Hp |].
  cbn [map]. rewrite !list_sum_cons, eventsNamed_cons.
  destruct (String.eqb_spec (profileNameOf (fst p)) k) as [E | N].
  - cbn [List.length Nat.add]. do 3 f_equal. apply map_ext_in. intros k' Hk'.
    rewrite eventsNamed_cons.
    destruct (String.eqb_spec (profileNameOf (fst p)) k'); [| reflexivity].
    exfalso. apply Hk. congruence.
  - destruct Hp as [Hp | Hp]; [congruence |].
    rewrite (IHks Hp). lia.
Qed.

Lemma eventsNamed_count ks : forall acc,
  NoDup ks -> incl (namesOf acc) ks ->
  list_sum (map (fun k => List.length (eventsNamed k acc)) ks) = List.length acc.
Proof.
  intros acc Hnd. induction acc as [| p acc IH]; intros Hi.
  - clear. induction ks as [| k ks IHks]; [reflexivity | exact IHks].
  - rewrite eventsNamed_count_cons; [| assumption | apply Hi; left; reflexivity].
    cbn [List.length]. f_equal. apply IH.
    intros x Hx; apply Hi; right; assumption.
Qed.

Lemma sampleCount_groupedProfiles acc :
  sampleCount (groupedProfiles acc) = List.length acc.
Proof.
  unfold sampleCount, groupedProfiles. rewrite map_map.
  cbn [build builderOf profileSamples builderSamples].
  rewrite <- (eventsNamed_count (ks := firstOccurrences (namesOf acc)) acc).
  - f_equal. apply map_ext. intros k. apply length_map.
  - apply firstOccurrences_NoDup.
  - intros k Hk. apply firstOccurrences_In. assumption.
Qed.

Lemma firstTimed_None es :
  firstTimed es = None <->
  Forall (fun e => forall ev, e = Some ev -> time ev = None) es.
Proof.
  induction es as [| [ev |] es IH]; simpl.
  - split; [constructor | reflexivity].
  - destruct (time ev) eqn:T; cbn [notNull].
    + split; [discriminate |]. intros H. inversion H as [| ? ? He _]; subst.
      specialize (He ev eq_refl). congruence.
    + rewrite IH. split.
      * intros H. constructor; [| assumption]. intros ev' E. inversion E; subst. assumption.
      * intros H. inversion H; assumption.
  - rewrite IH. split.
    + intros H. constructor; [discriminate | assumption].
    + intros H. inversion H; assumption.
Qed.

Lemma acceptedEvents_nil es :
  acceptedEvents es = [] <-> firstTimed es = None.
Proof.
  unfold acceptedEvents. split.
  - destruct (firstTimed es) as [f |] eqn:F; [| reflexivity].
    intros H. exfalso. revert F H.
    induction es as [| [ev |] es IH]; simpl; try discriminate; auto.
    destruct (time ev) as [t |] eqn:T; cbn [notNull]; [| auto].
    intros F. inversion F; subst. rewrite String.eqb_refl. discriminate.
  - intros ->. reflexivity.
Qed.

End GroupingFacts.

Section GroupingTheorems.

Context {num : JSNumber} {src : LineSource}.

(** What the adapter returns, from the events of the input. *)
Lemma importFromLinuxPerf_grouped (contents : TextFileContent) :
  exists es,
    parseEvents contents = Return es /\
    resultingProfiles contents = Return (groupedProfiles (acceptedEvents es)) /\
    importFromLinuxPerf contents =
      Return (groupOfProfiles (groupedProfiles (acceptedEvents es))).
Proof.
  unfold importFromLinuxPerf, resultingProfiles, parseEvents.
  destruct (parseEventsLoop_total (splitLines contents) []) as (es & P).
  exists es. rewrite P. cbn [bind].
  destruct (importLoop_total es importStart) as (st & L). rewrite L. cbn [bind].
  rewrite (@importLoop_groupMap _ es importStart st eq_refl eq_refl L).
  split; [reflexivity |]. split.
  - unfold groupMap, groupedProfiles, mapValues. rewrite !map_map. reflexivity.
  - rewrite groupOf_groupMap. reflexivity.
Qed.

(** X1: the group of an input holds one Profile for each profile name of
    the accepted events, in the order in which the names first occur; the
    samples of a Profile are those of the accepted events of its name, in the
    order of the input. *)
Theorem import_groups_the_accepted_events (contents : TextFileContent) :
  exists es,
    parseEvents contents = Return es /\
    importFromLinuxPerf contents =
      Return (groupOfProfiles (groupedProfiles (acceptedEvents es))).
Proof.
  destruct (importFromLinuxPerf_grouped contents) as (es & P & _ & I). eauto.
Qed.

(** X2: no two Profiles of a group have the same name. *)
Theorem profile_names_are_distinct (contents : TextFileContent) (g : ProfileGroup) :
  importFromLinuxPerf contents = Return (Some g) ->
  NoDup (map profileName (profiles g)).
Proof.
  destruct (importFromLinuxPerf_grouped contents) as (es & _ & _ & I).
  rewrite I. intros H. inversion H as [G].
  rewrite (groupOfProfiles_profiles _ G), namesOf_groupedProfiles.
  apply firstOccurrences_NoDup.
Qed.

(** X3: no sample is lost and none is made up: the Profiles of an input hold
    as many samples as the input has accepted events. *)
Theorem samples_are_conserved (contents : TextFileContent) :
  exists es ps,
    parseEvents contents = Return es /\
    resultingProfiles contents = Return ps /\
    sampleCount ps = List.length (acceptedEvents es).
Proof.
  destruct (importFromLinuxPerf_grouped contents) as (es & P & R & _).
  exists es, (groupedProfiles (acceptedEvents es)).
  repeat split; auto. apply sampleCount_groupedProfiles.
Qed.

(** X4: the input is not recognized exactly when none of its records is
    parsed with a timestamp. *)
Theorem not_recognized_iff_no_timed_record (contents : TextFileContent) :
  exists es,
    parseEvents contents = Return es /\
    (importFromLinuxPerf contents = Return None <->
     Forall (fun e => forall ev, e = Some ev -> time ev = None) es).
Proof.
  destruct (importFromLinuxPerf_grouped contents) as (es & P & _ & I).
  exists es. split; [assumption |]. rewrite I, <- firstTimed_None, <- acceptedEvents_nil.
  split.
  - intros H. inversion H as [G].
    destruct (acceptedEvents es) as [| p acc]; [reflexivity | exfalso].
    assert (N : groupedProfiles (p :: acc) <> []).
    { intros E. apply (f_equal (map profileName)) in E.
      rewrite namesOf_groupedProfiles in E.
      assert (Hin : In (profileNameOf (fst p)) (firstOccurrences (namesOf (p :: acc))))
        by (apply firstOccurrences_In; left; reflexivity).
      rewrite E in Hin. destruct Hin. }
    destruct (groupedProfiles (p :: acc)) as [| q [| q' ps]]; [congruence | |]; discriminate.
  - intros ->. reflexivity.
Qed.

(** X5: a group is well formed: its index to view designates one of its
    Profiles, and each of its Profiles has the seconds formatter and at least
    one sample. *)
Theorem group_is_well_formed
    (contents : TextFileContent) (g : ProfileGroup) (p : Profile) :
  importFromLinuxPerf contents = Return (Some g) ->
  indexToView g < List.length (profiles g) /\
  (In p (profiles g) ->
   profileFormatter p = TimeFormatter "seconds" /\ profileSamples p <> []).
Proof.
  destruct (importFromLinuxPerf_grouped contents) as (es & _ & _ & I).
  rewrite I. intros H. inversion H as [G]. clear H I.
  pose proof (groupOfProfiles_profiles _ G) as Hp.
  split.
  - destruct (groupedProfiles (acceptedEvents es)) as [| q [| q' ps]];
      simpl in G; inversion G; subst; simpl; lia.
  - rewrite Hp. unfold groupedProfiles. intros Hin.
    apply in_map_iff in Hin. destruct Hin as (k & <- & Hk).
    split; [reflexivity |]. cbn [build builderOf profileSamples builderSamples].
    apply (proj1 (firstOccurrences_In _ _)) in Hk. unfold namesOf in Hk.
    apply in_map_iff in Hk. destruct Hk as (q & Hq & Hin).
    assert (F : In q (eventsNamed k (acceptedEvents es))).
    { unfold eventsNamed. apply filter_In. split; [assumption |].
      apply String.eqb_eq. assumption. }
    destruct (eventsNamed k (acceptedEvents es)); [destruct F | discriminate].
Qed.

End GroupingTheorems.

(** ** The records of an input *)

Section RecordsFacts.

Context {num : JSNumber}.

Lemma importRecords_app rs1 : forall rs2 st,
  importRecords st (rs1 ++ rs2) =
  (st' <- importRecords st rs1 ;; importRecords st' rs2).
Proof.
  induction rs1 as [| r rs1 IH]; simpl; intros rs2 st; [reflexivity |].
  destruct (parseEvent_total r) as (e & ->). simpl.
  destruct (importEvent_total st e) as (st' & ->). simpl. apply IH.
Qed.

Lemma importRecords_total rs : forall st,
  exists st', importRecords st rs = Return st'.
Proof.
  induction rs as [| r rs IH]; simpl; intros st; eauto.
  destruct (parseEvent_total r) as (e & ->). simpl.
  destruct (importEvent_total st e) as (st' & ->). simpl. apply IH.
Qed.

Lemma importLoop_parseEventsLoop lines : forall buffer st,
  (es <- parseEventsLoop lines buffer ;; importLoop st es) =
  importRecords st (rawEventsLoop lines buffer).
Proof.
  induction lines as [| l lines IH]; simpl; intros buffer st.
  - destruct (Nat.ltb 0 (List.length buffer)); [| reflexivity].
    simpl. destruct (parseEvent_total buffer) as (e & ->). simpl.
    destruct (importEvent_total st e) as (st' & ->). reflexivity.
  - destruct (String.eqb l ""); [| apply IH].
    simpl. destruct (parseEvent_total buffer) as (e & ->). simpl.
    destruct (importEvent_total st e) as (st' & E). rewrite E. simpl.
    rewrite <- IH.
    destruct (parseEventsLoop_total lines []) as (es & ->). simpl.
    rewrite E. reflexivity.
Qed.

Lemma parseEvent_filter r1 r2 :
  filter notComment r1 = filter notComment r2 -> parseEvent r1 = parseEvent r2.
Proof.
  unfold parseEvent. fold notComment. intros ->. reflexivity.
Qed.

Lemma parseEvent_no_lines r :
  filter notComment r = [] -> parseEvent r = Return None.
Proof.
  intros H. rewrite (@parseEvent_filter r []); [reflexivity | assumption].
Qed.

Lemma importRecords_blank_record st rs :
  importRecords st ([] :: rs) = importRecords st rs.
Proof. reflexivity. Qed.

Lemma rawEventsLoop_blank pre : forall post buffer,
  rawEventsLoop (pre ++ "" :: post) buffer =
  rawEventsLoop (pre ++ [""]) buffer ++ rawEventsLoop post [].
Proof.
  induction pre as [| l pre IH]; simpl; intros post buffer; [reflexivity |].
  destruct (String.eqb l ""); [| apply IH].
  rewrite IH. reflexivity.
Qed.

Lemma importRecords_trailing_blank lines : forall buffer st,
  importRecords st (rawEventsLoop (lines ++ [""]) buffer) =
  importRecords st (rawEventsLoop lines buffer).
Proof.
  induction lines as [| l lines IH]; simpl; intros buffer st.
  - destruct buffer as [| b buffer]; [reflexivity |]. reflexivity.
  - destruct (String.eqb l ""); [| apply IH].
    simpl. destruct (parseEvent_total buffer) as (e & ->). simpl.
    destruct (importEvent_total st e) as (st' & ->). simpl. apply IH.
Qed.

Lemma importRecords_filter post : forall buffer1 buffer2 st,
  filter notComment buffer1 = filter notComment buffer2 ->
  importRecords st (rawEventsLoop post buffer1) =
  importRecords st (rawEventsLoop post buffer2).
Proof.
  induction post as [| l post IH]; simpl; intros buffer1 buffer2 st H.
  - assert (N : forall b : list string, filter notComment b = [] ->
                importRecords st (if Nat.ltb 0 (List.length b) then [b] else [])
                = Return st).
    { intros b Hb. destruct (Nat.ltb 0 (List.length b)); [| reflexivity].
      simpl. rewrite (parseEvent_no_lines _ Hb). reflexivity. }
    destruct buffer1 as [| b1 buffer1], buffer2 as [| b2 buffer2].
    + reflexivity.
    + rewrite (N (b2 :: buffer2)); [reflexivity | rewrite <- H; reflexivity].
    + rewrite (N (b1 :: buffer1)); [reflexivity | rewrite H; reflexivity].
    + simpl. rewrite (parseEvent_filter _ _ H). reflexivity.
  - destruct (String.eqb l "").
    + simpl. rewrite (parseEvent_filter _ _ H). reflexivity.
    + apply IH. rewrite !filter_app, H. reflexivity.
Qed.

Lemma comment_not_blank c : notComment c = false -> String.eqb c "" = false.
Proof. destruct c; [discriminate | reflexivity]. Qed.

Lemma importRecords_comment pre : forall c post buffer st,
  notComment c = false ->
  importRecords st (rawEventsLoop (pre ++ c :: post) buffer) =
  importRecords st (rawEventsLoop (pre ++ post) buffer).
Proof.
  induction pre as [| l pre IH]; simpl; intros c post buffer st Hc.
  - rewrite (comment_not_blank _ Hc). apply importRecords_filter.
    rewrite filter_app. simpl. rewrite Hc. apply app_nil_r.
  - destruct (String.eqb l ""); [| apply IH; assumption].
    simpl. destruct (parseEvent_total buffer) as (e & ->). simpl.
    destruct (importEvent_total st e) as (st' & ->). simpl. apply IH; assumption.
Qed.



Lemma rawEventsLoop_length lines : forall buffer,
  List.length (rawEventsLoop lines buffer) =
  List.length (filter (fun l => String.eqb l "") lines) +
  (if Nat.ltb 0 (List.length (buffer ++ lines)) && notBlank (last lines "x")
   then 1 else 0).
Proof.
  induction lines as [| l lines IH]; intros buffer.
  - simpl. rewrite app_nil_r. destruct (Nat.ltb 0 (List.length buffer)); reflexivity.
  - assert (T : Nat.ltb 0 (List.length (buffer ++ l :: lines)) = true).
    { apply Nat.ltb_lt. rewrite length_app. simpl. lia. }
    rewrite T. cbn [rawEventsLoop filter andb].
    destruct (String.eqb_spec l "") as [-> | N].
    + cbn [List.length]. rewrite IH. cbn [Nat.add app]. f_equal. f_equal.
      destruct lines as [| l' lines]; [reflexivity |]. reflexivity.
    + rewrite IH. f_equal. rewrite <- app_assoc. cbn [app]. rewrite T. cbn [andb].
      destruct lines as [| l' lines]; [| reflexivity].
      cbn [last]. unfold notBlank. destruct (String.eqb_spec l ""); [contradiction |].
      reflexivity.
Qed.

End RecordsFacts.

Section RecordsTheorems.

Context {num : JSNumber} {src : LineSource}.

Lemma importFromLinuxPerf_records (contents : TextFileContent) :
  importFromLinuxPerf contents =
  (st <- importRecords importStart (rawEvents contents) ;;
   Return (groupOf (profilesMap st))).
Proof.
  unfold importFromLinuxPerf, parseEvents, rawEvents.
  rewrite <- importLoop_parseEventsLoop.
  destruct (parseEventsLoop_total (splitLines contents) []) as (es & ->).
  reflexivity.
Qed.


(** X7: [parseEvents] yields one event for each blank line of the input, and
    one more when the last line is not blank. *)
Theorem one_event_for_each_blank_line (contents : TextFileContent) :
  exists es,
    parseEvents contents = Return es /\
    List.length es =
      List.length (filter (fun l => String.eqb l "") (splitLines contents)) +
      (if notBlank (last (splitLines contents) "") then 1 else 0).
Proof.
  unfold parseEvents.
  destruct (parseEventsLoop_total (splitLines contents) []) as (es & E).
  exists es. split; [assumption |].
  rewrite <- (Forall2_length (parseEventsLoop_Forall2 _ _ E)), rawEventsLoop_length.
  f_equal. cbn [app].
  destruct (splitLines contents) as [| l lines]; [reflexivity |].
  cbn [List.length Nat.ltb Nat.leb andb].
  assert (L : forall (ls : list string) a d1 d2, last (a :: ls) d1 = last (a :: ls) d2).
  { induction ls as [| b ls IHls]; intros a d1 d2; [reflexivity |].
    cbn [last]. destruct ls; [reflexivity |]. apply (IHls b). }
  rewrite (L lines l "x" ""). reflexivity.
Qed.

End RecordsTheorems.

Section BlankLines.

Context {num : JSNumber}.

(** X8: a blank line more, next to a blank line, in front of the first line or
    after the last one, changes nothing in what the adapter returns. *)
Theorem blank_lines_may_be_repeated (pre post lines : list string) :
  importFromLinuxPerf (text (pre ++ "" :: "" :: post)) =
    importFromLinuxPerf (text (pre ++ "" :: post)) /\
  importFromLinuxPerf (text ("" :: lines)) = importFromLinuxPerf (text lines) /\
  importFromLinuxPerf (text (lines ++ [""])) = importFromLinuxPerf (text lines).
Proof.
  rewrite !importFromLinuxPerf_records. unfold rawEvents, text. cbn [splitLines textLines].
  repeat split.
  - rewrite (rawEventsLoop_blank pre ("" :: post)), (rawEventsLoop_blank pre post).
    rewrite !importRecords_app.
    destruct (importRecords_total (rawEventsLoop (pre ++ [""]) []) importStart)
      as (st & ->).
    reflexivity.
  - rewrite importRecords_trailing_blank. reflexivity.
Qed.

(** X9: a comment line more changes nothing in what the adapter returns. *)
Theorem comment_lines_are_ignored (pre post : list string) (c : string) :
  exec reComment c <> None ->
  importFromLinuxPerf (text (pre ++ c :: post)) =
    importFromLinuxPerf (text (pre ++ post)).
Proof.
  intros Hc. rewrite !importFromLinuxPerf_records. unfold rawEvents, text.
  cbn [splitLines textLines].
  rewrite importRecords_comment; [reflexivity |].
  unfold notComment. destruct (exec reComment c); [reflexivity | contradiction].
Qed.

End BlankLines.

(** ** The matcher finds matches only *)

Module MatchFacts.

Lemma append_assoc (a b c : string) : ((a ++ b) ++ c = a ++ b ++ c)%string.
Proof. induction a as [| x a IH]; simpl; [| rewrite IH]; reflexivity. Qed.

Lemma length_append (a b : string) :
  String.length (a ++ b) = String.length a + String.length b.
Proof. induction a as [| x a IH]; simpl; [| rewrite IH]; reflexivity. Qed.

Lemma greedy_sound c s : forall pos k res,
  greedy c s pos k = Some res ->
  exists w rest,
    s = (w ++ rest)%string /\ allIn c w = true /\
    k rest (pos + String.length w) = Some res.
Proof.
  induction s as [| a s IH]; simpl; intros pos k res H.
  - exists "", "". rewrite Nat.add_0_r. auto.
  - destruct (inCls c a) eqn:A.
    + destruct (greedy c s (S pos) k) as [r |] eqn:E.
      * inversion H; subst. apply IH in E. destruct E as (w & rest & -> & Hw & Hk).
        exists (String a w), rest. simpl. rewrite A, Hw, Nat.add_succ_r. auto.
      * exists "", (String a s). rewrite Nat.add_0_r. auto.
    + exists "", (String a s). rewrite Nat.add_0_r. auto.
Qed.

Lemma lazy_sound c s : forall pos k res,
  lazy c s pos k = Some res ->
  exists w rest,
    s = (w ++ rest)%string /\ allIn c w = true /\
    k rest (pos + String.length w) = Some res.
Proof.
  induction s as [| a s IH]; simpl; intros pos k res H.
  - destruct (k "" pos) eqn:E; [| discriminate]. inversion H; subst.
    exists "", "". rewrite Nat.add_0_r. auto.
  - destruct (k (String a s) pos) eqn:E.
    + inversion H; subst. exists "", (String a s). rewrite Nat.add_0_r. auto.
    + destruct (inCls c a) eqn:A; [| discriminate].
      apply IH in H. destruct H as (w & rest & -> & Hw & Hk).
      exists (String a w), rest. simpl. rewrite A, Hw, Nat.add_succ_r. auto.
Qed.

(** What the matcher finds is a match, and it goes on after it. *)
Lemma run_sound r : forall s pos cs k res,
  run r s pos cs k = Some res ->
  exists w rest cs',
    s = (w ++ rest)%string /\ matches r pos w rest cs cs' /\
    k rest (pos + String.length w) cs' = Some res.
Proof.
  induction r; simpl; intros s pos cs k res H.
  - exists "", s, cs. rewrite Nat.add_0_r. repeat split; [constructor | assumption].
  - destruct s as [| a s]; [discriminate |].
    destruct (inCls c a) eqn:A; [| discriminate].
    exists (String a ""), s, cs. simpl. rewrite Nat.add_1_r.
    repeat split; [constructor; assumption | assumption].
  - apply IHr1 in H. destruct H as (w1 & rest1 & cs1 & -> & M1 & H).
    apply IHr2 in H. destruct H as (w2 & rest & cs2 & -> & M2 & H).
    exists (w1 ++ w2)%string, rest, cs2.
    rewrite append_assoc, length_append, Nat.add_assoc.
    repeat split; [econstructor; eassumption | assumption].
  - match type of H with
    | match ?x with _ => _ end = _ => destruct x eqn:E
    end.
    + inversion H; subst. apply IHr in E. destruct E as (w & rest & cs' & -> & M & E).
      destruct (Nat.eqb_spec (pos + String.length w) pos) as [Z | Z]; [discriminate |].
      exists w, rest, cs'. repeat split; [| assumption].
      apply MOptSome; [| assumption]. intros ->. simpl in Z. lia.
    + exists "", s, cs. rewrite Nat.add_0_r. repeat split; [constructor | assumption].
  - apply greedy_sound in H. destruct H as (w & rest & -> & Hw & H).
    exists w, rest, cs. repeat split; [constructor; assumption | assumption].
  - destruct s as [| a s]; [discriminate |].
    destruct (inCls c a) eqn:A; [| discriminate].
    apply greedy_sound in H. destruct H as (w & rest & -> & Hw & H).
    exists (String a w), rest, cs. simpl. rewrite Nat.add_succ_r.
    repeat split; [| assumption].
    constructor; [discriminate | simpl; rewrite A, Hw; reflexivity].
  - destruct s as [| a s]; [discriminate |].
    destruct (inCls c a) eqn:A; [| discriminate].
    apply lazy_sound in H. destruct H as (w & rest & -> & Hw & H).
    exists (String a w), rest, cs. simpl. rewrite Nat.add_succ_r.
    repeat split; [| assumption].
    constructor; [discriminate | simpl; rewrite A, Hw; reflexivity].
  - apply IHr in H. destruct H as (w & rest & cs' & -> & M & H).
    exists w, rest, ((i, w) :: cs').
    replace (pos + String.length w - pos) with (String.length w) in H by lia.
    rewrite take_app in H.
    repeat split; [constructor; assumption | assumption].
  - destruct (Nat.eqb_spec pos 0) as [-> | Z]; [| discriminate].
    exists "", s, cs. repeat split; [constructor | assumption].
  - destruct s; [| discriminate].
    exists "", "", cs. rewrite Nat.add_0_r. repeat split; [constructor | assumption].
Qed.

Lemma attempt_sound r s pos m :
  attempt r s pos = Some m ->
  exists rest,
    s = (matched m ++ rest)%string /\ index m = pos /\
    matches r pos (matched m) rest [] (groups m).
Proof.
  unfold attempt. intros H.
  destruct (run r s pos [] (fun _ pos' cs => Some (pos', cs))) as [[e cs] |] eqn:E;
    [| discriminate].
  apply run_sound in E. destruct E as (w & rest & cs' & -> & M & E).
  inversion E; subst. inversion H; subst. simpl.
  replace (pos + String.length w - pos) with (String.length w) by lia.
  rewrite take_app. eauto.
Qed.

Lemma search_sound r s : forall pos m,
  search r s pos = Some m ->
  exists pre rest,
    s = (pre ++ matched m ++ rest)%string /\
    index m = pos + String.length pre /\
    matches r (index m) (matched m) rest [] (groups m).
Proof.
  induction s as [| a s IH]; intros pos m H; rewrite search_unfold in H.
  - destruct (attempt r "" pos) eqn:E; [| discriminate]. inversion H; subst.
    apply attempt_sound in E. destruct E as (rest & E & I & M).
    exists "", rest. rewrite I, Nat.add_0_r. rewrite <- I at 2. auto.
  - destruct (attempt r (String a s) pos) eqn:E.
    + inversion H; subst.
      apply attempt_sound in E. destruct E as (rest & E & I & M).
      exists "", rest. rewrite I, Nat.add_0_r. rewrite <- I at 2. auto.
    + apply IH in H. destruct H as (pre & rest & -> & I & M).
      exists (String a pre), rest. simpl. rewrite Nat.add_succ_r. auto.
Qed.

(** The match array of [exec] describes a match of the pattern in the
    input. *)
Lemma exec_sound r s m :
  exec r s = Some m ->
  exists pre rest,
    s = (pre ++ matched m ++ rest)%string /\
    index m = String.length pre /\
    matches r (index m) (matched m) rest [] (groups m).
Proof. apply search_sound. Qed.

End MatchFacts.

(** ** What the patterns of the adapter match *)

Module PatternFacts.
Import MatchFacts.

Lemma matches_Cat r1 r2 pos w rest cs cs2 :
  matches (Cat r1 r2) pos w rest cs cs2 ->
  exists w1 w2 cs1,
    w = (w1 ++ w2)%string /\
    matches r1 pos w1 (w2 ++ rest) cs cs1 /\
    matches r2 (pos + String.length w1) w2 rest cs1 cs2.
Proof. intros H. inversion H; subst. eauto 7. Qed.

Lemma matches_Group i r pos w rest cs cs2 :
  matches (Group i r) pos w rest cs cs2 ->
  exists cs1, cs2 = (i, w) :: cs1 /\ matches r pos w rest cs cs1.
Proof. intros H. inversion H; subst. eauto. Qed.

Lemma matches_One c pos w rest cs cs' :
  matches (One c) pos w rest cs cs' ->
  exists a, w = String a "" /\ inCls c a = true /\ cs' = cs.
Proof. intros H. inversion H; subst. eauto. Qed.

Lemma matches_Chr c pos w rest cs cs' :
  matches (One [Chr c]) pos w rest cs cs' -> w = String c "" /\ cs' = cs.
Proof.
  intros H. apply matches_One in H. destruct H as (a & -> & A & ->).
  rewrite inCls_Chr in A. apply Ascii.eqb_eq in A. subst. auto.
Qed.

Lemma matches_Star c pos w rest cs cs' :
  matches (Star c) pos w rest cs cs' -> allIn c w = true /\ cs' = cs.
Proof. intros H. inversion H; subst. auto. Qed.

Lemma matches_Plus c pos w rest cs cs' :
  matches (Plus c) pos w rest cs cs' -> w <> "" /\ allIn c w = true /\ cs' = cs.
Proof. intros H. inversion H; subst. auto. Qed.

Lemma matches_PlusLazy c pos w rest cs cs' :
  matches (PlusLazy c) pos w rest cs cs' -> w <> "" /\ allIn c w = true /\ cs' = cs.
Proof. intros H. inversion H; subst. auto. Qed.

Lemma matches_Opt r pos w rest cs cs' :
  matches (Opt r) pos w rest cs cs' ->
  (w = "" /\ cs' = cs) \/ (w <> "" /\ matches r pos w rest cs cs').
Proof. intros H. inversion H; subst; auto. Qed.

Lemma matches_Bol pos w rest cs cs' :
  matches Bol pos w rest cs cs' -> pos = 0 /\ w = "" /\ cs' = cs.
Proof. intros H. inversion H; subst. auto. Qed.

Lemma matches_Eol pos w rest cs cs' :
  matches Eol pos w rest cs cs' -> w = "" /\ rest = "" /\ cs' = cs.
Proof. intros H. inversion H; subst. auto. Qed.

Lemma length_zero_empty s : String.length s = 0 -> s = "".
Proof. destruct s; [reflexivity | discriminate]. Qed.

(** A match of a pattern that starts with [^]. *)
Lemma exec_Bol r s m :
  exec (Cat Bol r) s = Some m ->
  exists w rest cs,
    s = (w ++ rest)%string /\ matched m = w /\ groups m = cs /\
    matches r 0 w rest [] cs.
Proof.
  intros H. apply exec_sound in H. destruct H as (pre & rest & E & I & M).
  apply matches_Cat in M. destruct M as (w1 & w2 & cs1 & W & M1 & M2).
  apply matches_Bol in M1. destruct M1 as (Z & -> & ->).
  rewrite Z in I. symmetry in I. apply length_zero_empty in I. subst pre.
  simpl in W. rewrite Z in M2. simpl in M2. rewrite W in E.
  exists w2, rest, (groups m). auto.
Qed.

(** A match of a pattern anywhere in the input. *)
Lemma exec_anywhere r s m :
  exec r s = Some m ->
  exists pre w rest cs,
    s = (pre ++ w ++ rest)%string /\ matched m = w /\ groups m = cs /\
    matches r (String.length pre) w rest [] cs.
Proof.
  intros H. apply exec_sound in H. destruct H as (pre & rest & E & I & M).
  rewrite I in M. exists pre, (matched m), rest, (groups m). auto.
Qed.

(** A comment has nothing but white space in front of its [#]. *)
Lemma reComment_match l m :
  exec reComment l = Some m ->
  exists ws rest,
    l = (ws ++ "#" ++ rest)%string /\ allIn [Space] ws = true.
Proof.
  intros H. apply exec_Bol in H. destruct H as (w & rest & cs & -> & _ & _ & M).
  apply matches_Cat in M. destruct M as (ws & w2 & cs1 & -> & M1 & M).
  apply matches_Star in M1. destruct M1 as (A & ->).
  apply matches_Chr in M. destruct M as (-> & _).
  exists ws, rest. cbn [append]; rewrite ?append_assoc, ?append_empty_r; cbn [append]. auto.
Qed.

Lemma reEventStart_match h m :
  exec reEventStart h = Some m ->
  exists a w sp d2 o sp' rest,
    h = (String a w ++ sp ++ d2 ++ o ++ sp' ++ rest)%string /\
    inCls [NonSpace] a = true /\ w <> "" /\ allIn [Dot] w = true /\
    sp <> "" /\ allIn [Space] sp = true /\
    d2 <> "" /\ allIn [Digit] d2 = true /\
    sp' <> "" /\ allIn [Space] sp' = true /\
    get m 1 = Some (String a w) /\
    get m 2 = Some d2 /\
    ((o = "" /\ get m 3 = None) \/
     exists sl d3,
       o = (sl ++ d3)%string /\ (sl = "" \/ sl = "/") /\
       d3 <> "" /\ allIn [Digit] d3 = true /\ get m 3 = Some d3).
Proof.
  intros H. apply exec_Bol in H. destruct H as (w0 & rest & cs & -> & _ & G & M).
  unfold get. rewrite G. clear G m.
  apply matches_Cat in M. destruct M as (w1 & t1 & cs1 & -> & M1 & M).
  apply matches_Group in M1. destruct M1 as (c1 & -> & M1).
  apply matches_Cat in M1. destruct M1 as (a1 & w & c1' & -> & Ma & Mw).
  apply matches_One in Ma. destruct Ma as (a & -> & Ha & ->).
  apply matches_PlusLazy in Mw. destruct Mw as (Nw & Hw & ->).
  apply matches_Cat in M. destruct M as (sp & t2 & cs2 & -> & Msp & M).
  apply matches_Plus in Msp. destruct Msp as (Nsp & Hsp & ->).
  apply matches_Cat in M. destruct M as (d2 & t3 & cs3 & -> & Md & M).
  apply matches_Group in Md. destruct Md as (c2 & -> & Md).
  apply matches_Plus in Md. destruct Md as (Nd & Hd & ->).
  apply matches_Cat in M. destruct M as (o & sp' & cs4 & -> & Mo & M).
  apply matches_Plus in M. destruct M as (Nsp' & Hsp' & ->).
  exists a, w, sp, d2, o, sp', rest. cbn [append]; rewrite ?append_assoc, ?append_empty_r; cbn [append].
  repeat (split; [solve [auto] |]).
  apply matches_Opt in Mo. destruct Mo as [(-> & ->) | (No & Mo)].
  - simpl. auto.
  - apply matches_Cat in Mo. destruct Mo as (sl & d3 & cs5 & -> & Msl & Md3).
    apply matches_Group in Md3. destruct Md3 as (c3 & -> & Md3).
    apply matches_Plus in Md3. destruct Md3 as (Nd3 & Hd3 & ->).
    assert (S : (sl = "" \/ sl = "/") /\ cs5 = [(2, d2); (1, String a w)]).
    { apply matches_Opt in Msl. destruct Msl as [(-> & ->) | (_ & Msl)]; [auto |].
      apply matches_Chr in Msl. destruct Msl as (-> & ->). auto. }
    destruct S as (Hsl & ->).
    simpl. split; [reflexivity |]. split; [reflexivity |].
    right. exists sl, d3. repeat split; auto.
Qed.

Lemma reTime_match h m :
  exec reTime h = Some m ->
  exists pre sp i f sp' rest,
    h = (pre ++ sp ++ i ++ "." ++ f ++ ":" ++ sp' ++ rest)%string /\
    sp <> "" /\ allIn [Space] sp = true /\
    i <> "" /\ allIn [Digit] i = true /\
    f <> "" /\ allIn [Digit] f = true /\
    sp' <> "" /\ allIn [Space] sp' = true /\
    get m 1 = Some (i ++ "." ++ f)%string.
Proof.
  intros H. apply exec_anywhere in H.
  destruct H as (pre & w0 & rest & cs & -> & _ & G & M).
  unfold get. rewrite G. clear G m.
  apply matches_Cat in M. destruct M as (sp & t1 & cs1 & -> & Msp & M).
  apply matches_Plus in Msp. destruct Msp as (Nsp & Hsp & ->).
  apply matches_Cat in M. destruct M as (g & t2 & cs2 & -> & Mg & M).
  apply matches_Group in Mg. destruct Mg as (c1 & -> & Mg).
  apply matches_Cat in Mg. destruct Mg as (i & t3 & cs3 & -> & Mi & Mg).
  apply matches_Plus in Mi. destruct Mi as (Ni & Hi & ->).
  apply matches_Cat in Mg. destruct Mg as (dot & f & cs4 & -> & Mdot & Mg).
  apply matches_Chr in Mdot. destruct Mdot as (-> & ->).
  apply matches_Plus in Mg. destruct Mg as (Nf & Hf & ->).
  apply matches_Cat in M. destruct M as (col & sp' & cs5 & -> & Mcol & M).
  apply matches_Chr in Mcol. destruct Mcol as (-> & ->).
  apply matches_Plus in M. destruct M as (Nsp' & Hsp' & ->).
  exists pre, sp, i, f, sp', rest. cbn [append]; rewrite ?append_assoc, ?append_empty_r; cbn [append].
  repeat (split; [solve [auto] |]). simpl. reflexivity.
Qed.

Lemma reEvName_match h m :
  exec reEvName h = Some m ->
  exists pre ty ws,
    h = (pre ++ ty ++ ":" ++ ws)%string /\
    ty <> "" /\ allIn [NonSpace] ty = true /\ allIn [Space] ws = true /\
    get m 1 = Some ty.
Proof.
  intros H. apply exec_anywhere in H.
  destruct H as (pre & w0 & rest & cs & -> & _ & G & M).
  unfold get. rewrite G. clear G m.
  apply matches_Cat in M. destruct M as (ty & t1 & cs1 & -> & Mty & M).
  apply matches_Group in Mty. destruct Mty as (c1 & -> & Mty).
  apply matches_Plus in Mty. destruct Mty as (Nty & Hty & ->).
  apply matches_Cat in M. destruct M as (col & t2 & cs2 & -> & Mcol & M).
  apply matches_Chr in Mcol. destruct Mcol as (-> & ->).
  apply matches_Cat in M. destruct M as (ws & e & cs3 & -> & Mws & M).
  apply matches_Star in Mws. destruct Mws as (Hws & ->).
  apply matches_Eol in M. destruct M as (-> & -> & ->).
  exists pre, ty, ws. cbn [append]; rewrite ?append_assoc, ?append_empty_r; cbn [append].
  repeat (split; [solve [auto] |]). simpl. reflexivity.
Qed.

Lemma reStackLine_match l m :
  exec reStackLine l = Some m ->
  exists ws hex sy o,
    l = (ws ++ hex ++ " " ++ sy ++ o)%string /\
    allIn [Space] ws = true /\
    hex <> "" /\ allIn hexDigit hex = true /\
    sy <> "" /\ allIn [Dot] sy = true /\
    get m 1 = Some hex /\
    get m 2 = Some sy /\
    ((o = "" /\ get m 4 = None) \/
     exists fl, o = (" (" ++ fl ++ ")")%string /\ allIn [NonSpace] fl = true /\
                get m 4 = Some fl).
Proof.
  intros H. apply exec_Bol in H. destruct H as (w0 & rest & cs & -> & _ & G & M).
  unfold get. rewrite G. clear G m.
  apply matches_Cat in M. destruct M as (ws & t1 & cs1 & -> & Mws & M).
  apply matches_Star in Mws. destruct Mws as (Hws & ->).
  apply matches_Cat in M. destruct M as (hex & t2 & cs2 & -> & Mhex & M).
  apply matches_Group in Mhex. destruct Mhex as (c1 & -> & Mhex).
  apply matches_Plus in Mhex. destruct Mhex as (Nhex & Hhex & ->).
  apply matches_Cat in M. destruct M as (bl & t3 & cs3 & -> & Mbl & M).
  apply matches_Chr in Mbl. destruct Mbl as (-> & ->).
  apply matches_Cat in M. destruct M as (sy & t4 & cs4 & -> & Msy & M).
  apply matches_Group in Msy. destruct Msy as (c2 & -> & Msy).
  apply matches_PlusLazy in Msy. destruct Msy as (Nsy & Hsy & ->).
  apply matches_Cat in M. destruct M as (o & e & cs5 & -> & Mo & M).
  apply matches_Eol in M. destruct M as (-> & -> & ->).
  exists ws, hex, sy, o. cbn [append]; rewrite ?append_assoc, ?append_empty_r; cbn [append].
  repeat (split; [solve [auto] |]).
  apply matches_Opt in Mo. destruct Mo as [(-> & ->) | (No & Mo)].
  - simpl. auto.
  - apply matches_Group in Mo. destruct Mo as (c3 & -> & Mo).
    apply matches_Cat in Mo. destruct Mo as (b1 & t5 & cs6 & -> & Mb1 & Mo).
    apply matches_Chr in Mb1. destruct Mb1 as (-> & ->).
    apply matches_Cat in Mo. destruct Mo as (b2 & t6 & cs7 & -> & Mb2 & Mo).
    apply matches_Chr in Mb2. destruct Mb2 as (-> & ->).
    apply matches_Cat in Mo. destruct Mo as (fl & t7 & cs8 & -> & Mfl & Mo).
    apply matches_Group in Mfl. destruct Mfl as (c4 & -> & Mfl).
    apply matches_Star in Mfl. destruct Mfl as (Hfl & ->).
    apply matches_Chr in Mo. destruct Mo as (-> & ->).
    simpl. split; [reflexivity |]. split; [reflexivity |].
    right. exists fl. auto.
Qed.

Lemma reSourceLine_match l m :
  exec reSourceLine l = Some m ->
  exists sp nm o1 o2,
    l = (sp ++ nm ++ o1 ++ o2)%string /\
    sp <> "" /\ allIn [Chr " "] sp = true /\
    nm <> "" /\ allIn sourceChar nm = true /\
    get m 1 = Some nm /\
    ((o1 = "" /\ get m 3 = None) \/
     exists d, o1 = (":" ++ d)%string /\ d <> "" /\ allIn [Digit] d = true /\
               get m 3 = Some d) /\
    (o2 = "" \/ o2 = " (inlined)").
Proof.
  intros H. apply exec_Bol in H. destruct H as (w0 & rest & cs & -> & _ & G & M).
  unfold get. rewrite G. clear G m.
  apply matches_Cat in M. destruct M as (sp & t1 & cs1 & -> & Msp & M).
  apply matches_Plus in Msp. destruct Msp as (Nsp & Hsp & ->).
  apply matches_Cat in M. destruct M as (nm & t2 & cs2 & -> & Mnm & M).
  apply matches_Group in Mnm. destruct Mnm as (c1 & -> & Mnm).
  apply matches_Plus in Mnm. destruct Mnm as (Nnm & Hnm & ->).
  apply matches_Cat in M. destruct M as (o1 & t3 & cs3 & -> & Mo1 & M).
  apply matches_Cat in M. destruct M as (o2 & e & cs4 & -> & Mo2 & M).
  apply matches_Eol in M. destruct M as (-> & -> & ->).
  exists sp, nm, o1, o2. cbn [append]; rewrite ?append_assoc, ?append_empty_r; cbn [append].
  repeat (split; [solve [auto] |]).
  assert (O2 : (o2 = "" /\ cs4 = cs3) \/
               (o2 = " (inlined)" /\ cs4 = (4, " (inlined)") :: cs3)).
  { apply matches_Opt in Mo2. destruct Mo2 as [(-> & ->) | (_ & Mo2)]; [auto |].
    right. apply matches_Group in Mo2. destruct Mo2 as (c4 & -> & Mo2).
    cbn [seq lit] in Mo2.
    repeat (let x := fresh "x" in let t := fresh "t" in let c := fresh "c" in
            let Mx := fresh "Mx" in
            apply matches_Cat in Mo2; destruct Mo2 as (x & t & c & -> & Mx & Mo2);
            apply matches_Chr in Mx; destruct Mx as (-> & ->)).
    apply matches_Chr in Mo2. destruct Mo2 as (-> & ->). auto. }
  apply matches_Opt in Mo1. destruct Mo1 as [(-> & ->) | (No & Mo1)].
  - destruct O2 as [(-> & ->) | (-> & ->)]; simpl; auto 6.
  - apply matches_Group in Mo1. destruct Mo1 as (c2 & -> & Mo1).
    apply matches_Cat in Mo1. destruct Mo1 as (col & d & cs5 & -> & Mcol & Mo1).
    apply matches_Chr in Mcol. destruct Mcol as (-> & ->).
    apply matches_Group in Mo1. destruct Mo1 as (c3 & -> & Mo1).
    apply matches_Plus in Mo1. destruct Mo1 as (Nd & Hd & ->).
    assert (Hd' : allIn [Digit] d = true).
    { clear - Hd. induction d as [| x d IH]; [reflexivity |].
      simpl in *. apply andb_prop in Hd. destruct Hd as [Hx Hd].
      rewrite (IH Hd), andb_true_r. unfold inCls in *. simpl in *. exact Hx. }
    destruct O2 as [(-> & ->) | (-> & ->)]; simpl;
      (split; [reflexivity |]); (split; [right; exists d; auto | auto]).
Qed.

(** What [replace] leaves of a symbol is the text in front of its offset. *)
Lemma replaceEmpty_reOffset_prefix s :
  exists t, s = (replaceEmpty reOffset s ++ t)%string.
Proof.
  unfold replaceEmpty. destruct (exec reOffset s) as [m |] eqn:E.
  - apply exec_sound in E. destruct E as (pre & rest & E & I & M).
    unfold reOffset in M. cbn [seq lit app] in M.
    repeat (let x := fresh "x" in let t := fresh "t" in let c := fresh "c" in
            let Mx := fresh "Mx" in
            apply matches_Cat in M; destruct M as (x & t & c & _ & Mx & M)).
    apply matches_Eol in M. destruct M as (_ & -> & _).
    rewrite I. subst s. rewrite take_app, drop_add, drop_app.
    rewrite append_empty_r, drop_length, append_empty_r.
    exists (matched m). reflexivity.
  - exists "". rewrite append_empty_r. reflexivity.
Qed.

End PatternFacts.

(** ** Greedy and lazy runs *)

Module RunFacts.
Import MatchFacts.

(** A greedy run takes all of [w] when the match goes on after it. *)
Lemma greedy_max c w rest : forall pos k res,
  allIn c w = true -> startsIn c rest = false ->
  k rest (pos + String.length w) = Some res ->
  greedy c (w ++ rest) pos k = Some res.
Proof.
  induction w as [| a w IH]; simpl; intros pos k res A N K.
  - rewrite Nat.add_0_r in K. destruct rest as [| b rest]; simpl; [assumption |].
    simpl in N. rewrite N. assumption.
  - apply andb_prop in A. destruct A as [Ha A]. rewrite Ha.
    rewrite (IH (S pos) k res A N); [reflexivity |].
    rewrite <- K. f_equal. lia.
Qed.

(** A greedy run fails when the match cannot go on after any part of it. *)
Lemma greedy_none c s : forall pos k,
  (forall u v, s = (u ++ v)%string -> allIn c u = true ->
               k v (pos + String.length u) = None) ->
  greedy c s pos k = None.
Proof.
  induction s as [| a s IH]; simpl; intros pos k H.
  - rewrite <- (Nat.add_0_r pos). apply (H "" ""); reflexivity.
  - assert (K : k (String a s) pos = None).
    { rewrite <- (Nat.add_0_r pos). apply (H "" (String a s)); reflexivity. }
    destruct (inCls c a) eqn:A; [| assumption].
    rewrite IH; [assumption |].
    intros u v -> U. replace (S pos + String.length u)
      with (pos + String.length (String a u)) by (simpl; lia).
    apply H; [reflexivity |]. simpl. rewrite A, U. reflexivity.
Qed.

(** A greedy run takes [w] when the match goes on after it, and after
    nothing longer. *)
Lemma greedy_pick c w rest : forall pos k res,
  allIn c w = true ->
  (forall u v, rest = (u ++ v)%string -> u <> "" -> allIn c u = true ->
               k v (pos + String.length w + String.length u) = None) ->
  k rest (pos + String.length w) = Some res ->
  greedy c (w ++ rest) pos k = Some res.
Proof.
  induction w as [| a w IH]; intros pos k res A H K.
  - cbn [append String.length] in *. rewrite Nat.add_0_r in *.
    destruct rest as [| b rest]; [exact K |].
    cbn [greedy]. destruct (inCls c b) eqn:B; [| exact K].
    rewrite greedy_none; [exact K |].
    intros u v -> U.
    replace (S pos + String.length u) with (pos + String.length (String b u))
      by (cbn [String.length]; lia).
    apply H; [reflexivity | discriminate |]. cbn [allIn]. rewrite B, U. reflexivity.
  - cbn [allIn] in A. apply andb_prop in A. destruct A as [Ha A].
    cbn [append greedy]. rewrite Ha.
    rewrite (IH (S pos) k res A); [reflexivity | |].
    + intros u v E N U. rewrite <- (H u v E N U). f_equal. cbn [String.length]. lia.
    + rewrite <- K. f_equal. cbn [String.length]. lia.
Qed.

(** A lazy run stops at the first place where the match goes on. *)
Lemma lazy_first c w rest : forall pos k res,
  allIn c w = true ->
  (forall u v, w = (u ++ v)%string -> v <> "" ->
               k (v ++ rest)%string (pos + String.length u) = None) ->
  k rest (pos + String.length w) = Some res ->
  lazy c (w ++ rest) pos k = Some res.
Proof.
  induction w as [| a w IH]; intros pos k res A H K.
  - simpl in *. rewrite Nat.add_0_r in K.
    destruct rest; simpl; rewrite K; reflexivity.
  - simpl in A. apply andb_prop in A. destruct A as [Ha A].
    cbn [append lazy].
    assert (K0 : k (String a (w ++ rest)) pos = None).
    { rewrite <- (Nat.add_0_r pos). apply (H "" (String a w)); [reflexivity | discriminate]. }
    rewrite K0, Ha. apply IH; [assumption | |].
    + intros u v -> V. replace (S pos + String.length u)
        with (pos + String.length (String a u)) by (simpl; lia).
      apply H; [reflexivity | assumption].
    + rewrite <- K. f_equal. simpl. lia.
Qed.

(** The search goes past the places where no match starts. *)
Lemma search_skip r pre : forall s pos,
  (forall p q, pre = (p ++ q)%string -> q <> "" ->
               attempt r (q ++ s) (pos + String.length p) = None) ->
  search r (pre ++ s) pos = search r s (pos + String.length pre).
Proof.
  induction pre as [| a pre IH]; intros s pos H.
  - simpl. rewrite Nat.add_0_r. reflexivity.
  - rewrite search_unfold. cbn [append].
    assert (K : attempt r (String a (pre ++ s)) pos = None).
    { rewrite <- (Nat.add_0_r pos). apply (H "" (String a pre)); [reflexivity | discriminate]. }
    rewrite K, IH.
    + f_equal. simpl. lia.
    + intros p q -> Q. replace (S pos + String.length p)
        with (pos + String.length (String a p)) by (simpl; lia).
      apply H; [reflexivity | assumption].
Qed.

Lemma startsIn_false_allIn c a s :
  inCls c a = false -> allIn c (String a s) = false.
Proof. intros H. simpl. rewrite H. reflexivity. Qed.

(** A line with nothing but white space in front of its [#] is a
    comment. *)
Lemma reComment_found ws rest :
  allIn [Space] ws = true -> exec reComment (ws ++ "#" ++ rest) <> None.
Proof.
  intros A. unfold exec. rewrite search_unfold. unfold attempt, reComment.
  cbn [seq run Nat.eqb].
  erewrite greedy_max with (res := (S (0 + String.length ws), []));
    [discriminate | assumption | reflexivity | reflexivity].
Qed.

End RunFacts.

(** ** The events and frames that [parseEvent] returns *)

Section StepFacts.
Import MatchFacts PatternFacts RunFacts.

Context {num : JSNumber}.

Lemma stackLineStep_eq st l :
  stackLineStep st l =
  Return match exec reStackLine l with
         | Some m => {| frames := frames st ++ [frameOf m];
                        lastWasSymbol := Some (List.length (frames st)) |}
         | None => st
         end.
Proof.
  unfold stackLineStep, frameOf.
  destruct (exec reStackLine l) as [m |] eqn:E; cbn [notNull negb bind deref];
    [| reflexivity].
  destruct (@getString_mandatory _ _ _ 1 E) as (g1 & G1 & ->);
    [vm_compute; auto | discriminate |].
  destruct (@getString_mandatory _ _ _ 2 E) as (g2 & G2 & ->);
    [vm_compute; auto | discriminate |].
  rewrite G1, G2. reflexivity.
Qed.

Lemma lineStep_lineNext st l : lineStep st l = Return (lineNext st l).
Proof.
  unfold lineStep, sourceLineStep, lineNext.
  destruct st as [fs [ref |]]; cbn [lastWasSymbol frames notNull bind].
  - destruct (exec reSourceLine l) as [m |] eqn:E; cbn [notNull bind deref].
    + destruct (@getString_mandatory _ _ _ 1 E) as (g1 & G1 & ->);
        [vm_compute; auto | discriminate |].
      unfold withSource. rewrite G1. reflexivity.
    + rewrite stackLineStep_eq. destruct (exec reStackLine l); reflexivity.
  - rewrite stackLineStep_eq. destruct (exec reStackLine l); reflexivity.
Qed.

Lemma lineLoop_fold lines : forall st,
  lineLoop st lines = Return (fold_left lineNext lines st).
Proof.
  induction lines as [| l lines IH]; intros st; simpl; [reflexivity |].
  rewrite lineStep_lineNext. simpl. apply IH.
Qed.

Lemma sourceChar_NonSpace a :
  inCls sourceChar a = true -> inCls [NonSpace] a = true.
Proof.
  destruct a as [[] [] [] [] [] [] [] []]; vm_compute; intros H;
    first [reflexivity | discriminate H].
Qed.

Lemma allIn_impl (c1 c2 : cls) s :
  (forall a, inCls c1 a = true -> inCls c2 a = true) ->
  allIn c1 s = true -> allIn c2 s = true.
Proof.
  intros H. induction s as [| a s IH]; simpl; [reflexivity |].
  intros A. apply andb_prop in A. destruct A as [Ha A].
  rewrite (H a Ha), (IH A). reflexivity.
Qed.

Lemma frameOf_wellFormed l m :
  exec reStackLine l = Some m -> wellFormedFrame (frameOf m).
Proof.
  intros E. apply reStackLine_match in E.
  destruct E as (ws & hex & sy & o & _ & _ & Nh & Hh & _ & Hs & G1 & G2 & G4).
  unfold wellFormedFrame, frameOf. cbn [address symbolName file line].
  rewrite G1, G2. cbn [toStr]. split; [| split; [| split]].
  - exists hex. auto.
  - destruct (replaceEmpty_reOffset_prefix sy) as (t & P).
    rewrite P, allIn_app in Hs. apply andb_prop in Hs. apply Hs.
  - intros fl F. destruct G4 as [(_ & G4) | (fl' & _ & Hf & G4)]; congruence.
  - discriminate.
Qed.

Lemma withSource_wellFormed l m f :
  exec reSourceLine l = Some m -> wellFormedFrame f ->
  wellFormedFrame (withSource m f).
Proof.
  intros E (Ha & Hs & _ & _). apply reSourceLine_match in E.
  destruct E as (sp & nm & o1 & o2 & _ & _ & _ & Nn & Hn & G1 & G3 & _).
  unfold wellFormedFrame, withSource. cbn [address symbolName file line].
  rewrite G1. cbn [toStr].
  split; [assumption |]. split; [assumption |]. split.
  - intros fl F. inversion F; subst.
    apply (allIn_impl sourceChar); [apply sourceChar_NonSpace | assumption].
  - intros n H. split; [discriminate |].
    destruct G3 as [(_ & G3) | (d & _ & Nd & Hd & G3)]; rewrite G3 in H;
      cbn [truthyString] in H; [discriminate |].
    apply String.eqb_neq in Nd. rewrite Nd in H. cbn [negb toStr] in H.
    inversion H; subst. exists d. rewrite <- String.eqb_neq. auto.
Qed.

Lemma lineNext_wellFormed st l :
  Forall wellFormedFrame (frames st) ->
  Forall wellFormedFrame (frames (lineNext st l)).
Proof.
  intros H.
  assert (K : Forall wellFormedFrame
                (frames match exec reStackLine l with
                        | Some m => {| frames := frames st ++ [frameOf m];
                                       lastWasSymbol := Some (List.length (frames st)) |}
                        | None => {| frames := frames st; lastWasSymbol := None |}
                        end)).
  { destruct (exec reStackLine l) as [m |] eqn:E; cbn [frames]; [| assumption].
    apply Forall_app. split; [assumption |]. constructor; [| constructor].
    eapply frameOf_wellFormed; eassumption. }
  unfold lineNext. destruct (lastWasSymbol st) as [ref |]; [| exact K].
  destruct (exec reSourceLine l) as [m |] eqn:E; [| exact K].
  cbn [frames]. apply Forall_modify; [| assumption].
  intros f. eapply withSource_wellFormed; eassumption.
Qed.

Lemma fold_lineNext_wellFormed lines : forall st,
  Forall wellFormedFrame (frames st) ->
  Forall wellFormedFrame (frames (fold_left lineNext lines st)).
Proof.
  induction lines as [| l lines IH]; intros st H; simpl; [assumption |].
  apply IH. apply lineNext_wellFormed. assumption.
Qed.

Lemma modify_length {A : Type} (f : A -> A) (a : list A) : forall i,
  List.length (modify i f a) = List.length a.
Proof.
  induction a as [| x a IH]; intros i; simpl; [reflexivity |].
  destruct i; simpl; [reflexivity | rewrite IH; reflexivity].
Qed.

Lemma fold_lineNext_length lines : forall st,
  List.length (frames (fold_left lineNext lines st)) <=
  List.length (frames st) + List.length lines.
Proof.
  induction lines as [| l lines IH]; intros st; simpl; [lia |].
  etransitivity; [apply IH |].
  assert (List.length (frames (lineNext st l)) <= S (List.length (frames st))); [| lia].
  unfold lineNext.
  destruct (lastWasSymbol st), (exec reSourceLine l), (exec reStackLine l);
    cbn [frames]; rewrite ?modify_length, ?length_app; simpl; lia.
Qed.

(** X14: every frame of an event that [parseEvent] returns is well formed: its
    address is [0x] and hexadecimal digits, its symbol has no line terminator,
    its file has no white space, and a line number comes with a file and is
    read from decimal digits. *)
Theorem frames_are_well_formed
    (rawEvent : list string) (ev : PerfEvent) (f : PerfStackFrame) :
  parseEvent rawEvent = Return (Some ev) ->
  In f (stack ev) ->
  (exists hex, address f = ("0x" ++ hex)%string /\ hex <> "" /\
               allIn hexDigit hex = true) /\
  allIn [Dot] (symbolName f) = true /\
  (forall fl, file f = Some fl -> allIn [NonSpace] fl = true) /\
  (forall n, line f = Some n ->
     file f <> None /\
     exists d, d <> "" /\ allIn [Digit] d = true /\ n = parseInt d).
Proof.
  destruct (parseEvent_cases rawEvent)
    as [[_ H] | [(_ & _ & H) | (m & cmd & st & _ & _ & _ & L & H)]];
    rewrite H; intros E; inversion E; subst; cbn [stack].
  intros Hin. apply in_rev in Hin.
  rewrite lineLoop_fold in L. inversion L; subst.
  pose proof (@fold_lineNext_wellFormed (bodyOf rawEvent)
                {| frames := []; lastWasSymbol := None |} (Forall_nil _)) as W.
  rewrite Forall_forall in W. exact (W f Hin).
Qed.

(** X15: the stack of an event has at most one frame for each line of the
    record after the header. *)
Theorem stack_is_no_longer_than_the_body (rawEvent : list string) (ev : PerfEvent) :
  parseEvent rawEvent = Return (Some ev) ->
  List.length (stack ev) <= List.length (bodyOf rawEvent) /\
  List.length (stack ev) < List.length rawEvent.
Proof.
  destruct (parseEvent_cases rawEvent)
    as [[_ H] | [(_ & _ & H) | (m & cmd & st & T & _ & _ & L & H)]];
    rewrite H; intros E; inversion E; subst; cbn [stack].
  rewrite lineLoop_fold in L. inversion L; subst.
  rewrite length_rev.
  pose proof (fold_lineNext_length (bodyOf rawEvent)
                {| frames := []; lastWasSymbol := None |}) as B.
  cbn [frames List.length Nat.add] in B. split; [assumption |].
  eapply Nat.le_lt_trans; [exact B |].
  unfold bodyOf, headerOf in *.
  pose proof (filter_length_le (fun l => negb (notNull (exec reComment l))) rawEvent) as F.
  destruct (filter _ rawEvent) as [| h ls]; [discriminate T |].
  simpl in *. lia.
Qed.

(** X13: the fields of an event that [parseEvent] returns are read off the
    header: the command is its first characters, at least two, and starts
    with a character that is not white space; the ids are read from decimal
    digits, the timestamp from digits, a point and digits; the event type has
    no white space. *)
Theorem event_fields_are_well_formed (rawEvent : list string) (ev : PerfEvent) :
  parseEvent rawEvent = Return (Some ev) ->
  (exists a w rest,
     command ev = Some (String a w) /\
     headerOf rawEvent = Some (String a w ++ rest)%string /\
     inCls [NonSpace] a = true /\ w <> "" /\ allIn [Dot] w = true) /\
  (exists d, d <> "" /\ allIn [Digit] d = true /\ threadID ev = Some (parseInt d)) /\
  (forall p, processID ev = Some p ->
     exists d, d <> "" /\ allIn [Digit] d = true /\ p = parseInt d) /\
  (forall t, time ev = Some t ->
     exists i f, i <> "" /\ allIn [Digit] i = true /\
                 f <> "" /\ allIn [Digit] f = true /\
                 t = parseFloat (i ++ "." ++ f)) /\
  allIn [NonSpace] (eventType ev) = true.
Proof.
  destruct (parseEvent_cases rawEvent)
    as [[_ H] | [(_ & _ & H) | (m & cmd & st & T & S & G & L & H)]];
    rewrite H; intros E; inversion E; subst;
    cbn [command threadID processID time eventType].
  clear E H L.
  destruct (headerOf rawEvent) as [h |] eqn:Hh; [| discriminate T].
  cbn [toStr] in *.
  apply reEventStart_match in S.
  destruct S as (a & w & sp & d2 & o & sp' & rest & -> & Ha & Nw & Hw & _ & _ &
                 Nd2 & Hd2 & _ & _ & G1 & G2 & G3).
  rewrite G in G1. inversion G1; subst cmd. unfold get in G2, G3. rewrite G2.
  split; [| split; [| split; [| split]]].
  - exists a, w, (sp ++ d2 ++ o ++ sp' ++ rest)%string. auto.
  - destruct G3 as [(_ & G3) | (sl & d3 & _ & _ & Nd3 & Hd3 & G3)]; rewrite G3;
      cbn [truthyString toStr].
    + exists d2. auto.
    + apply String.eqb_neq in Nd3. rewrite Nd3. cbn [negb].
      exists d3. rewrite <- String.eqb_neq. auto.
  - intros p. destruct G3 as [(_ & G3) | (sl & d3 & _ & _ & Nd3 & Hd3 & G3)];
      rewrite G3; cbn [truthyString toStr]; [discriminate |].
    apply String.eqb_neq in Nd3. rewrite Nd3. cbn [negb].
    intros P. inversion P; subst. exists d2. auto.
  - intros t. destruct (exec reTime _) as [tm |] eqn:Tm; [| discriminate].
    intros P. inversion P; subst.
    apply reTime_match in Tm.
    destruct Tm as (pre & s1 & i & f & s2 & r & _ & _ & _ & Ni & Hi & Nf & Hf & _ & _ & Gt).
    unfold get in Gt. rewrite Gt. exists i, f. auto 7.
  - destruct (exec reEvName _) as [em |] eqn:Em; [| reflexivity].
    apply reEvName_match in Em.
    destruct Em as (pre & ty & ws & _ & _ & Hty & _ & Ge).
    unfold get in Ge. rewrite Ge. exact Hty.
Qed.

End StepFacts.

(** ** The matcher, step by step *)

Module StepLemmas.
Import MatchFacts PatternFacts RunFacts.

(** What the matcher does not find is not a match: the converse of
    [run_sound]. *)
Lemma run_none r s pos cs k :
  (forall w rest cs', s = (w ++ rest)%string -> matches r pos w rest cs cs' ->
                      k rest (pos + String.length w) cs' = None) ->
  run r s pos cs k = None.
Proof.
  intros H. destruct (run r s pos cs k) as [res |] eqn:E; [| reflexivity].
  apply run_sound in E. destruct E as (w & rest & cs' & -> & M & K).
  rewrite (H w rest cs' eq_refl M) in K. discriminate.
Qed.

Lemma take_exact n w r : n = String.length w -> take n (w ++ r) = w.
Proof. intros ->. apply take_app. Qed.

Lemma run_Cat r1 r2 s pos cs k :
  run (Cat r1 r2) s pos cs k =
  run r1 s pos cs (fun s' pos' cs' => run r2 s' pos' cs' k).
Proof. reflexivity. Qed.

Lemma run_Bol r s cs k : run (Cat Bol r) s 0 cs k = run r s 0 cs k.
Proof. reflexivity. Qed.

Lemma run_Chr a rest pos cs k :
  run (One [Chr a]) (String a rest) pos cs k = k rest (S pos) cs.
Proof. cbn [run]. rewrite inCls_Chr, Ascii.eqb_refl. reflexivity. Qed.

Lemma run_Star_max c w rest pos cs k res :
  allIn c w = true -> startsIn c rest = false ->
  k rest (pos + String.length w) cs = Some res ->
  run (Star c) (w ++ rest) pos cs k = Some res.
Proof. intros A N K. cbn [run]. apply greedy_max; assumption. Qed.

Lemma run_Plus_max c w rest pos cs k res :
  w <> "" -> allIn c w = true -> startsIn c rest = false ->
  k rest (pos + String.length w) cs = Some res ->
  run (Plus c) (w ++ rest) pos cs k = Some res.
Proof.
  intros W A N K. destruct w as [| a w]; [contradiction |].
  cbn [allIn] in A. apply andb_prop in A. destruct A as [Ha A].
  cbn [run append]. rewrite Ha.
  apply greedy_max; [assumption | assumption |].
  rewrite <- K. f_equal. cbn [String.length]. lia.
Qed.

Lemma run_Group_Plus_max i c w rest pos cs k res :
  w <> "" -> allIn c w = true -> startsIn c rest = false ->
  k rest (pos + String.length w) ((i, w) :: cs) = Some res ->
  run (Group i (Plus c)) (w ++ rest) pos cs k = Some res.
Proof.
  intros W A N K.
  change (run (Plus c) (w ++ rest) pos cs
            (fun s' pos' cs' => k s' pos' ((i, take (pos' - pos) (w ++ rest)) :: cs'))
          = Some res).
  apply run_Plus_max; try assumption.
  rewrite take_exact by lia. assumption.
Qed.

Lemma run_Group_Star_max i c w rest pos cs k res :
  allIn c w = true -> startsIn c rest = false ->
  k rest (pos + String.length w) ((i, w) :: cs) = Some res ->
  run (Group i (Star c)) (w ++ rest) pos cs k = Some res.
Proof.
  intros A N K.
  change (run (Star c) (w ++ rest) pos cs
            (fun s' pos' cs' => k s' pos' ((i, take (pos' - pos) (w ++ rest)) :: cs'))
          = Some res).
  apply run_Star_max; try assumption.
  rewrite take_exact by lia. assumption.
Qed.

Lemma run_Group_Star_pick i c w rest pos cs k res :
  allIn c w = true ->
  (forall u v, rest = (u ++ v)%string -> u <> "" -> allIn c u = true ->
     k v (pos + String.length w + String.length u) ((i, w ++ u)%string :: cs) = None) ->
  k rest (pos + String.length w) ((i, w) :: cs) = Some res ->
  run (Group i (Star c)) (w ++ rest) pos cs k = Some res.
Proof.
  intros A H K.
  change (greedy c (w ++ rest) pos
            (fun s' pos' => k s' pos' ((i, take (pos' - pos) (w ++ rest)) :: cs))
          = Some res).
  apply greedy_pick; [assumption | |].
  - intros u v -> N U. cbv beta. rewrite <- append_assoc.
    rewrite take_exact by (rewrite length_append; lia).
    apply H; auto.
  - cbv beta. rewrite take_exact by lia. assumption.
Qed.

Lemma run_Group_Plus_pick i c w rest pos cs k res :
  w <> "" -> allIn c w = true ->
  (forall u v, rest = (u ++ v)%string -> u <> "" -> allIn c u = true ->
     k v (pos + String.length w + String.length u) ((i, w ++ u)%string :: cs) = None) ->
  k rest (pos + String.length w) ((i, w) :: cs) = Some res ->
  run (Group i (Plus c)) (w ++ rest) pos cs k = Some res.
Proof.
  intros W A H K. destruct w as [| a w]; [contradiction |].
  cbn [allIn] in A. apply andb_prop in A. destruct A as [Ha A].
  cbn [run append]. rewrite Ha.
  apply greedy_pick; [assumption | |].
  - intros u v -> N U. cbv beta.
    change (String a (w ++ u ++ v)) with (String a w ++ u ++ v)%string.
    rewrite <- append_assoc.
    rewrite take_exact by (rewrite length_append; cbn [String.length]; lia).
    rewrite <- (H u v eq_refl N U). f_equal. cbn [String.length]. lia.
  - cbv beta. change (String a (w ++ rest)) with (String a w ++ rest)%string.
    rewrite take_exact by (cbn [String.length]; lia).
    rewrite <- K. f_equal. cbn [String.length]. lia.
Qed.

(** A lazy group stops at the first place where the match goes on. *)
Lemma run_Group_PlusLazy_first i c w rest pos cs k res :
  w <> "" -> allIn c w = true ->
  (forall u v, w = (u ++ v)%string -> u <> "" -> v <> "" ->
               k (v ++ rest)%string (pos + String.length u) ((i, u) :: cs) = None) ->
  k rest (pos + String.length w) ((i, w) :: cs) = Some res ->
  run (Group i (PlusLazy c)) (w ++ rest) pos cs k = Some res.
Proof.
  intros W A H K. destruct w as [| a w]; [contradiction |].
  simpl in A. apply andb_prop in A. destruct A as [Ha A].
  cbn [run append]. rewrite Ha.
  apply lazy_first; [assumption | |].
  - intros u v -> V. cbv beta.
    replace (S pos + String.length u - pos) with (String.length (String a u))
      by (cbn [String.length]; lia).
    change (String a ((u ++ v) ++ rest)) with (String a (u ++ v) ++ rest)%string.
    change (String a (u ++ v)) with (String a u ++ v)%string.
    rewrite append_assoc, take_app.
    replace (S pos + String.length u) with (pos + String.length (String a u))
      by (simpl; lia).
    apply H; [reflexivity | discriminate | assumption].
  - cbv beta.
    replace (S pos + String.length w - pos) with (String.length (String a w))
      by (cbn [String.length]; lia).
    change (String a (w ++ rest)) with (String a w ++ rest)%string.
    rewrite take_app.
    rewrite <- K. f_equal. simpl. lia.
Qed.

Lemma run_Opt_take r s pos cs k res :
  run r s pos cs (fun s' pos' cs' =>
                    if Nat.eqb pos' pos then None else k s' pos' cs') = Some res ->
  run (Opt r) s pos cs k = Some res.
Proof. intros H. cbn [run]. rewrite H. reflexivity. Qed.

Lemma run_Opt_skip r s pos cs k :
  run r s pos cs (fun s' pos' cs' =>
                    if Nat.eqb pos' pos then None else k s' pos' cs') = None ->
  run (Opt r) s pos cs k = k s pos cs.
Proof. intros H. cbn [run]. rewrite H. reflexivity. Qed.

Lemma run_Group i r s pos cs k :
  run (Group i r) s pos cs k =
  run r s pos cs (fun s' pos' cs' => k s' pos' ((i, take (pos' - pos) s) :: cs')).
Proof. reflexivity. Qed.

Lemma exec_of_run r s e cs :
  run r s 0 [] (fun _ pos' cs' => Some (pos', cs')) = Some (e, cs) ->
  exec r s = Some {| index := 0; matched := take (e - 0) s; groups := cs |}.
Proof.
  intros H. unfold exec. rewrite search_unfold. unfold attempt. rewrite H. reflexivity.
Qed.

(** A pattern that starts with [^] matches at the start of the input or
    nowhere. *)
Lemma search_Bol_later r s : forall pos,
  0 < pos -> search (Cat Bol r) s pos = None.
Proof.
  induction s as [| a s IH]; intros pos P; rewrite search_unfold; unfold attempt;
    cbn [run]; destruct (Nat.eqb_spec pos 0); try lia; [reflexivity |].
  apply IH. lia.
Qed.

Lemma exec_Bol_none r s :
  run (Cat Bol r) s 0 [] (fun _ pos' cs' => Some (pos', cs')) = None ->
  exec (Cat Bol r) s = None.
Proof.
  intros H. unfold exec. rewrite search_unfold. unfold attempt. rewrite H.
  destruct s; [reflexivity |]. apply search_Bol_later. lia.
Qed.

End StepLemmas.

(** ** The lines of a printed record *)

Module PrintedFacts.
Import MatchFacts PatternFacts RunFacts StepLemmas.

Lemma hexDigit_not_Space a : inCls hexDigit a = true -> inCls [Space] a = false.
Proof. by_ascii a. Qed.

Lemma hexDigit_not_hash a : inCls hexDigit a = true -> Ascii.eqb a "#" = false.
Proof. by_ascii a. Qed.

Lemma sourceChar_not_Space a : inCls sourceChar a = true -> inCls [Space] a = false.
Proof. by_ascii a. Qed.

Lemma sourceChar_not_hash a : inCls sourceChar a = true -> Ascii.eqb a "#" = false.
Proof. by_ascii a. Qed.

Lemma Digit_not_Space a : inCls [Digit] a = true -> inCls [Space] a = false.
Proof. by_ascii a. Qed.

Lemma Digit_not_point a : inCls [Digit] a = true -> inCls [Chr "."] a = false.
Proof. by_ascii a. Qed.

Lemma Digit_not_slash a : inCls [Digit] a = true -> inCls [Chr "/"] a = false.
Proof. by_ascii a. Qed.

Lemma Space_not_Digit a : inCls [Space] a = true -> inCls [Digit] a = false.
Proof. by_ascii a. Qed.

Lemma Space_not_point a : inCls [Space] a = true -> inCls [Chr "."] a = false.
Proof. by_ascii a. Qed.

Lemma Space_not_slash a : inCls [Space] a = true -> inCls [Chr "/"] a = false.
Proof. by_ascii a. Qed.

Lemma Space_not_hash a : inCls [Space] a = true -> Ascii.eqb a "#" = false.
Proof. by_ascii a. Qed.

Lemma Space_not_colon a : inCls [Space] a = true -> inCls [Chr ":"] a = false.
Proof. by_ascii a. Qed.

Lemma blank_Space a : inCls [Chr " "] a = true -> inCls [Space] a = true.
Proof. by_ascii a. Qed.

Lemma not_Space_not_blank a : inCls [Space] a = false -> inCls [Chr " "] a = false.
Proof. by_ascii a. Qed.

Lemma NonSpace_Space a : inCls [NonSpace] a = negb (inCls [Space] a).
Proof. unfold inCls. simpl. rewrite !orb_false_r. reflexivity. Qed.

Lemma some_inv c s : Printed.some c s = true -> s <> "" /\ allIn c s = true.
Proof.
  unfold Printed.some. intros H. apply andb_prop in H. destruct H as [N A].
  split; [| assumption]. intros ->. discriminate.
Qed.

Lemma some_cons c s :
  Printed.some c s = true ->
  exists a s', s = String a s' /\ inCls c a = true /\ allIn c s' = true.
Proof.
  intros H. apply some_inv in H. destruct H as [N A].
  destruct s as [| a s']; [contradiction |].
  simpl in A. apply andb_prop in A. destruct A. eauto.
Qed.

Lemma startsIn_some c1 c2 s rest :
  Printed.some c1 s = true ->
  (forall a, inCls c1 a = true -> inCls c2 a = false) ->
  startsIn c2 (s ++ rest) = false.
Proof.
  intros H D. apply some_cons in H. destruct H as (a & s' & -> & Ha & _).
  simpl. auto.
Qed.

(** A run of a class in front of a character outside of it ends in front
    of that character. *)
Lemma prefix_before c u : forall A b B t,
  allIn c u = true -> inCls c b = false ->
  (A ++ String b B)%string = (u ++ t)%string ->
  exists t1, A = (u ++ t1)%string /\ t = (t1 ++ String b B)%string.
Proof.
  induction u as [| x u IH]; intros A b B t U Hb E.
  - exists A. simpl in E. auto.
  - simpl in U. apply andb_prop in U. destruct U as [Hx U].
    destruct A as [| y A]; simpl in E; inversion E; subst.
    + congruence.
    + destruct (IH A b B t U Hb H1) as (t1 & -> & ->). exists t1. auto.
Qed.

Lemma frameOk_inv f :
  Printed.frameOk f = true ->
  allIn [Space] (Printed.indent f) = true /\
  Printed.some hexDigit (Printed.address f) = true /\
  Printed.some [Dot] (Printed.symbol f) = true /\
  allIn [NonSpace] (Printed.file f) = true /\
  (forall s, Printed.source f = Some s -> Printed.sourceOk s = true).
Proof.
  unfold Printed.frameOk. intros H.
  apply andb_prop in H. destruct H as [H H5].
  apply andb_prop in H. destruct H as [H H4].
  apply andb_prop in H. destruct H as [H H3].
  apply andb_prop in H. destruct H as [H1 H2].
  repeat (split; [assumption |]).
  intros s E. rewrite E in H5. assumption.
Qed.

Lemma sourceOk_inv s :
  Printed.sourceOk s = true ->
  Printed.some [Chr " "] (Printed.sourceIndent s) = true /\
  Printed.some sourceChar (Printed.sourceFile s) = true /\
  Printed.some [Digit] (Printed.sourceLine s) = true.
Proof.
  unfold Printed.sourceOk. intros H.
  apply andb_prop in H. destruct H as [H H3].
  apply andb_prop in H. destruct H as [H1 H2]. auto.
Qed.

Lemma hexDigit_sourceChar a : inCls hexDigit a = true -> inCls sourceChar a = true.
Proof. by_ascii a. Qed.

(** A text has one longest start in a class. *)
Lemma span_unique c u : forall u' t t',
  allIn c u = true -> allIn c u' = true ->
  startsIn c t = false -> startsIn c t' = false ->
  (u ++ t)%string = (u' ++ t')%string -> u = u' /\ t = t'.
Proof.
  induction u as [| x u IH]; intros u' t t' U U' T T' E.
  - destruct u' as [| y u']; [auto |].
    cbn [append] in E. subst t. cbn [startsIn] in T.
    cbn [allIn] in U'. apply andb_prop in U'. destruct U' as [Hy _]. congruence.
  - cbn [allIn] in U. apply andb_prop in U. destruct U as [Hx U].
    destruct u' as [| y u'].
    + cbn [append] in E. subst t'. cbn [startsIn] in T'. congruence.
    + cbn [allIn] in U'. apply andb_prop in U'. destruct U' as [_ U'].
      cbn [append] in E. inversion E; subst.
      destruct (IH u' t t' U U' T T' H1) as [-> ->]. auto.
Qed.

(** The frame line is not taken for a source line, whatever its
    indentation: after the blanks and the address comes the symbol, which
    is neither a line number nor the mark of an inlined call. *)
Lemma stackLine_not_source f :
  Printed.frameOk f = true -> exec reSourceLine (Printed.stackLine f) = None.
Proof.
  intros H. apply frameOk_inv in H. destruct H as (I & A & Sy & _).
  destruct (exec reSourceLine (Printed.stackLine f)) as [m |] eqn:E;
    [exfalso | reflexivity].
  apply reSourceLine_match in E.
  destruct E as (sp & nm & o1 & o2 & E & Nsp & Hsp & Nnm & Hnm & _ & O1 & O2).
  unfold Printed.stackLine in E.
  pose proof A as A'. apply some_inv in A'. destruct A' as (Na & Ha).
  assert (S1 : Printed.indent f = sp /\
               (Printed.address f ++ " " ++ Printed.symbol f ++ " ("
                ++ Printed.file f ++ ")")%string = (nm ++ o1 ++ o2)%string).
  { apply (span_unique [Space]); try assumption.
    - eapply allIn_impl; [exact blank_Space | exact Hsp].
    - eapply startsIn_some; [exact A | exact hexDigit_not_Space].
    - destruct nm as [| x nm]; [contradiction |].
      cbn [allIn] in Hnm. apply andb_prop in Hnm. destruct Hnm as [Hx _].
      cbn [append startsIn]. apply sourceChar_not_Space, Hx. }
  destruct S1 as [_ S1].
  assert (S2 : Printed.address f = nm /\
               (" " ++ Printed.symbol f ++ " (" ++ Printed.file f ++ ")")%string
               = (o1 ++ o2)%string).
  { apply (span_unique sourceChar); try assumption.
    - eapply allIn_impl; [exact hexDigit_sourceChar | exact Ha].
    - reflexivity.
    - destruct O1 as [[-> _] | (d & -> & _)]; [| reflexivity].
      destruct O2 as [-> | ->]; reflexivity. }
  destruct S2 as [_ S2].
  destruct O1 as [[-> _] | (d & -> & _)]; [| discriminate S2].
  destruct O2 as [-> | ->]; [discriminate S2 |].
  cbn [append] in S2. inversion S2 as [S3].
  apply (f_equal (allIn [NonSpace])) in S3.
  rewrite allIn_app in S3. cbn in S3. rewrite andb_false_r in S3. discriminate.
Qed.

Lemma startsIn_append_nonempty c s rest :
  s <> "" -> startsIn c (s ++ rest) = startsIn c s.
Proof. destruct s; [contradiction | reflexivity]. Qed.

Lemma append_nil_inv (a b : string) : (a ++ b)%string = "" -> a = "" /\ b = "".
Proof. destruct a; [auto | discriminate]. Qed.

(** The symbol does not end before the file in parentheses. *)
Lemma fileTail_none v fl pos cs k :
  v <> "" -> allIn [NonSpace] fl = true ->
  run fileTail (v ++ " (" ++ fl ++ ")") pos cs k = None.
Proof.
  intros V Fl. apply run_none. intros w rest cs' E M. exfalso.
  unfold fileTail in M.
  apply matches_Cat in M. destruct M as (o & e & cs1 & -> & Mo & M).
  apply matches_Eol in M. destruct M as (-> & -> & ->).
  rewrite !append_empty_r in E.
  apply matches_Opt in Mo. destruct Mo as [(-> & _) | (_ & Mo)].
  - apply append_nil_inv in E. destruct E. contradiction.
  - apply matches_Group in Mo. destruct Mo as (c3 & _ & Mo).
    apply matches_Cat in Mo. destruct Mo as (b1 & t1 & c4 & -> & Mb1 & Mo).
    apply matches_Chr in Mb1. destruct Mb1 as (-> & _).
    apply matches_Cat in Mo. destruct Mo as (b2 & t2 & c5 & -> & Mb2 & Mo).
    apply matches_Chr in Mb2. destruct Mb2 as (-> & _).
    apply matches_Cat in Mo. destruct Mo as (fl' & t3 & c6 & -> & Mfl & Mo).
    apply matches_Group in Mfl. destruct Mfl as (c7 & _ & Mfl).
    apply matches_Star in Mfl. destruct Mfl as (Hfl' & _).
    apply matches_Chr in Mo. destruct Mo as (-> & _).
    destruct v as [| x [| y v]]; [contradiction | discriminate E |].
    cbn [append] in E. inversion E as [[Ex Ey E']].
    destruct (@prefix_before [NonSpace] fl' v " " ("(" ++ fl ++ ")") ")" Hfl'
                eq_refl E') as (t1 & _ & T).
    destruct t1 as [| z [| z' t1]]; discriminate T.
Qed.

(** The match of a stack line. *)
Lemma stackLine_match f :
  Printed.frameOk f = true ->
  exists m,
    exec reStackLine (Printed.stackLine f) = Some m /\
    get m 1 = Some (Printed.address f) /\
    get m 2 = Some (Printed.symbol f) /\
    get m 4 = Some (Printed.file f).
Proof.
  intros H. apply frameOk_inv in H. destruct H as (Hi & A & Sy & Fl & _).
  unfold Printed.stackLine.
  set (ws := Printed.indent f) in *. set (hex := Printed.address f) in *.
  set (sy := Printed.symbol f) in *. set (fl := Printed.file f) in *.
  clearbody ws hex sy fl.
  assert (R : exists e,
    run reStackLine (ws ++ hex ++ " " ++ sy ++ " (" ++ fl ++ ")") 0 []
      (fun _ pos' cs' => Some (pos', cs'))
    = Some (e, [(3, " (" ++ fl ++ ")"); (4, fl); (2, sy); (1, hex)]%string)).
  { eexists. unfold reStackLine. cbn [seq].
    rewrite run_Bol, run_Cat.
    apply run_Star_max; [assumption | |].
    { eapply startsIn_some; [exact A | exact hexDigit_not_Space]. }
    apply some_inv in A. destruct A as (Nh & Hh).
    apply some_inv in Sy. destruct Sy as (Ns & Hs).
    rewrite run_Cat.
    apply run_Group_Plus_max; [assumption | assumption | reflexivity |].
    rewrite run_Cat. cbn [append]. rewrite run_Chr, run_Cat.
    apply run_Group_PlusLazy_first; [assumption | assumption | |].
    { intros u v _ _ V. apply fileTail_none; assumption. }
    rewrite run_Cat. apply run_Opt_take.
    rewrite run_Group, run_Cat. cbn [append]. rewrite run_Chr, run_Cat, run_Chr, run_Cat.
    apply run_Group_Star_pick; [assumption | |].
    { intros u v E N _. destruct u as [| x [| y u]]; [contradiction | |];
        inversion E; subst. reflexivity. }
    rewrite run_Chr.
    match goal with
    | |- (if Nat.eqb ?x ?y then _ else _) = _ =>
        replace (Nat.eqb x y) with false by (symmetry; apply Nat.eqb_neq; lia)
    end.
    cbn [run].
    match goal with
    | |- context [take ?n ?s] =>
        replace n with (String.length s)
          by (cbn [String.length]; rewrite length_append; cbn [String.length]; lia)
    end.
    rewrite take_length. reflexivity. }
  destruct R as (e & R). apply exec_of_run in R.
  eexists. split; [exact R |]. repeat split.
Qed.

Lemma allIn_Rng_Digit d : allIn [Rng "0" "9"] d = allIn [Digit] d.
Proof. induction d as [| a d IH]; [reflexivity |]. cbn [allIn]. rewrite IH. reflexivity. Qed.

(** The match of a source line. *)
Lemma sourceLine_match s :
  Printed.sourceOk s = true ->
  exists m,
    exec reSourceLine (Printed.sourceLineOf s) = Some m /\
    get m 1 = Some (Printed.sourceFile s) /\
    get m 3 = Some (Printed.sourceLine s).
Proof.
  intros H. apply sourceOk_inv in H. destruct H as (I & F & L).
  unfold Printed.sourceLineOf.
  set (sp := Printed.sourceIndent s) in *. set (nm := Printed.sourceFile s) in *.
  set (d := Printed.sourceLine s) in *. clearbody sp nm d.
  assert (R : exists e,
    run reSourceLine (sp ++ nm ++ ":" ++ d) 0 []
      (fun _ pos' cs' => Some (pos', cs'))
    = Some (e, [(2, ":" ++ d); (3, d); (1, nm)]%string)).
  { eexists. unfold reSourceLine. cbn [seq].
    rewrite run_Bol, run_Cat.
    pose proof F as F0.
    apply some_inv in I. destruct I as (Ni & Hi).
    apply some_inv in F. destruct F as (Nf & Hf).
    apply some_inv in L. destruct L as (Nl & Hl).
    apply run_Plus_max; [assumption | assumption | |].
    { eapply startsIn_some; [exact F0 |].
      intros a Ha. apply not_Space_not_blank, sourceChar_not_Space. assumption. }
    rewrite run_Cat.
    apply run_Group_Plus_max; [assumption | assumption | reflexivity |].
    rewrite run_Cat. apply run_Opt_take.
    rewrite run_Group, run_Cat. cbn [append]. rewrite run_Chr.
    rewrite <- (append_empty_r d) at 1.
    apply run_Group_Plus_max;
      [assumption | rewrite allIn_Rng_Digit; exact Hl | reflexivity |].
    match goal with
    | |- (if Nat.eqb ?x ?y then _ else _) = _ =>
        replace (Nat.eqb x y) with false by (symmetry; apply Nat.eqb_neq; lia)
    end.
    rewrite run_Cat, run_Opt_skip by reflexivity.
    cbn [run].
    match goal with
    | |- context [take ?n ?t] =>
        replace n with (String.length t)
          by (cbn [String.length]; lia)
    end.
    rewrite take_length. reflexivity. }
  destruct R as (e & R). apply exec_of_run in R.
  eexists. split; [exact R |]. repeat split.
Qed.

Section Lines.

Context {num : JSNumber}.

Lemma modify_last {A : Type} (f : A -> A) (a : list A) (x : A) :
  modify (List.length a) f (a ++ [x]) = a ++ [f x].
Proof. induction a as [| y a IH]; simpl; [| rewrite IH]; reflexivity. Qed.

(** What the loop over the lines does with the lines of a printed frame. *)
Lemma lineNext_frameLines f : forall st,
  Printed.frameOk f = true ->
  exists l,
    fold_left lineNext (Printed.frameLines f) st =
    {| frames := frames st ++ [frameOfPrinted f]; lastWasSymbol := l |}.
Proof.
  intros st H.
  destruct (stackLine_match f H) as (m & E & G1 & G2 & G4).
  pose proof (stackLine_not_source f H) as N.
  assert (S1 : lineNext st (Printed.stackLine f) =
               {| frames := frames st ++ [frameOf m];
                  lastWasSymbol := Some (List.length (frames st)) |}).
  { unfold lineNext. rewrite N, E. destruct (lastWasSymbol st); reflexivity. }
  unfold Printed.frameLines. cbn [fold_left]. rewrite S1.
  unfold frameOf, frameOfPrinted. rewrite G1, G2, G4. cbn [toStr].
  destruct (Printed.source f) as [s |] eqn:Es; cbn [fold_left].
  - apply frameOk_inv in H. destruct H as (_ & _ & _ & _ & Hs).
    destruct (sourceLine_match s (Hs s Es)) as (m' & E' & G1' & G3').
    unfold lineNext. cbn [lastWasSymbol frames]. rewrite E', modify_last.
    unfold withSource. cbn [address symbolName]. rewrite G1', G3'.
    cbn [toStr truthyString].
    destruct (sourceOk_inv s (Hs s Es)) as (_ & _ & L).
    apply some_inv in L. destruct L as (Nl & _).
    apply String.eqb_neq in Nl. rewrite Nl. cbn [negb]. eauto.
  - eauto.
Qed.

Lemma lineNext_frames fs : forall st,
  forallb Printed.frameOk fs = true ->
  frames (fold_left lineNext (flat_map Printed.frameLines fs) st) =
  frames st ++ map frameOfPrinted fs.
Proof.
  induction fs as [| f fs IH]; intros st H; cbn [flat_map map].
  - cbn [fold_left]. rewrite app_nil_r. reflexivity.
  - cbn [forallb] in H. apply andb_prop in H. destruct H as [Hf H].
    rewrite fold_left_app.
    destruct (lineNext_frameLines f st Hf) as (l & ->).
    rewrite IH by assumption. cbn [frames]. rewrite <- app_assoc. reflexivity.
Qed.

End Lines.

End PrintedFacts.

(** ** The start of a printed header *)

Module HeaderFacts.
Import MatchFacts PatternFacts RunFacts StepLemmas PrintedFacts.

Lemma commandOk_inv s :
  Printed.commandOk s = true ->
  exists a w,
    s = String a w /\ inCls [NonSpace] a = true /\ Ascii.eqb a "#" = false /\
    w <> "" /\ allIn [Dot] w = true /\
    Printed.endsIn [NonSpace] w = true /\ Printed.noBlankDigit w = true.
Proof.
  destruct s as [| a w]; [discriminate |]. cbn [Printed.commandOk]. intros H.
  apply andb_prop in H. destruct H as [H H5].
  apply andb_prop in H. destruct H as [H H4].
  apply andb_prop in H. destruct H as [H H3].
  apply andb_prop in H. destruct H as [H1 H2].
  apply negb_true_iff in H2. apply some_inv in H3. destruct H3 as [N D].
  exists a, w. auto 10.
Qed.

Lemma headerOk_inv h :
  Printed.headerOk h = true ->
  Printed.commandOk (Printed.command h) = true /\
  Printed.some [Space] (Printed.gap1 h) = true /\
  (forall p, Printed.pid h = Some p -> Printed.some [Digit] p = true) /\
  Printed.some [Digit] (Printed.tid h) = true /\
  Printed.some [Space] (Printed.gap2 h) = true /\
  Printed.some [Digit] (Printed.seconds h) = true /\
  Printed.some [Digit] (Printed.fraction h) = true /\
  Printed.some [Space] (Printed.gap3 h) = true /\
  Printed.some [NonSpace] (Printed.eventType h) = true.
Proof.
  unfold Printed.headerOk. intros H.
  apply andb_prop in H. destruct H as [H H9].
  apply andb_prop in H. destruct H as [H H8].
  apply andb_prop in H. destruct H as [H H7].
  apply andb_prop in H. destruct H as [H H6].
  apply andb_prop in H. destruct H as [H H5].
  apply andb_prop in H. destruct H as [H H4].
  apply andb_prop in H. destruct H as [H H3].
  apply andb_prop in H. destruct H as [H1 H2].
  repeat (split; [assumption |]).
  split; [| auto 10].
  intros p E. rewrite E in H3. assumption.
Qed.

Lemma endsIn_app c u v : v <> "" -> Printed.endsIn c (u ++ v) = Printed.endsIn c v.
Proof.
  intros V. induction u as [| a u IH]; [reflexivity |].
  cbn [append Printed.endsIn]. rewrite IH.
  destruct (u ++ v)%string eqn:E; [| reflexivity].
  apply append_nil_inv in E. destruct E. contradiction.
Qed.

Lemma noBlankDigit_app u v :
  Printed.noBlankDigit (u ++ v) = true -> Printed.noBlankDigit v = true.
Proof.
  induction u as [| a u IH]; [auto |].
  cbn [append Printed.noBlankDigit]. intros H. apply andb_prop in H. apply IH, H.
Qed.

(** After white space of a command there is no digit. *)
Lemma after_blanks u : forall b v R t,
  inCls [Space] b = true ->
  Printed.endsIn [NonSpace] (String b v) = true ->
  Printed.noBlankDigit (String b v) = true ->
  (v ++ R)%string = (u ++ t)%string -> allIn [Space] u = true ->
  startsIn [Digit] t = false.
Proof.
  induction u as [| x u IH]; intros b v R t B En Nb E U.
  - cbn [append] in E. subst t.
    destruct v as [| c v].
    + cbn [Printed.endsIn] in En. rewrite NonSpace_Space, B in En. discriminate.
    + cbn [Printed.noBlankDigit] in Nb. apply andb_prop in Nb. destruct Nb as [Nb _].
      rewrite B in Nb. cbn [andb startsIn] in Nb. apply negb_true_iff in Nb.
      exact Nb.
  - cbn [allIn] in U. apply andb_prop in U. destruct U as [Hx U].
    destruct v as [| c v].
    + cbn [Printed.endsIn] in En. rewrite NonSpace_Space, B in En. discriminate.
    + cbn [append] in E. inversion E; subst.
      eapply IH; try eassumption.
      cbn [Printed.noBlankDigit] in Nb. apply andb_prop in Nb. apply Nb.
Qed.

(** White space and a number do not start inside of a command. *)
Lemma blankDigit_none q R pos cs r k :
  q <> "" -> Printed.endsIn [NonSpace] q = true -> Printed.noBlankDigit q = true ->
  (forall t p c, startsIn [Digit] t = false -> run r t p c k = None) ->
  run (Cat (Plus [Space]) r) (q ++ R) pos cs k = None.
Proof.
  intros Q En Nb H. destruct q as [| b v]; [contradiction |].
  rewrite run_Cat. cbn [run append].
  destruct (inCls [Space] b) eqn:B; [| reflexivity].
  apply greedy_none. intros u t E U. apply H.
  eapply after_blanks; eassumption.
Qed.

Lemma run_Plus_none c s pos cs k :
  (forall u v, s = (u ++ v)%string -> u <> "" -> allIn c u = true ->
               k v (pos + String.length u) cs = None) ->
  run (Plus c) s pos cs k = None.
Proof.
  intros H. cbn [run]. destruct s as [| a s]; [reflexivity |].
  destruct (inCls c a) eqn:A; [| reflexivity].
  apply greedy_none. intros u v -> U.
  replace (S pos + String.length u) with (pos + String.length (String a u))
    by (cbn [String.length]; lia).
  apply H; [reflexivity | discriminate |]. cbn [allIn]. rewrite A, U. reflexivity.
Qed.

Lemma digits_start_none r t p c k :
  startsIn [Digit] t = false ->
  run (Cat (Group 2 (Plus [Digit])) r) t p c k = None.
Proof.
  intros H. rewrite run_Cat, run_Group. cbn [run].
  destruct t as [| x t]; [reflexivity |]. cbn [startsIn] in H. rewrite H. reflexivity.
Qed.

(** The command group ends at the first place where the match goes on. *)
Lemma commandGroup_first a w rest pos cs k res :
  inCls [NonSpace] a = true -> w <> "" -> allIn [Dot] w = true ->
  (forall u v, w = (u ++ v)%string -> u <> "" -> v <> "" ->
     k (v ++ rest)%string (S pos + String.length u) ((1, String a u) :: cs) = None) ->
  k rest (S pos + String.length w) ((1, String a w) :: cs) = Some res ->
  run (Group 1 (Cat (One [NonSpace]) (PlusLazy [Dot]))) (String a w ++ rest) pos cs k
  = Some res.
Proof.
  intros Ha W A H K. rewrite run_Group, run_Cat. cbn [run append]. rewrite Ha.
  destruct w as [| b w]; [contradiction |].
  cbn [allIn] in A. apply andb_prop in A. destruct A as [Hb A].
  cbn [append]. rewrite Hb.
  apply lazy_first; [assumption | |].
  - intros u v -> V. cbv beta.
    replace (S (S pos) + String.length u - pos)
      with (String.length (String a (String b u))) by (cbn [String.length]; lia).
    change (String a (String b ((u ++ v) ++ rest)))
      with (String a (String b (u ++ v)) ++ rest)%string.
    change (String a (String b (u ++ v))) with (String a (String b u) ++ v)%string.
    rewrite append_assoc, take_app.
    rewrite <- (H (String b u) v eq_refl); [| discriminate | assumption].
    f_equal. cbn [String.length]. lia.
  - cbv beta.
    replace (S (S pos) + String.length w - pos)
      with (String.length (String a (String b w))) by (cbn [String.length]; lia).
    change (String a (String b (w ++ rest)))
      with (String a (String b w) ++ rest)%string.
    rewrite take_app. rewrite <- K. f_equal. cbn [String.length]. lia.
Qed.

Lemma headerLine_parts h :
  Printed.headerLine h = (Printed.command h ++ Printed.gap1 h ++ Printed.ids h ++ Printed.fromTime h)%string.
Proof.
  unfold Printed.headerLine, Printed.ids, Printed.fromTime.
  destruct (Printed.pid h); rewrite ?append_assoc; reflexivity.
Qed.

Lemma timeOn_starts h c :
  Printed.headerOk h = true ->
  (forall a, inCls [Space] a = true -> inCls c a = false) ->
  startsIn c (Printed.fromTime h) = false.
Proof.
  intros H D. apply headerOk_inv in H.
  destruct H as (_ & _ & _ & _ & G2 & _).
  unfold Printed.fromTime. eapply startsIn_some; eassumption.
Qed.

(** The match of the start of a header. *)
Lemma eventStart_match h :
  Printed.headerOk h = true ->
  exists m,
    exec reEventStart (Printed.headerLine h) = Some m /\
    get m 1 = Some (Printed.command h) /\
    match Printed.pid h with
    | Some p => get m 2 = Some p /\ get m 3 = Some (Printed.tid h)
    | None => get m 2 = Some (Printed.tid h) /\ get m 3 = None
    end.
Proof.
  intros H. pose proof (timeOn_starts h [Digit] H Space_not_Digit) as TS.
  rewrite headerLine_parts.
  apply headerOk_inv in H.
  destruct H as (C & G1 & P & T & G2 & Se & Fr & G3 & Ty).
  apply commandOk_inv in C.
  destruct C as (a & w & Ec & Ha & _ & Nw & Hw & En & Nb).
  assert (R : exists e cs,
    run reEventStart (Printed.command h ++ Printed.gap1 h ++ Printed.ids h ++ Printed.fromTime h) 0 []
      (fun _ pos' cs' => Some (pos', cs')) = Some (e, cs) /\
    capture 1 cs = Some (Printed.command h) /\
    match Printed.pid h with
    | Some p => capture 2 cs = Some p /\ capture 3 cs = Some (Printed.tid h)
    | None => capture 2 cs = Some (Printed.tid h) /\ capture 3 cs = None
    end).
  { rewrite Ec. unfold reEventStart. cbn [seq].
    assert (G2' : exists g gap, Printed.gap2 h = String g gap /\ inCls [Space] g = true).
    { apply some_cons in G2. destruct G2 as (g & gap & -> & Hg & _). eauto. }
    destruct G2' as (g & gap & Eg & Hg).
    pose proof G1 as G1'. apply some_inv in G1'. destruct G1' as (N1 & H1).
    pose proof T as T'. apply some_inv in T'. destruct T' as (Nt & Ht).
    pose proof G2 as G2'. apply some_inv in G2'. destruct G2' as (N2 & H2).
    unfold Printed.ids. destruct (Printed.pid h) as [p |] eqn:Ep.
    - pose proof (P p eq_refl) as Pp. pose proof Pp as Pp'.
      apply some_inv in Pp'. destruct Pp' as (Np & Hp).
      eexists _, [(3, Printed.tid h); (2, p); (1, String a w)].
      split; [| repeat split].
      rewrite run_Bol, run_Cat.
      apply commandGroup_first; [assumption | assumption | assumption | |].
      { intros u v -> U V. apply blankDigit_none; [assumption | | |].
        - rewrite endsIn_app in En; assumption.
        - eapply noBlankDigit_app; eassumption.
        - intros t q c. apply digits_start_none. }
      rewrite run_Cat.
      apply run_Plus_max; [assumption | assumption | |].
      { rewrite !append_assoc. eapply startsIn_some; [exact Pp | exact Digit_not_Space]. }
      rewrite run_Cat, !append_assoc.
      apply run_Group_Plus_max; [assumption | assumption | reflexivity |].
      rewrite run_Cat. apply run_Opt_take.
      rewrite run_Cat. apply run_Opt_take. cbn [append]. rewrite run_Chr.
      pass_guard.
      apply run_Group_Plus_max; [assumption | assumption | assumption |].
      pass_guard.
      unfold Printed.fromTime.
      apply run_Plus_max; [assumption | assumption | |].
      { eapply startsIn_some; [exact Se | exact Digit_not_Space]. }
      reflexivity.
    - eexists _, [(2, Printed.tid h); (1, String a w)].
      split; [| repeat split].
      rewrite run_Bol, run_Cat.
      apply commandGroup_first; [assumption | assumption | assumption | |].
      { intros u v -> U V. apply blankDigit_none; [assumption | | |].
        - rewrite endsIn_app in En; assumption.
        - eapply noBlankDigit_app; eassumption.
        - intros t q c. apply digits_start_none. }
      rewrite run_Cat.
      apply run_Plus_max; [assumption | assumption | |].
      { cbn [append]. eapply startsIn_some; [exact T | exact Digit_not_Space]. }
      rewrite run_Cat. cbn [append].
      apply run_Group_Plus_max; [assumption | assumption | assumption |].
      rewrite run_Cat, run_Opt_skip.
      + unfold Printed.fromTime.
        apply run_Plus_max; [assumption | assumption | |].
        { eapply startsIn_some; [exact Se | exact Digit_not_Space]. }
        reflexivity.
      + unfold Printed.fromTime. rewrite Eg. rewrite run_Cat. cbn [run append].
        rewrite (Space_not_slash _ Hg), (Space_not_Digit _ Hg). reflexivity. }
  destruct R as (e & cs & R & C1 & C23). apply exec_of_run in R.
  eexists. split; [exact R |]. split; [exact C1 | exact C23].
Qed.

End HeaderFacts.

(** ** The timestamp and the event type of a printed header *)

Module HeaderSearch.
Import MatchFacts PatternFacts RunFacts StepLemmas PrintedFacts HeaderFacts.

Lemma search_of_run r s pos e cs :
  run r s pos [] (fun _ pos' cs' => Some (pos', cs')) = Some (e, cs) ->
  search r s pos = Some {| index := pos; matched := take (e - pos) s; groups := cs |}.
Proof. intros H. rewrite search_unfold. unfold attempt. rewrite H. reflexivity. Qed.

Lemma attempt_none r s pos :
  run r s pos [] (fun _ pos' cs' => Some (pos', cs')) = None ->
  attempt r s pos = None.
Proof. intros H. unfold attempt. rewrite H. reflexivity. Qed.

Lemma NonSpace_not_Space a : inCls [NonSpace] a = true -> inCls [Space] a = false.
Proof. rewrite NonSpace_Space. apply negb_true_iff. Qed.

Lemma Space_not_NonSpace a : inCls [Space] a = true -> inCls [NonSpace] a = false.
Proof. rewrite NonSpace_Space. intros ->. reflexivity. Qed.

Lemma idChar_not_Space a : inCls [Digit; Chr "/"] a = true -> inCls [Space] a = false.
Proof. by_ascii a. Qed.

Lemma Digit_idChar a : inCls [Digit] a = true -> inCls [Digit; Chr "/"] a = true.
Proof. by_ascii a. Qed.

Lemma allIn_suffix c p q : allIn c (p ++ q) = true -> allIn c q = true.
Proof. rewrite allIn_app. intros H. apply andb_prop in H. apply H. Qed.

Lemma allIn_prefix c p q : allIn c (p ++ q) = true -> allIn c p = true.
Proof. rewrite allIn_app. intros H. apply andb_prop in H. apply H. Qed.

Lemma startsIn_allIn c1 c2 s rest :
  s <> "" -> allIn c1 s = true ->
  (forall a, inCls c1 a = true -> inCls c2 a = false) ->
  startsIn c2 (s ++ rest) = false.
Proof.
  intros N A D. destruct s as [| a s]; [contradiction |].
  cbn [allIn] in A. apply andb_prop in A. destruct A as [Ha _].
  cbn [append startsIn]. auto.
Qed.

(** The ids of a header are digits in front of a slash or of white
    space. *)
Lemma ids_form h :
  Printed.headerOk h = true ->
  allIn [Digit; Chr "/"] (Printed.ids h) = true /\
  exists D z Z,
    (Printed.ids h ++ Printed.fromTime h)%string = (D ++ String z Z)%string /\
    D <> "" /\ allIn [Digit] D = true /\
    inCls [Digit] z = false /\ inCls [Chr "."] z = false.
Proof.
  intros H. apply headerOk_inv in H.
  destruct H as (_ & _ & P & T & G2 & _).
  pose proof T as T'. apply some_inv in T'. destruct T' as (Nt & Ht).
  apply some_cons in G2. destruct G2 as (g & gap & Eg & Hg & _).
  assert (F : exists Z, Printed.fromTime h = String g Z).
  { unfold Printed.fromTime. rewrite Eg. cbn [append]. eauto. }
  destruct F as (Z & F). rewrite F.
  unfold Printed.ids. destruct (Printed.pid h) as [p |].
  - specialize (P p eq_refl). apply some_inv in P. destruct P as (Np & Hp). split.
    + rewrite !allIn_app.
      rewrite (@allIn_impl [Digit] [Digit; Chr "/"] p Digit_idChar Hp).
      rewrite (@allIn_impl [Digit] [Digit; Chr "/"] _ Digit_idChar Ht). reflexivity.
    + exists p, "/"%char, (Printed.tid h ++ String g Z)%string.
      rewrite !append_assoc. cbn [append]. repeat split; auto.
  - split.
    + cbn [append]. exact (@allIn_impl [Digit] [Digit; Chr "/"] _ Digit_idChar Ht).
    + exists (Printed.tid h), g, Z. cbn [append].
      repeat split; auto using Space_not_Digit, Space_not_point.
Qed.

Lemma time_start_none r1 r t p c k :
  startsIn [Digit] t = false ->
  run (Cat (Group 1 (Cat (Plus [Digit]) r1)) r) t p c k = None.
Proof.
  intros H. rewrite run_Cat, run_Group, run_Cat. cbn [run].
  destruct t as [| x t]; [reflexivity |]. cbn [startsIn] in H. rewrite H. reflexivity.
Qed.

(** Digits that no point follows are not the start of a timestamp. *)
Lemma digits_no_point_none D z Z r1 r pos cs k :
  allIn [Digit] D = true -> inCls [Digit] z = false -> inCls [Chr "."] z = false ->
  run (Cat (Group 1 (Cat (Plus [Digit]) (Cat (One [Chr "."]) r1))) r)
      (D ++ String z Z) pos cs k = None.
Proof.
  intros HD Hz Hp. rewrite run_Cat, run_Group, run_Cat.
  apply run_Plus_none. intros u v E U A.
  destruct (@prefix_before [Digit] u D z Z v A Hz E) as (t1 & -> & ->).
  apply allIn_suffix in HD.
  rewrite run_Cat. cbn [run].
  destruct t1 as [| d t1]; cbn [append].
  - rewrite Hp. reflexivity.
  - cbn [allIn] in HD. apply andb_prop in HD. destruct HD as [Hd _].
    rewrite (Digit_not_point _ Hd). reflexivity.
Qed.

(** The match of the timestamp of a header. *)
Lemma time_match h :
  Printed.headerOk h = true ->
  exists m,
    exec reTime (Printed.headerLine h) = Some m /\
    get m 1 = Some (Printed.seconds h ++ "." ++ Printed.fraction h)%string.
Proof.
  intros H. destruct (@ids_form h H) as (Hids & D & z & Z & EY & ND & HD & Hz & Hp).
  rewrite headerLine_parts. unfold exec.
  apply headerOk_inv in H.
  destruct H as (C & G1 & P & T & G2 & Se & Fr & G3 & Ty).
  apply commandOk_inv in C.
  destruct C as (a & w & Ec & Ha & _ & Nw & Hw & En & Nb).
  apply some_inv in G1. destruct G1 as (N1 & H1).
  pose proof Se as Se'. apply some_inv in Se'. destruct Se' as (Ns & Hs).
  pose proof Fr as Fr'. apply some_inv in Fr'. destruct Fr' as (Nf & Hf).
  apply some_inv in G2. destruct G2 as (N2 & H2).
  pose proof G3 as G3'. apply some_inv in G3'. destruct G3' as (N3 & H3).
  pose proof Ty as Ty'. apply some_inv in Ty'. destruct Ty' as (Nty & Hty).
  rewrite search_skip.
  2:{ intros p q E Q. apply attempt_none. unfold reTime. cbn [seq].
      apply blankDigit_none; [assumption | | |].
      - rewrite <- (@endsIn_app [NonSpace] p q Q), <- E, Ec.
        cbn [Printed.endsIn]. destruct w; [contradiction | assumption].
      - apply (@noBlankDigit_app p q). rewrite <- E, Ec.
        cbn [Printed.noBlankDigit]. rewrite (NonSpace_not_Space _ Ha), Nb. reflexivity.
      - intros t q' c. apply time_start_none. }
  rewrite search_skip.
  2:{ intros p q E Q. apply attempt_none. unfold reTime. cbn [seq].
      rewrite run_Cat. apply run_Plus_none. intros u v E' U A.
      rewrite EY in E'. rewrite E in H1. apply allIn_suffix in H1.
      destruct D as [| d D']; [contradiction |].
      pose proof HD as HD'.
      cbn [allIn] in HD'. apply andb_prop in HD'. destruct HD' as [Hd _].
      cbn [append] in E'.
      destruct (@prefix_before [Space] u q d (D' ++ String z Z) v A
                  (Digit_not_Space _ Hd) E') as (t1 & E1 & ->).
      destruct t1 as [| s t1].
      - change ("" ++ String d (D' ++ String z Z))%string
          with (String d D' ++ String z Z)%string.
        apply digits_no_point_none; assumption.
      - apply time_start_none. rewrite E1 in H1. apply allIn_suffix in H1.
        cbn [allIn] in H1. apply andb_prop in H1. destruct H1 as [Hs1 _].
        cbn [append startsIn]. apply Space_not_Digit. assumption. }
  rewrite search_skip.
  2:{ intros p q E Q. apply attempt_none. unfold reTime. cbn [seq].
      rewrite run_Cat. cbn [run].
      rewrite E in Hids. apply allIn_suffix in Hids.
      destruct q as [| x q]; [contradiction |].
      cbn [allIn] in Hids. apply andb_prop in Hids. destruct Hids as [Hx _].
      cbn [append]. rewrite (idChar_not_Space _ Hx). reflexivity. }
  assert (R : exists e cs,
    run reTime (Printed.fromTime h)
      (0 + String.length (Printed.command h) + String.length (Printed.gap1 h)
       + String.length (Printed.ids h)) []
      (fun _ pos' cs' => Some (pos', cs')) = Some (e, cs) /\
    capture 1 cs = Some (Printed.seconds h ++ "." ++ Printed.fraction h)%string).
  { unfold reTime, Printed.fromTime. cbn [seq].
    eexists _, _. split.
    - rewrite run_Cat.
      apply run_Plus_max; [assumption | assumption | |].
      { eapply startsIn_some; [exact Se | exact Digit_not_Space]. }
      rewrite run_Cat, run_Group, run_Cat.
      apply run_Plus_max; [assumption | assumption | reflexivity |].
      rewrite run_Cat. cbn [append]. rewrite run_Chr.
      apply run_Plus_max; [assumption | assumption | reflexivity |].
      cbv beta. rewrite run_Cat, run_Chr.
      apply run_Plus_max; [assumption | assumption | |].
      { eapply startsIn_some; [exact Ty | exact NonSpace_not_Space]. }
      reflexivity.
    - cbn [capture Nat.eqb]. f_equal.
      replace (Printed.seconds h ++ String "." (Printed.fraction h ++ String ":"
                 (Printed.gap3 h ++ Printed.eventType h ++ ":")))%string
        with ((Printed.seconds h ++ "." ++ Printed.fraction h) ++ String ":"
                 (Printed.gap3 h ++ Printed.eventType h ++ ":"))%string
        by (rewrite !append_assoc; reflexivity).
      apply take_exact. rewrite length_append. cbn [String.length append]. lia. }
  destruct R as (e & cs & R & C1). apply search_of_run in R.
  eexists. split; [exact R | exact C1].
Qed.

Lemma last_char c s :
  s <> "" -> allIn c s = true ->
  exists G b, s = (G ++ String b "")%string /\ inCls c b = true.
Proof.
  induction s as [| a s IH]; intros N A; [contradiction |].
  cbn [allIn] in A. apply andb_prop in A. destruct A as [Ha A].
  destruct s as [| a' s].
  - exists "", a. auto.
  - destruct (IH ltac:(discriminate) A) as (G & b & E & Hb).
    exists (String a G), b. rewrite E. auto.
Qed.

Lemma suffix_last Y b : forall p q,
  (Y ++ String b "")%string = (p ++ q)%string -> q <> "" ->
  exists X, q = (X ++ String b "")%string.
Proof.
  induction Y as [| y Y IH]; intros p q E Q.
  - destruct p as [| x p]; cbn [append] in E.
    + exists "". auto.
    + inversion E as [[Ex E']]. symmetry in E'. apply append_nil_inv in E'.
      destruct E'. contradiction.
  - destruct p as [| x p]; cbn [append] in E.
    + exists (String y Y). auto.
    + inversion E as [[Ex E']]. eapply IH; eassumption.
Qed.

(** No event type ends in front of white space and an event type. *)
Lemma evName_none X b c ty pos :
  inCls [Space] b = true -> inCls [NonSpace] c = true ->
  attempt reEvName (X ++ String b (String c ty ++ ":")) pos = None.
Proof.
  intros Hb Hc. apply attempt_none. unfold reEvName. cbn [seq].
  rewrite run_Cat, run_Group. apply run_Plus_none. intros u v E U A.
  destruct (@prefix_before [NonSpace] u X b (String c ty ++ ":") v A
              (Space_not_NonSpace _ Hb) E) as (t1 & _ & ->).
  apply run_none. intros w rest cs' E' M. exfalso.
  apply matches_Cat in M. destruct M as (col & t & cs1 & -> & Mc & M).
  apply matches_Chr in Mc. destruct Mc as (-> & _).
  apply matches_Cat in M. destruct M as (sp & e & cs2 & -> & Ms & M).
  apply matches_Star in Ms. destruct Ms as (Hsp & _).
  apply matches_Eol in M. destruct M as (-> & -> & _).
  rewrite !append_empty_r in E'. cbn [append] in E'.
  destruct t1 as [| x t1]; cbn [append] in E'; inversion E' as [[Ex E'']].
  - subst b. discriminate Hb.
  - subst sp. apply allIn_suffix in Hsp.
    cbn [allIn append] in Hsp. rewrite (NonSpace_not_Space _ Hc) in Hsp.
    rewrite andb_false_r in Hsp. discriminate.
Qed.

Lemma headerLine_ends h G b :
  Printed.gap3 h = (G ++ String b "")%string ->
  Printed.headerLine h =
  (((Printed.command h ++ Printed.gap1 h ++ Printed.ids h ++ Printed.gap2 h
    ++ Printed.seconds h ++ "." ++ Printed.fraction h ++ ":" ++ G) ++ String b "")
   ++ Printed.eventType h ++ ":")%string.
Proof.
  intros E. rewrite headerLine_parts. unfold Printed.fromTime. rewrite E.
  rewrite !append_assoc. cbn [append]. rewrite ?append_assoc. reflexivity.
Qed.

(** The match of the event type of a header. *)
Lemma evName_match h :
  Printed.headerOk h = true ->
  exists m,
    exec reEvName (Printed.headerLine h) = Some m /\
    get m 1 = Some (Printed.eventType h).
Proof.
  intros H. apply headerOk_inv in H.
  destruct H as (_ & _ & _ & _ & _ & _ & _ & G3 & Ty).
  apply some_inv in G3. destruct G3 as (N3 & H3).
  destruct (@last_char [Space] (Printed.gap3 h) N3 H3) as (G & b & E3 & Hb).
  rewrite (@headerLine_ends h G b E3).
  pose proof Ty as Ty'. apply some_cons in Ty'. destruct Ty' as (c & ty & Et & Hc & Hty).
  apply some_inv in Ty. destruct Ty as (Nty & Hty').
  unfold exec. rewrite search_skip.
  2:{ intros p q E Q. destruct (@suffix_last _ b p q E Q) as (X & ->).
      rewrite append_assoc. cbn [append]. rewrite Et. apply evName_none; assumption. }
  assert (R : exists e,
    run reEvName (Printed.eventType h ++ ":")
      (0 + String.length ((Printed.command h ++ Printed.gap1 h ++ Printed.ids h
         ++ Printed.gap2 h ++ Printed.seconds h ++ "." ++ Printed.fraction h
         ++ ":" ++ G) ++ String b "")) []
      (fun _ pos' cs' => Some (pos', cs')) = Some (e, [(1, Printed.eventType h)])).
  { eexists. unfold reEvName. cbn [seq]. rewrite run_Cat.
    apply run_Group_Plus_pick; [assumption | assumption | |].
    { intros u v E N _. destruct u as [| x [| y u]]; [contradiction | |];
        inversion E; subst. reflexivity. }
    rewrite run_Cat, run_Chr. reflexivity. }
  destruct R as (e & R). apply search_of_run in R.
  eexists. split; [exact R | reflexivity].
Qed.

End HeaderSearch.

(** ** Printed records are parsed to their events *)

Section RoundTrip.
Import MatchFacts PatternFacts RunFacts StepLemmas PrintedFacts HeaderFacts HeaderSearch.

Context {num : JSNumber}.

(** A line whose first character after white space is not [#] is not a
    comment. *)
Lemma reComment_none ws x rest :
  allIn [Space] ws = true -> inCls [Space] x = false -> Ascii.eqb x "#" = false ->
  exec reComment (ws ++ String x rest) = None.
Proof.
  intros Hws Hx Hh. unfold reComment. cbn [seq]. apply exec_Bol_none.
  rewrite run_Bol, run_Cat. cbn [run]. apply greedy_none. intros u v E A.
  destruct (@prefix_before [Space] u ws x rest v A Hx E) as (t1 & E1 & ->).
  destruct t1 as [| s t1]; cbn [append]; rewrite inCls_Chr.
  - rewrite Hh. reflexivity.
  - rewrite E1 in Hws. apply allIn_suffix in Hws.
    cbn [allIn] in Hws. apply andb_prop in Hws. destruct Hws as [Hs _].
    rewrite (Space_not_hash _ Hs). reflexivity.
Qed.

Lemma headerLine_notComment h :
  Printed.headerOk h = true ->
  notComment (Printed.headerLine h) = true /\ Printed.headerLine h <> "".
Proof.
  intros H. rewrite headerLine_parts. apply headerOk_inv in H.
  destruct H as (C & _). apply commandOk_inv in C.
  destruct C as (a & w & -> & Ha & Hh & _).
  split; [| discriminate].
  unfold notComment. cbn [append].
  pose proof (@reComment_none "" a
                (w ++ Printed.gap1 h ++ Printed.ids h ++ Printed.fromTime h)
                eq_refl (NonSpace_not_Space _ Ha) Hh) as N.
  cbn [append] in N. rewrite N. reflexivity.
Qed.

Lemma stackLine_notComment f :
  Printed.frameOk f = true ->
  notComment (Printed.stackLine f) = true /\ Printed.stackLine f <> "".
Proof.
  intros H. apply frameOk_inv in H. destruct H as (Hi & A & _).
  apply some_cons in A. destruct A as (x & hex & E & Hx & _).
  unfold Printed.stackLine. rewrite E. cbn [append]. split.
  - unfold notComment. rewrite reComment_none; auto using hexDigit_not_Space, hexDigit_not_hash.
  - destruct (Printed.indent f); discriminate.
Qed.

Lemma sourceLine_notComment s :
  Printed.sourceOk s = true ->
  notComment (Printed.sourceLineOf s) = true /\ Printed.sourceLineOf s <> "".
Proof.
  intros H. apply sourceOk_inv in H. destruct H as (I & F & _).
  apply some_cons in F. destruct F as (x & nm & E & Hx & _).
  apply some_inv in I. destruct I as (_ & I).
  unfold Printed.sourceLineOf. rewrite E. cbn [append]. split.
  - unfold notComment.
    rewrite reComment_none; auto using sourceChar_not_Space, sourceChar_not_hash.
    apply (@allIn_impl [Chr " "] [Space]); [exact blank_Space | assumption].
  - destruct (Printed.sourceIndent s); discriminate.
Qed.

Lemma frameLines_notComment f :
  Printed.frameOk f = true ->
  Forall (fun l => notComment l = true /\ l <> "") (Printed.frameLines f).
Proof.
  intros H. unfold Printed.frameLines.
  constructor; [apply stackLine_notComment; assumption |].
  destruct (Printed.source f) as [s |] eqn:Es; [| constructor].
  constructor; [| constructor]. apply sourceLine_notComment.
  apply frameOk_inv in H. apply H. assumption.
Qed.

Lemma lines_notComment e :
  Printed.eventOk e = true ->
  Forall (fun l => notComment l = true /\ l <> "") (Printed.lines e).
Proof.
  unfold Printed.eventOk, Printed.lines. intros H.
  apply andb_prop in H. destruct H as [Hh Hf].
  constructor; [apply headerLine_notComment; assumption |].
  induction (Printed.frames e) as [| f fs IH]; [constructor |].
  cbn [forallb] in Hf. apply andb_prop in Hf. destruct Hf as [Hf Hfs].
  cbn [flat_map]. apply Forall_app. split; [| auto].
  apply frameLines_notComment. assumption.
Qed.

Lemma filter_all {A : Type} (f : A -> bool) (l : list A) :
  Forall (fun x => f x = true) l -> filter f l = l.
Proof.
  induction 1 as [| x l Hx _ IH]; [reflexivity |].
  cbn [filter]. rewrite Hx, IH. reflexivity.
Qed.

Lemma parseEvent_printed (e : Printed.Event) :
  Printed.eventOk e = true ->
  parseEvent (Printed.lines e) = Return (Some (eventOfPrinted e)).
Proof.
  intros H. pose proof (lines_notComment e H) as NC.
  assert (F : filter (fun l => negb (notNull (exec reComment l))) (Printed.lines e)
              = Printed.lines e).
  { apply filter_all. eapply Forall_impl; [| exact NC]. intros l [Hl _]. exact Hl. }
  unfold Printed.eventOk in H. apply andb_prop in H. destruct H as [Hh Hf].
  destruct (headerLine_notComment _ Hh) as (_ & Nh).
  destruct (eventStart_match _ Hh) as (m0 & E0 & G1 & G23).
  destruct (time_match _ Hh) as (tm & Et & Gt).
  destruct (evName_match _ Hh) as (em & Ee & Ge).
  assert (Hd : headerOf (Printed.lines e) = Some (Printed.headerLine (Printed.header e))).
  { unfold headerOf. rewrite F. reflexivity. }
  assert (Bd : bodyOf (Printed.lines e) = flat_map Printed.frameLines (Printed.frames e)).
  { unfold bodyOf. rewrite F. reflexivity. }
  destruct (parseEvent_cases (Printed.lines e))
    as [[T _] | [(_ & N & _) | (m & cmd & st & _ & S & G & L & P)]].
  - rewrite Hd in T. cbn [truthyString] in T.
    apply String.eqb_neq in Nh. rewrite Nh in T. discriminate.
  - rewrite Hd in N. cbn [toStr] in N. congruence.
  - rewrite P. rewrite Hd in *. cbn [toStr] in *. rewrite Bd in L.
    rewrite E0 in S. inversion S; subst m. clear S.
    rewrite Et, Ee, Gt, Ge. cbn [toStr].
    rewrite lineLoop_fold in L. inversion L as [L']. clear L.
    rewrite (lineNext_frames _ _ Hf). cbn [frames app].
    rewrite G1 in G. inversion G; subst cmd.
    unfold eventOfPrinted. cbv zeta.
    destruct (Printed.pid (Printed.header e)) as [p |] eqn:Ep;
      destruct G23 as (G2 & G3); rewrite G2, G3; cbn [truthyString toStr].
    + apply headerOk_inv in Hh. destruct Hh as (_ & _ & _ & T & _).
      apply some_inv in T. destruct T as (Nt & _).
      apply String.eqb_neq in Nt. rewrite Nt. reflexivity.
    + reflexivity.
Qed.

Lemma parseEventsLoop_nonblank ls : forall rest buffer,
  Forall (fun l => l <> "") ls ->
  parseEventsLoop (ls ++ rest) buffer = parseEventsLoop rest (buffer ++ ls).
Proof.
  induction ls as [| l ls IH]; intros rest buffer H; cbn [app parseEventsLoop].
  - rewrite app_nil_r. reflexivity.
  - inversion H as [| ? ? Hl Hls]; subst.
    apply String.eqb_neq in Hl. rewrite Hl. rewrite IH by assumption.
    rewrite <- app_assoc. reflexivity.
Qed.

Lemma parseEventsLoop_printed es :
  forallb Printed.eventOk es = true ->
  parseEventsLoop (printedInput es) [] =
  Return (map (fun e => Some (eventOfPrinted e)) es).
Proof.
  induction es as [| e es IH]; intros H; [reflexivity |].
  cbn [forallb] in H. apply andb_prop in H. destruct H as [He Hes].
  unfold printedInput. cbn [flat_map]. rewrite <- app_assoc.
  rewrite parseEventsLoop_nonblank.
  - cbn [app parseEventsLoop String.eqb].
    rewrite (parseEvent_printed e He). cbn [bind].
    fold (printedInput es). rewrite (IH Hes). reflexivity.
  - eapply Forall_impl; [| exact (lines_notComment e He)]. intros l [_ Hl]. exact Hl.
Qed.

(** X16: a well formed record in the layout of [perf script] is parsed to the
    event it stands for: the fields of the header, and the frames in reverse
    order, each with its address, its symbol without the offset, its file,
    and the file and line of the source line under it.  Well formed
    ([Printed.eventOk]) means: the command has two or more characters and no
    line terminator, its first character is neither white space nor [#], its
    last character is not white space, and it has no digit right after white
    space; the ids, the seconds, the fraction and a line number are one or
    more decimal digits; the gaps of the header are one or more characters of
    white space; the event type is one or more characters, none of them
    white space; the indentation of a stack line is white space or nothing,
    its address one or more hexadecimal digits, its symbol one or more
    characters without a line terminator, its file without white space; a
    source line has one or more blanks and then one or more characters of
    [sourceChar].  A record of this layout with another command may be
    parsed to [null] or to an event with a shorter command. *)
Theorem printed_record_is_parsed (e : Printed.Event) :
  Printed.eventOk e = true ->
  parseEvent (Printed.lines e) = Return (Some (eventOfPrinted e)).
Proof. apply parseEvent_printed. Qed.

(** X17: an input of records in the layout of [perf script], each followed
    by a blank line, is parsed to the events they stand for, in order, when
    every record is well formed ([Printed.eventOk]): a command of two or
    more characters without a line terminator, that starts with a character
    other than white space and [#], does not end with white space and has no
    digit right after white space; ids, seconds, fraction and line numbers
    of one or more decimal digits; gaps of one or more characters of white
    space; an event type of one or more characters that are not white space;
    stack lines with white space or nothing in front of one or more
    hexadecimal digits, a symbol of one or more characters without a line
    terminator and a file without white space; source lines of one or more
    blanks and one or more characters of [sourceChar]. *)
Theorem printed_input_is_parsed (es : list Printed.Event) :
  forallb Printed.eventOk es = true ->
  parseEvents (text (printedInput es)) =
  Return (map (fun e => Some (eventOfPrinted e)) es).
Proof. apply parseEventsLoop_printed. Qed.

End RoundTrip.

(** ** Printed inputs, comments and indented headers *)

Section EndToEnd.
Import MatchFacts PatternFacts RunFacts StepLemmas PrintedFacts HeaderFacts HeaderSearch.

Context {num : JSNumber}.

Lemma eventsOfType_printed ty es :
  Forall (fun e => Printed.eventType (Printed.header e) = ty) es ->
  eventsOfType ty (map (fun e => Some (eventOfPrinted e)) es) = map timedEvent es.
Proof.
  induction 1 as [| e es He _ IH]; [reflexivity |].
  cbn [map eventsOfType flat_map]. fold (eventsOfType ty (map (fun e => Some (eventOfPrinted e)) es)).
  rewrite IH. cbn [eventOfPrinted time eventType]. rewrite He, String.eqb_refl.
  reflexivity.
Qed.

Lemma acceptedEvents_printed ty es :
  Forall (fun e => Printed.eventType (Printed.header e) = ty) es ->
  acceptedEvents (map (fun e => Some (eventOfPrinted e)) es) = map timedEvent es.
Proof.
  intros H. unfold acceptedEvents. destruct es as [| e es]; [reflexivity |].
  cbn [map firstTimed eventOfPrinted time notNull].
  change (eventType _) with (Printed.eventType (Printed.header e)).
  inversion H as [| ? ? He Hes]; subst.
  apply (eventsOfType_printed (es := e :: es)). assumption.
Qed.

(** X18: every record of an input in the layout of [perf script] becomes a
    sample, and the adapter returns the group of the events that the records
    stand for, when the records have the same event type, each is followed
    by a blank line, and each is well formed ([Printed.eventOk]): a command
    of two or more characters without a line terminator, that starts with a
    character other than white space and [#], does not end with white space
    and has no digit right after white space; ids, seconds, fraction and
    line numbers of one or more decimal digits; gaps of one or more
    characters of white space; an event type of one or more characters that
    are not white space; stack lines with white space or nothing in front of
    one or more hexadecimal digits, a symbol of one or more characters
    without a line terminator and a file without white space; source lines
    of one or more blanks and one or more characters of [sourceChar]. *)
Theorem printed_input_is_imported (es : list Printed.Event) (ty : string) :
  forallb Printed.eventOk es = true ->
  Forall (fun e => Printed.eventType (Printed.header e) = ty) es ->
  importFromLinuxPerf (text (printedInput es)) =
  Return (groupOfProfiles (groupedProfiles (map timedEvent es))).
Proof.
  intros Hok Hty.
  destruct (importFromLinuxPerf_grouped (text (printedInput es))) as (es' & P & _ & I).
  unfold parseEvents, text in P. cbn [splitLines textLines] in P.
  rewrite (parseEventsLoop_printed es Hok) in P. inversion P; subst es'.
  rewrite I, (acceptedEvents_printed Hty). reflexivity.
Qed.

(** X10: a line is a comment exactly when its first character after white
    space is [#]. *)
Theorem comment_starts_with_hash (l : string) :
  exec reComment l <> None <->
  exists ws rest, l = (ws ++ "#" ++ rest)%string /\ allIn [Space] ws = true.
Proof.
  split.
  - destruct (exec reComment l) as [m |] eqn:E; [| congruence].
    intros _. eapply reComment_match. eassumption.
  - intros (ws & rest & -> & A). apply reComment_found. assumption.
Qed.

(** X11: a record in which every line is a comment is not an event. *)
Theorem comments_are_not_an_event (rawEvent : list string) :
  Forall (fun l => exec reComment l <> None) rawEvent ->
  parseEvent rawEvent = Return None.
Proof.
  intros H. apply parseEvent_no_lines.
  induction H as [| l ls Hl _ IH]; [reflexivity |].
  cbn [filter]. unfold notComment at 1.
  destruct (exec reComment l); [exact IH | contradiction].
Qed.

Lemma reEventStart_indented h :
  startsIn [Space] h = true -> exec reEventStart h = None.
Proof.
  intros H. unfold reEventStart. cbn [seq]. apply exec_Bol_none.
  rewrite run_Bol, run_Cat, run_Group, run_Cat. cbn [run].
  destruct h as [| a h]; [reflexivity |]. cbn [startsIn] in H.
  rewrite (Space_not_NonSpace _ H). reflexivity.
Qed.

(** X12: a record whose header starts with white space is not an event. *)
Theorem indented_header_is_not_an_event (rawEvent : list string) (h : string) :
  headerOf rawEvent = Some h ->
  startsIn [Space] h = true ->
  parseEvent rawEvent = Return None.
Proof.
  intros Hh Hs.
  destruct (parseEvent_cases rawEvent)
    as [[_ P] | [(_ & _ & P) | (m & cmd & st & _ & S & _)]]; try exact P.
  rewrite Hh in S. cbn [toStr] in S.
  rewrite (reEventStart_indented h Hs) in S. discriminate.
Qed.

End EndToEnd.

(** ** The further properties at concrete inputs *)

(** Two threads: two Profiles with two names. *)
Lemma profile_names_are_distinct_witness :
  let contents :=
    text ["foo 1 1000.000000: cycles:"; ""; "foo 2 1000.000000: cycles:"] in
  let profile n := {| profileName := n;
                      profileFormatter := TimeFormatter "seconds";
                      profileSamples := [([], Decimal.Fin 1000 0)] |} in
  let g := {| groupName := ""; indexToView := 0;
              profiles := [profile "foo tid: 1"; profile "foo tid: 2"] |} in
  importFromLinuxPerf contents = Return (Some g) /\
  NoDup (map profileName (profiles g)).
Proof.
  intros contents profile g.
  assert (I : importFromLinuxPerf contents = Return (Some g)) by reflexivity.
  split; [exact I |].
  exact (@profile_names_are_distinct decimalNumber textLines contents g I).
Defined.

Lemma group_is_well_formed_witness :
  let contents :=
    text ["foo 1 1000.000000: cycles:"; ""; "foo 2 1000.000000: cycles:"] in
  let profile n := {| profileName := n;
                      profileFormatter := TimeFormatter "seconds";
                      profileSamples := [([], Decimal.Fin 1000 0)] |} in
  let p := profile "foo tid: 2" in
  let g := {| groupName := ""; indexToView := 0;
              profiles := [profile "foo tid: 1"; p] |} in
  importFromLinuxPerf contents = Return (Some g) /\
  In p (profiles g) /\
  indexToView g < List.length (profiles g) /\
  profileFormatter p = TimeFormatter "seconds" /\ profileSamples p <> [].
Proof.
  intros contents profile p g.
  assert (I : importFromLinuxPerf contents = Return (Some g)) by reflexivity.
  assert (Hp : In p (profiles g)) by (right; left; reflexivity).
  destruct (@group_is_well_formed decimalNumber textLines contents g p I) as [V W].
  split; [exact I |]. split; [exact Hp |]. split; [exact V | exact (W Hp)].
Defined.

(** A comment between the header and the stack of a record. *)
Lemma comment_lines_are_ignored_witness :
  let pre := ["foo 1 1000.000000: cycles:"] in
  let post := [" 7fff bar (baz)"] in
  let c := "  # a note" in
  exec reComment c <> None /\
  @importFromLinuxPerf decimalNumber textLines (text (pre ++ c :: post)) =
    importFromLinuxPerf (text (pre ++ post)).
Proof.
  intros pre post c.
  assert (Hc : exec reComment c <> None) by (vm_compute; discriminate).
  split; [exact Hc |].
  exact (@comment_lines_are_ignored decimalNumber pre post c Hc).
Defined.

Lemma event_fields_are_well_formed_witness :
  let rawEvent := ["foo 12/34 1000.000000: cycles:"] in
  let ev := {| command := Some "foo";
               processID := Some (Decimal.Fin 12 0);
               threadID := Some (Decimal.Fin 34 0);
               time := Some (Decimal.Fin 1000 0);
               eventType := "cycles";
               stack := [] |} in
  @parseEvent decimalNumber rawEvent = Return (Some ev) /\
  (exists a w rest,
     command ev = Some (String a w) /\
     headerOf rawEvent = Some (String a w ++ rest)%string /\
     inCls [NonSpace] a = true /\ w <> "" /\ allIn [Dot] w = true) /\
  (exists d, d <> "" /\ allIn [Digit] d = true /\ threadID ev = Some (parseInt d)) /\
  (forall p, processID ev = Some p ->
     exists d, d <> "" /\ allIn [Digit] d = true /\ p = parseInt d) /\
  (forall t, time ev = Some t ->
     exists i f, i <> "" /\ allIn [Digit] i = true /\
                 f <> "" /\ allIn [Digit] f = true /\
                 t = parseFloat (i ++ "." ++ f)) /\
  allIn [NonSpace] (eventType ev) = true.
Proof.
  intros rawEvent ev.
  assert (P : @parseEvent decimalNumber rawEvent = Return (Some ev)) by reflexivity.
  split; [exact P |].
  exact (@event_fields_are_well_formed decimalNumber rawEvent ev P).
Defined.

(** A frame with an offset and a source line under it. *)
Lemma frames_are_well_formed_witness :
  let rawEvent := ["foo 1 1000.000000: cycles:"; " 7fff bar+0x1f (baz)";
                   "  src/bar.c:12"] in
  let f := {| address := "0x7fff"; symbolName := "bar";
              file := Some "src/bar.c"; line := Some (Decimal.Fin 12 0) |} in
  let ev := {| command := Some "foo";
               processID := None;
               threadID := Some (Decimal.Fin 1 0);
               time := Some (Decimal.Fin 1000 0);
               eventType := "cycles";
               stack := [f] |} in
  @parseEvent decimalNumber rawEvent = Return (Some ev) /\
  In f (stack ev) /\
  (exists hex, address f = ("0x" ++ hex)%string /\ hex <> "" /\
               allIn hexDigit hex = true) /\
  allIn [Dot] (symbolName f) = true /\
  (forall fl, file f = Some fl -> allIn [NonSpace] fl = true) /\
  (forall n, line f = Some n ->
     file f <> None /\
     exists d, d <> "" /\ allIn [Digit] d = true /\ n = parseInt d).
Proof.
  intros rawEvent f ev.
  assert (P : @parseEvent decimalNumber rawEvent = Return (Some ev)) by reflexivity.
  assert (Hf : In f (stack ev)) by (left; reflexivity).
  split; [exact P |]. split; [exact Hf |].
  exact (@frames_are_well_formed decimalNumber rawEvent ev f P Hf).
Defined.

(** Two lines after the header, one frame. *)
Lemma stack_is_no_longer_than_the_body_witness :
  let rawEvent := ["# a note"; "foo 1 1000.000000: cycles:";
                   " 7fff bar+0x1f (baz)"; "  src/bar.c:12"] in
  let f := {| address := "0x7fff"; symbolName := "bar";
              file := Some "src/bar.c"; line := Some (Decimal.Fin 12 0) |} in
  let ev := {| command := Some "foo";
               processID := None;
               threadID := Some (Decimal.Fin 1 0);
               time := Some (Decimal.Fin 1000 0);
               eventType := "cycles";
               stack := [f] |} in
  @parseEvent decimalNumber rawEvent = Return (Some ev) /\
  List.length (stack ev) <= List.length (bodyOf rawEvent) /\
  List.length (stack ev) < List.length rawEvent.
Proof.
  intros rawEvent f ev.
  assert (P : @parseEvent decimalNumber rawEvent = Return (Some ev)) by reflexivity.
  split; [exact P |].
  exact (@stack_is_no_longer_than_the_body decimalNumber rawEvent ev P).
Defined.

(** The record of the comments of source lines 57 and 104, with a source
    line under its frame. *)
Lemma printed_record_is_parsed_witness :
  let e :=
    {| Printed.header :=
         {| Printed.command := "V8 WorkerThread"; Printed.gap1 := " ";
            Printed.pid := None; Printed.tid := "25607"; Printed.gap2 := " ";
            Printed.seconds := "4794564"; Printed.fraction := "109216";
            Printed.gap3 := " "; Printed.eventType := "cycles" |};
       Printed.frames :=
         [{| Printed.indent := String "009" "    ";
             Printed.address := "7fffb84c9afc";
             Printed.symbol := "cpu_startup_entry+0x800047c022ec";
             Printed.file := "[kernel.kallsyms]";
             Printed.source :=
               Some {| Printed.sourceIndent := "  ";
                       Printed.sourceFile := "kernel/sched/idle.c";
                       Printed.sourceLine := "305" |} |}] |} in
  Printed.eventOk e = true /\
  Printed.lines e =
    ["V8 WorkerThread 25607 4794564.109216: cycles:";
     String "009" "    7fffb84c9afc cpu_startup_entry+0x800047c022ec ([kernel.kallsyms])";
     "  kernel/sched/idle.c:305"] /\
  @parseEvent decimalNumber (Printed.lines e) =
    Return (Some {| command := Some "V8 WorkerThread";
                    processID := None;
                    threadID := Some (Decimal.Fin 25607 0);
                    time := Some (Decimal.Fin 4794564109216 6);
                    eventType := "cycles";
                    stack := [{| address := "0x7fffb84c9afc";
                                 symbolName := "cpu_startup_entry";
                                 file := Some "kernel/sched/idle.c";
                                 line := Some (Decimal.Fin 305 0) |}] |}).
Proof.
  intros e.
  assert (Ok : Printed.eventOk e = true) by reflexivity.
  split; [exact Ok |]. split; [reflexivity |].
  rewrite (@printed_record_is_parsed decimalNumber e Ok). reflexivity.
Defined.

Lemma printed_input_is_parsed_witness :
  let header t :=
    {| Printed.command := "foo"; Printed.gap1 := "   ";
       Printed.pid := Some "12"; Printed.tid := t; Printed.gap2 := " ";
       Printed.seconds := "1000"; Printed.fraction := "5";
       Printed.gap3 := " "; Printed.eventType := "cpu-clock" |} in
  let frame :=
    {| Printed.indent := String "009" "";
       Printed.address := "7fff"; Printed.symbol := "operator new";
       Printed.file := "/usr/lib/libc.so"; Printed.source := None |} in
  let blank a :=
    {| Printed.indent := "    ";
       Printed.address := a; Printed.symbol := "main";
       Printed.file := "/bin/a.out"; Printed.source := None |} in
  let es := [{| Printed.header := header "34";
                Printed.frames := [frame; blank "40053f"; blank "400a"] |};
             {| Printed.header := header "35"; Printed.frames := [] |}] in
  forallb Printed.eventOk es = true /\
  printedInput es =
    ["foo   12/34 1000.5: cpu-clock:";
     String "009" "7fff operator new (/usr/lib/libc.so)";
     "    40053f main (/bin/a.out)";
     "    400a main (/bin/a.out)"; "";
     "foo   12/35 1000.5: cpu-clock:"; ""] /\
  @parseEvents decimalNumber textLines (text (printedInput es)) =
    Return (map (fun e => Some (eventOfPrinted e)) es).
Proof.
  intros header frame blank es.
  assert (Ok : forallb Printed.eventOk es = true) by reflexivity.
  split; [exact Ok |]. split; [reflexivity |].
  exact (@printed_input_is_parsed decimalNumber es Ok).
Defined.

Lemma printed_input_is_imported_witness :
  let header t :=
    {| Printed.command := "foo"; Printed.gap1 := "   ";
       Printed.pid := Some "12"; Printed.tid := t; Printed.gap2 := " ";
       Printed.seconds := "1000"; Printed.fraction := "5";
       Printed.gap3 := " "; Printed.eventType := "cpu-clock" |} in
  let es := [{| Printed.header := header "34"; Printed.frames := [] |};
             {| Printed.header := header "35"; Printed.frames := [] |};
             {| Printed.header := header "34"; Printed.frames := [] |}] in
  let t := Decimal.Fin 10005 1 in
  forallb Printed.eventOk es = true /\
  Forall (fun e => Printed.eventType (Printed.header e) = "cpu-clock") es /\
  @importFromLinuxPerf decimalNumber textLines (text (printedInput es)) =
    Return (Some {| groupName := "";
                    indexToView := 0;
                    profiles :=
                      [{| profileName := "foo pid: 12 tid: 34";
                          profileFormatter := TimeFormatter "seconds";
                          profileSamples := [([], t); ([], t)] |};
                       {| profileName := "foo pid: 12 tid: 35";
                          profileFormatter := TimeFormatter "seconds";
                          profileSamples := [([], t)] |}] |}).
Proof.
  intros header es t.
  assert (Ok : forallb Printed.eventOk es = true) by reflexivity.
  assert (Ty : Forall (fun e => Printed.eventType (Printed.header e) = "cpu-clock") es)
    by (repeat constructor).
  split; [exact Ok |]. split; [exact Ty |].
  rewrite (@printed_input_is_imported decimalNumber es "cpu-clock" Ok Ty). reflexivity.
Defined.

Lemma comments_are_not_an_event_witness :
  let rawEvent := ["# cmdline : perf record -g"; "  # a note"] in
  Forall (fun l => exec reComment l <> None) rawEvent /\
  @parseEvent decimalNumber rawEvent = Return None.
Proof.
  intros rawEvent.
  assert (H : Forall (fun l => exec reComment l <> None) rawEvent)
    by (repeat constructor; vm_compute; discriminate).
  split; [exact H |].
  exact (@comments_are_not_an_event decimalNumber rawEvent H).
Defined.

(** A stack without its header. *)
Lemma indented_header_is_not_an_event_witness :
  let h := " 7fff bar (baz)" in
  let rawEvent := ["# a note"; h; " 7ffe qux (baz)"] in
  headerOf rawEvent = Some h /\
  startsIn [Space] h = true /\
  @parseEvent decimalNumber rawEvent = Return None.
Proof.
  intros h rawEvent.
  assert (Hh : headerOf rawEvent = Some h) by reflexivity.
  assert (Hs : startsIn [Space] h = true) by reflexivity.
  split; [exact Hh |]. split; [exact Hs |].
  exact (@indented_header_is_not_an_event decimalNumber rawEvent h Hh Hs).
Defined.

(** ** The matcher finds every match *)

Module Completeness.
Import MatchFacts PatternFacts RunFacts StepLemmas.

Lemma greedy_fallback c s pos k : k s pos <> None -> greedy c s pos k <> None.
Proof.
  intros K. destruct s as [| a s]; cbn [greedy]; [assumption |].
  destruct (inCls c a); [| assumption].
  destruct (greedy c s (S pos) k); [discriminate | assumption].
Qed.

Lemma greedy_complete c w rest : forall pos k,
  allIn c w = true -> k rest (pos + String.length w) <> None ->
  greedy c (w ++ rest) pos k <> None.
Proof.
  induction w as [| a w IH]; intros pos k A K.
  - cbn [append String.length] in *. rewrite Nat.add_0_r in K.
    apply greedy_fallback. assumption.
  - cbn [allIn] in A. apply andb_prop in A. destruct A as [Ha A].
    cbn [append greedy]. rewrite Ha.
    assert (G : greedy c (w ++ rest) (S pos) k <> None).
    { apply IH; [assumption |]. cbn [String.length] in K.
      rewrite Nat.add_succ_r in K. exact K. }
    destruct (greedy c (w ++ rest) (S pos) k); [discriminate | contradiction].
Qed.

Lemma lazy_complete c w rest : forall pos k,
  allIn c w = true -> k rest (pos + String.length w) <> None ->
  lazy c (w ++ rest) pos k <> None.
Proof.
  induction w as [| a w IH]; intros pos k A K.
  - cbn [append String.length] in *. rewrite Nat.add_0_r in K.
    destruct rest; cbn [lazy]; destruct (k _ pos); try discriminate; contradiction.
  - cbn [allIn] in A. apply andb_prop in A. destruct A as [Ha A].
    cbn [append lazy]. destruct (k (String a (w ++ rest)) pos); [discriminate |].
    rewrite Ha. apply IH; [assumption |]. cbn [String.length] in K.
    rewrite Nat.add_succ_r in K. exact K.
Qed.

Lemma greedy_ext c s : forall pos (k1 k2 : string -> nat -> option result),
  (forall s' p, k1 s' p = None -> k2 s' p = None) ->
  greedy c s pos k1 = None -> greedy c s pos k2 = None.
Proof.
  induction s as [| a s IH]; intros pos k1 k2 H; cbn [greedy]; [apply H |].
  destruct (inCls c a); [| apply H].
  destruct (greedy c s (S pos) k1) eqn:E; [discriminate |].
  rewrite (IH _ _ _ H E). apply H.
Qed.

Lemma lazy_ext c s : forall pos (k1 k2 : string -> nat -> option result),
  (forall s' p, k1 s' p = None -> k2 s' p = None) ->
  lazy c s pos k1 = None -> lazy c s pos k2 = None.
Proof.
  induction s as [| a s IH]; intros pos k1 k2 H; cbn [lazy].
  - destruct (k1 "" pos) eqn:E; [discriminate |]. rewrite (H _ _ E). reflexivity.
  - destruct (k1 (String a s) pos) eqn:E; [discriminate |]. rewrite (H _ _ E).
    destruct (inCls c a); [apply IH; assumption | reflexivity].
Qed.

(** Whether a pattern matches does not depend on the captures made
    before. *)
Lemma run_insensitive r : forall s pos c1 c2 k,
  insensitive k -> run r s pos c1 k = None -> run r s pos c2 k = None.
Proof.
  induction r; intros s pos c1 c2 k K; cbn [run].
  - apply K.
  - destruct s as [| a s]; [reflexivity |]. destruct (inCls c a); [apply K | reflexivity].
  - apply IHr1. intros s' p' c1' c2'. apply IHr2. assumption.
  - destruct (run r s pos c1 _) eqn:E; [discriminate |].
    erewrite IHr; [apply K | | exact E].
    intros s' p' c1' c2'. destruct (Nat.eqb p' pos); [reflexivity | apply K].
  - apply greedy_ext. intros s' p. apply K.
  - destruct s as [| a s]; [reflexivity |]. destruct (inCls c a); [| reflexivity].
    apply greedy_ext. intros s' p. apply K.
  - destruct s as [| a s]; [reflexivity |]. destruct (inCls c a); [| reflexivity].
    apply lazy_ext. intros s' p. apply K.
  - apply IHr. intros s' p' c1' c2'. apply K.
  - destruct (Nat.eqb pos 0); [apply K | reflexivity].
  - destruct s; [apply K | reflexivity].
Qed.

(** The matcher finds a match where there is one. *)
Lemma run_complete r pos w rest cs cs' :
  matches r pos w rest cs cs' ->
  forall k, insensitive k ->
  k rest (pos + String.length w) cs' <> None ->
  run r (w ++ rest) pos cs k <> None.
Proof.
  induction 1 as [pos rest cs | c a pos rest cs Ha
                 | r1 r2 pos w1 w2 rest cs cs1 cs2 M1 IH1 M2 IH2
                 | r pos rest cs | r pos w rest cs cs' W M IH
                 | c pos w rest cs A | c pos w rest cs W A | c pos w rest cs W A
                 | i r pos w rest cs cs' M IH | rest cs | pos cs];
    intros k K H.
  - cbn [append String.length run] in *. rewrite Nat.add_0_r in H. exact H.
  - cbn [append String.length run] in *. rewrite Ha. rewrite Nat.add_1_r in H. exact H.
  - rewrite append_assoc, run_Cat. apply IH1.
    + intros s' p' c1 c2. apply run_insensitive. assumption.
    + apply IH2; [assumption |]. rewrite length_append, Nat.add_assoc in H. exact H.
  - cbn [append String.length run] in *. rewrite Nat.add_0_r in H.
    destruct (run r rest pos cs _); [discriminate | exact H].
  - cbn [run].
    assert (G : run r (w ++ rest) pos cs
                  (fun s' pos' cs'0 =>
                     if Nat.eqb pos' pos then None else k s' pos' cs'0) <> None).
    { apply IH.
      - intros s' p' c1 c2. destruct (Nat.eqb p' pos); [reflexivity | apply K].
      - destruct (Nat.eqb_spec (pos + String.length w) pos) as [Z | Z]; [| exact H].
        destruct w; [contradiction | cbn [String.length] in Z; lia]. }
    destruct (run r (w ++ rest) pos cs _); [discriminate | contradiction].
  - cbn [run]. apply greedy_complete; assumption.
  - destruct w as [| a w]; [contradiction |].
    cbn [allIn] in A. apply andb_prop in A. destruct A as [Ha A].
    cbn [append run]. rewrite Ha. apply greedy_complete; [assumption |].
    cbn [String.length] in H. rewrite Nat.add_succ_r in H. exact H.
  - destruct w as [| a w]; [contradiction |].
    cbn [allIn] in A. apply andb_prop in A. destruct A as [Ha A].
    cbn [append run]. rewrite Ha. apply lazy_complete; [assumption |].
    cbn [String.length] in H. rewrite Nat.add_succ_r in H. exact H.
  - rewrite run_Group. apply IH.
    + intros s' p' c1 c2. apply K.
    + intros N. apply H. exact (K _ _ _ _ N).
  - cbn [append run Nat.eqb]. cbn [String.length] in H. exact H.
  - cbn [append run]. cbn [String.length] in H. rewrite Nat.add_0_r in H. exact H.
Qed.

Lemma search_complete r pre : forall s pos,
  attempt r s (pos + String.length pre) <> None ->
  search r (pre ++ s) pos <> None.
Proof.
  induction pre as [| a pre IH]; intros s pos H.
  - cbn [append String.length] in *. rewrite Nat.add_0_r in H.
    rewrite search_unfold. destruct (attempt r s pos); [discriminate | contradiction].
  - rewrite search_unfold. cbn [append].
    destruct (attempt r (String a (pre ++ s)) pos); [discriminate |].
    apply IH. cbn [String.length] in H. rewrite Nat.add_succ_r in H. exact H.
Qed.

(** [exec] finds a match where there is one. *)
Lemma exec_complete r pre w rest cs :
  matches r (String.length pre) w rest [] cs ->
  exec r (pre ++ w ++ rest) <> None.
Proof.
  intros M. unfold exec. apply search_complete. unfold attempt. cbn [Nat.add].
  pose proof (@run_complete r (String.length pre) w rest [] cs M
                (fun _ pos' cs' => Some (pos', cs'))) as C.
  destruct (run r (w ++ rest) (String.length pre) [] _) as [[e c] |];
    [discriminate |].
  exfalso. apply C; [intros s p c1 c2; discriminate | discriminate | reflexivity].
Qed.

End Completeness.

(** ** The lines that are accepted *)

Section Acceptance.
Import MatchFacts PatternFacts RunFacts StepLemmas PrintedFacts HeaderSearch Completeness.

Context {num : JSNumber}.

Lemma reEventStart_accepts h :
  exec reEventStart h <> None <-> startsWithCommandAndIds h.
Proof.
  split.
  - destruct (exec reEventStart h) as [m |] eqn:E; [intros _ | congruence].
    apply reEventStart_match in E.
    destruct E as (a & w & sp & d2 & o & sp' & rest & -> & Ha & Nw & Hw & Nsp & Hsp
                   & Nd & Hd & Nsp' & Hsp' & _ & _ & O).
    exists (String a w).
    destruct O as [(-> & _) | (sl & d3 & -> & [-> | ->] & Nd3 & Hd3 & _)].
    + exists a, w, sp, d2, sp', rest. unfold blanks, idsText, digits.
      cbn [append]. auto 15.
    + exists a, w, sp, (d2 ++ d3)%string, sp', rest. unfold blanks, idsText, digits.
      cbn [append]. rewrite !append_assoc.
      repeat (split; [solve [auto] |]). split; [| auto]. left. split.
      * intros E. apply append_nil_inv in E. destruct E. contradiction.
      * rewrite allIn_app, Hd, Hd3. reflexivity.
    + exists a, w, sp, (d2 ++ "/" ++ d3)%string, sp', rest.
      unfold blanks, idsText, digits.
      rewrite ?append_assoc. cbn [append]. rewrite ?append_assoc.
      repeat (split; [solve [auto] |]). split; [| auto]. right.
      exists d2, d3. auto.
  - intros (cmd & a & w & sp & ids & sp' & rest & -> & -> & Ha & Nw & Hw & (Nsp & Hsp)
            & I & (Nsp' & Hsp')).
    unfold reEventStart. cbn [seq].
    destruct I as [(Ni & Hi) | (p & t & -> & (Np & Hp) & (Nt & Ht))].
    + replace (String a w ++ sp ++ ids ++ sp' ++ rest)%string
        with ("" ++ ("" ++ (String a "" ++ w) ++ sp ++ ids ++ "" ++ sp') ++ rest)%string
        by (cbn [append]; rewrite !append_assoc; reflexivity).
      eapply exec_complete.
      repeat first [ apply MBol | apply MGroup | apply MOne | apply MPlus
                   | apply MPlusLazy | apply MOptNone | eapply MCat ]; assumption.
    + replace (String a w ++ sp ++ (p ++ "/" ++ t) ++ sp' ++ rest)%string
        with ("" ++ ("" ++ (String a "" ++ w) ++ sp ++ p ++ ("/" ++ t) ++ sp') ++ rest)%string
        by (cbn [append]; rewrite !append_assoc; cbn [append];
            rewrite ?append_assoc; reflexivity).
      eapply exec_complete.
      repeat first [ apply MBol | apply MGroup | apply MOne | apply MPlus
                   | apply MPlusLazy | eapply MCat ]; try assumption.
      apply MOptSome; [discriminate |].
      eapply MCat; [apply MOptSome; [discriminate | apply MOne; reflexivity] |].
      apply MGroup, MPlus; assumption.
Qed.

Lemma reTime_accepts h : exec reTime h <> None <-> hasTimestamp h.
Proof.
  split.
  - destruct (exec reTime h) as [m |] eqn:E; [intros _ | congruence].
    apply reTime_match in E.
    destruct E as (pre & sp & i & f & sp' & rest & -> & Nsp & Hsp & Ni & Hi & Nf & Hf
                   & Nsp' & Hsp' & _).
    exists pre, sp, i, f, sp', rest. unfold blanks, digits. auto 12.
  - intros (pre & sp & i & f & sp' & rest & -> & (Nsp & Hsp) & (Ni & Hi) & (Nf & Hf)
            & (Nsp' & Hsp')).
    unfold reTime. cbn [seq].
    replace (pre ++ sp ++ i ++ "." ++ f ++ ":" ++ sp' ++ rest)%string
      with (pre ++ (sp ++ (i ++ "." ++ f) ++ ":" ++ sp') ++ rest)%string
      by (rewrite !append_assoc; cbn [append]; rewrite ?append_assoc; reflexivity).
    eapply exec_complete.
    repeat first [ apply MGroup | apply MOne | apply MPlus | eapply MCat ];
      first [assumption | reflexivity].
Qed.

Lemma reEvName_accepts h : exec reEvName h <> None <-> hasEventType h.
Proof.
  split.
  - destruct (exec reEvName h) as [m |] eqn:E; [intros _ | congruence].
    apply reEvName_match in E.
    destruct E as (pre & ty & ws & -> & Nty & Hty & Hws & _).
    exists pre, ty, ws. auto.
  - intros (pre & ty & ws & -> & Nty & Hty & Hws).
    unfold reEvName. cbn [seq].
    replace (pre ++ ty ++ ":" ++ ws)%string
      with (pre ++ (ty ++ ":" ++ ws ++ "") ++ "")%string
      by (rewrite !append_assoc; cbn [append]; rewrite ?append_assoc, !append_empty_r;
          reflexivity).
    eapply exec_complete.
    repeat first [ apply MGroup | apply MOne | apply MPlus | apply MStar
                 | apply MEol | eapply MCat ];
      first [assumption | reflexivity].
Qed.

Lemma NonSpace_Dot a : inCls [NonSpace] a = true -> inCls [Dot] a = true.
Proof. by_ascii a. Qed.

Lemma reStackLine_accepts l : exec reStackLine l <> None <-> isStackLine l.
Proof.
  split.
  - destruct (exec reStackLine l) as [m |] eqn:E; [intros _ | congruence].
    apply reStackLine_match in E.
    destruct E as (ws & hex & sy & o & -> & Hws & Nh & Hh & Ns & Hs & _ & _ & O).
    exists ws, hex, (sy ++ o)%string. rewrite ?append_assoc.
    repeat (split; [solve [auto] |]). split.
    + intros E. apply append_nil_inv in E. destruct E. contradiction.
    + rewrite allIn_app, Hs.
      destruct O as [(-> & _) | (fl & -> & Hfl & _)]; [reflexivity |].
      cbn [append allIn andb]. rewrite allIn_app.
      rewrite (@allIn_impl [NonSpace] [Dot] fl NonSpace_Dot Hfl). reflexivity.
  - intros (ws & hex & sy & -> & Hws & Nh & Hh & Ns & Hs).
    unfold reStackLine. cbn [seq].
    replace (ws ++ hex ++ " " ++ sy)%string
      with ("" ++ ("" ++ ws ++ hex ++ " " ++ sy ++ "" ++ "") ++ "")%string
      by (cbn [append]; rewrite !append_empty_r; reflexivity).
    eapply exec_complete.
    repeat first [ apply MBol | apply MGroup | apply MOne | apply MPlus | apply MStar
                 | apply MPlusLazy | apply MOptNone | apply MEol | eapply MCat ];
      first [assumption | reflexivity].
Qed.


(** X19: a record is parsed to an event exactly when its header, the first
    line that is not a comment, starts with a command, white space, the ids
    and white space. *)
Theorem event_iff_header_starts_with_command_and_ids (rawEvent : list string) :
  (exists ev, parseEvent rawEvent = Return (Some ev)) <->
  (exists h, headerOf rawEvent = Some h /\ startsWithCommandAndIds h).
Proof.
  destruct (parseEvent_cases rawEvent)
    as [[T P] | [(T & N & P) | (m & cmd & st & T & S & _ & _ & P)]]; rewrite P.
  - split; [intros (ev & E); discriminate |].
    intros (h & Hh & (c & a & w & sp & ids & sp' & rest & -> & -> & _)).
    rewrite Hh in T. discriminate.
  - split; [intros (ev & E); discriminate |].
    intros (h & Hh & F). rewrite Hh in N. cbn [toStr] in N.
    apply reEventStart_accepts in F. contradiction.
  - split; [intros _ | eauto].
    destruct (headerOf rawEvent) as [h |]; [| discriminate].
    exists h. split; [reflexivity |]. apply reEventStart_accepts.
    cbn [toStr] in S. congruence.
Qed.

(** X22: an event has a timestamp exactly when its header has, somewhere,
    white space, digits, a point, digits, a colon and white space. *)
Theorem timestamp_iff_header_has_one (rawEvent : list string) (ev : PerfEvent) (h : string) :
  parseEvent rawEvent = Return (Some ev) ->
  headerOf rawEvent = Some h ->
  (time ev <> None <-> hasTimestamp h).
Proof.
  intros E Hh.
  destruct (parseEvent_cases rawEvent)
    as [[_ P] | [(_ & _ & P) | (m & cmd & st & _ & _ & _ & _ & P)]];
    rewrite P in E; inversion E; subst; cbn [time].
  rewrite Hh. cbn [toStr]. rewrite <- reTime_accepts.
  destruct (exec reTime h); split; congruence.
Qed.

(** X23: an event has an event type other than [''] exactly when its header
    ends with one or more characters that are not white space, a colon, and
    white space or nothing. *)
Theorem event_type_iff_header_ends_with_one
    (rawEvent : list string) (ev : PerfEvent) (h : string) :
  parseEvent rawEvent = Return (Some ev) ->
  headerOf rawEvent = Some h ->
  (eventType ev <> "" <-> hasEventType h).
Proof.
  intros E Hh.
  destruct (parseEvent_cases rawEvent)
    as [[_ P] | [(_ & _ & P) | (m & cmd & st & _ & _ & _ & _ & P)]];
    rewrite P in E; inversion E; subst; cbn [eventType].
  rewrite Hh. cbn [toStr]. rewrite <- reEvName_accepts.
  destruct (exec reEvName h) as [em |] eqn:Em; [| split; congruence].
  apply reEvName_match in Em. destruct Em as (pre & ty & ws & _ & Nty & _ & _ & G).
  unfold get in G. rewrite G. cbn [toStr]. split; congruence.
Qed.

(** X24: a line that is not taken for a source line adds a frame to the
    stack exactly when it is white space or nothing, hexadecimal digits, a
    blank, and one or more characters. *)
Theorem frame_iff_stack_line (st : LineLoop) (l : string) :
  (exists st' f, stackLineStep st l = Return st' /\ frames st' = frames st ++ [f]) <->
  isStackLine l.
Proof.
  rewrite <- reStackLine_accepts, stackLineStep_eq.
  destruct (exec reStackLine l) as [m |]; split.
  - discriminate.
  - intros _. eexists _, _. split; reflexivity.
  - intros (st' & f & E & F). inversion E; subst.
    apply (f_equal (@List.length _)) in F. rewrite length_app in F.
    cbn [List.length] in F. lia.
  - congruence.
Qed.


End Acceptance.

(** ** The priorities of the matcher: the ids *)

Section Priorities.
Import MatchFacts PatternFacts RunFacts StepLemmas PrintedFacts HeaderSearch Completeness.

Context {num : JSNumber}.

Lemma greedy_none_inv c s : forall pos k,
  greedy c s pos k = None ->
  forall u v, s = (u ++ v)%string -> allIn c u = true ->
              k v (pos + String.length u) = None.
Proof.
  induction s as [| a s IH]; intros pos k G u v E U.
  - symmetry in E. apply append_nil_inv in E. destruct E as [-> ->].
    cbn [greedy String.length] in *. rewrite Nat.add_0_r. exact G.
  - cbn [greedy] in G. destruct u as [| x u].
    + cbn [append String.length] in *. subst v. rewrite Nat.add_0_r.
      destruct (inCls c a); [| exact G].
      destruct (greedy c s (S pos) k); [discriminate | exact G].
    + cbn [append] in E. inversion E; subst.
      cbn [allIn] in U. apply andb_prop in U. destruct U as [Hx U]. rewrite Hx in G.
      destruct (greedy c (u ++ v) (S pos) k) eqn:G'; [discriminate |].
      cbn [String.length]. rewrite Nat.add_succ_r.
      change (S (pos + String.length u)) with (S pos + String.length u).
      eapply IH; [exact G' | reflexivity | exact U].
Qed.

(** A greedy run takes the longest part after which the match goes on. *)
Lemma greedy_longest c s : forall pos k res,
  greedy c s pos k = Some res ->
  exists u v,
    s = (u ++ v)%string /\ allIn c u = true /\
    k v (pos + String.length u) = Some res /\
    forall u' v', s = (u' ++ v')%string -> allIn c u' = true ->
                  String.length u < String.length u' ->
                  k v' (pos + String.length u') = None.
Proof.
  induction s as [| a s IH]; intros pos k res G.
  - cbn [greedy] in G. exists "", "". rewrite Nat.add_0_r.
    repeat split; auto. intros u' v' E _ L.
    symmetry in E. apply append_nil_inv in E. destruct E as [-> _].
    cbn [String.length] in L. lia.
  - cbn [greedy] in G.
    assert (Z : k (String a s) pos = Some res ->
                (forall u v, s = (u ++ v)%string -> allIn c (String a u) = true ->
                             k v (S pos + String.length u) = None) ->
                exists u v,
                  String a s = (u ++ v)%string /\ allIn c u = true /\
                  k v (pos + String.length u) = Some res /\
                  forall u' v', String a s = (u' ++ v')%string -> allIn c u' = true ->
                                String.length u < String.length u' ->
                                k v' (pos + String.length u') = None).
    { intros K N. exists "", (String a s). rewrite Nat.add_0_r.
      repeat split; auto. intros u' v' E U L.
      destruct u' as [| x u']; [cbn [String.length] in L; lia |].
      cbn [append] in E. inversion E; subst.
      cbn [String.length]. rewrite Nat.add_succ_r. apply N; auto. }
    destruct (inCls c a) eqn:A.
    + destruct (greedy c s (S pos) k) as [r |] eqn:G'.
      * inversion G; subst r.
        destruct (IH _ _ _ G') as (u & v & -> & U & K & L).
        exists (String a u), v. cbn [append allIn String.length].
        rewrite A, U, Nat.add_succ_r. repeat split; auto.
        intros u' v' E U' L'. destruct u' as [| x u']; [cbn [String.length] in L'; lia |].
        cbn [append] in E. inversion E; subst.
        cbn [allIn] in U'. apply andb_prop in U'. destruct U' as [_ U'].
        cbn [String.length] in *. rewrite Nat.add_succ_r. apply L; auto. lia.
      * apply Z; [exact G |]. intros u v E U.
        cbn [allIn] in U. apply andb_prop in U. destruct U as [_ U].
        eapply greedy_none_inv; eassumption.
    + apply Z; [exact G |]. intros u v E U.
      cbn [allIn] in U. rewrite A in U. discriminate.
Qed.

Lemma run_Plus_unfold c s pos cs k :
  run (Plus c) s pos cs k =
  match s with
  | String a s' =>
      if inCls c a then greedy c s' (S pos) (fun s'' pos' => k s'' pos' cs) else None
  | EmptyString => None
  end.
Proof. destruct s; reflexivity. Qed.

(** The tail of the header pattern, after the first number: the optional
    second number and the white space. *)
Lemma idsTail_match v pos cs k res :
  run (Cat (Opt (Cat (Opt (One [Chr "/"])) (Group 3 (Plus [Digit])))) (Plus [Space]))
      v pos cs k = Some res ->
  exists o sp' rest cs',
    v = (o ++ sp' ++ rest)%string /\ blanks sp' /\
    k rest (pos + String.length o + String.length sp') cs' = Some res /\
    ((o = "" /\ cs' = cs) \/
     exists sl d3, o = (sl ++ d3)%string /\ (sl = "" \/ sl = "/") /\ digits d3 /\
                   cs' = (3, d3) :: cs).
Proof.
  intros R. apply run_sound in R. destruct R as (w & rest & cs' & -> & M & K).
  apply matches_Cat in M. destruct M as (o & sp' & cs1 & -> & Mo & Ms).
  apply matches_Plus in Ms. destruct Ms as (Ns & Hs & ->).
  exists o, sp', rest, cs1. rewrite append_assoc.
  split; [reflexivity |]. split; [split; assumption |].
  split; [rewrite length_append, Nat.add_assoc in K; exact K |].
  apply matches_Opt in Mo. destruct Mo as [(-> & ->) | (_ & Mo)]; [auto |].
  right. apply matches_Cat in Mo. destruct Mo as (sl & d3 & cs2 & -> & Msl & Md).
  apply matches_Group in Md. destruct Md as (cs3 & -> & Md).
  apply matches_Plus in Md. destruct Md as (Nd & Hd & ->).
  exists sl, d3. split; [reflexivity |].
  apply matches_Opt in Msl. destruct Msl as [(-> & ->) | (_ & Msl)].
  - repeat split; auto.
  - apply matches_Chr in Msl. destruct Msl as (-> & ->). repeat split; auto.
Qed.

(** A second number is read only after a slash: digits without a slash
    are all read as the first number. *)
Lemma reEventStart_slash h m d3 :
  exec reEventStart h = Some m -> get m 3 = Some d3 ->
  exists a w sp d2 sp' rest,
    h = (String a w ++ sp ++ d2 ++ "/" ++ d3 ++ sp' ++ rest)%string /\
    blanks sp /\ digits d2 /\ digits d3 /\ blanks sp' /\
    get m 1 = Some (String a w) /\ get m 2 = Some d2.
Proof.
  intros E G3. unfold exec in E. rewrite search_unfold in E.
  unfold reEventStart in E. cbn [seq] in E.
  destruct (attempt _ h 0) as [m' |] eqn:A.
  2:{ destruct h; [discriminate |]. rewrite search_Bol_later in E by lia. discriminate. }
  inversion E; subst m'. clear E. unfold attempt in A.
  match type of A with
  | match ?x with _ => _ end = _ => destruct x as [[e cs] |] eqn:R; [| discriminate]
  end.
  inversion A; subst m. clear A. unfold get in *. cbn [groups] in *.
  rewrite run_Bol, run_Cat in R.
  apply run_sound in R. destruct R as (c1 & t1 & cs1 & -> & M1 & R).
  apply matches_Group in M1. destruct M1 as (cs0 & -> & M1).
  apply matches_Cat in M1. destruct M1 as (a1 & w & cs0' & -> & Ma & Mw).
  apply matches_One in Ma. destruct Ma as (a & -> & Ha & ->).
  apply matches_PlusLazy in Mw. destruct Mw as (Nw & Hw & ->).
  rewrite run_Cat in R.
  apply run_sound in R. destruct R as (sp & t2 & cs2 & -> & Msp & R).
  apply matches_Plus in Msp. destruct Msp as (Nsp & Hsp & ->).
  rewrite run_Cat, run_Group, run_Plus_unfold in R.
  destruct t2 as [| x t] eqn:Et; [discriminate |].
  destruct (inCls [Digit] x) eqn:Hx; [| discriminate].
  apply greedy_longest in R. destruct R as (u & v & Ev & Hu & K & L).
  cbv beta in K.
  apply idsTail_match in K.
  destruct K as (o & sp' & rest & cs' & Ev' & Bs & K & O).
  inversion K; subst e cs. clear K.
  destruct O as [(-> & ->) | (sl & d & -> & Sl & (Nd & Hd) & ->)].
  - cbn [capture Nat.eqb] in G3. discriminate.
  - cbn [capture Nat.eqb] in G3. inversion G3; subst d. clear G3.
    destruct Sl as [-> | ->].
    + exfalso. subst v. cbn [append] in *.
      specialize (L (u ++ d3)%string (sp' ++ rest)%string).
      rewrite append_assoc in L. specialize (L Ev).
      rewrite allIn_app, Hu, Hd in L. specialize (L eq_refl).
      rewrite length_append in L.
      assert (Ld : 0 < String.length d3) by (destruct d3; [contradiction | cbn; lia]).
      specialize (L ltac:(lia)). cbv beta in L.
      destruct Bs as (Ns' & Hs').
      change (sp' ++ rest)%string with (("" ++ sp') ++ rest)%string in L.
      revert L. eapply run_complete.
      * eapply MCat; [apply MOptNone | apply MPlus; assumption].
      * intros s p c1 c2. discriminate.
      * discriminate.
    + subst v.
      exists a, w, sp, (String x u), sp', rest.
      cbn [capture Nat.eqb].
      replace (S (0 + String.length (String a "" ++ w) + String.length sp)
               + String.length u
               - (0 + String.length (String a "" ++ w) + String.length sp))
        with (String.length (String x u)) by (cbn [String.length]; lia).
      rewrite Ev.
      change (String x (u ++ ("/" ++ d3) ++ sp' ++ rest))
        with (String x u ++ ("/" ++ d3) ++ sp' ++ rest)%string.
      rewrite take_app.
      split; [cbn [append]; rewrite ?append_assoc; reflexivity |].
      unfold blanks, digits. cbn [allIn]. rewrite Hx, Hu.
      destruct Bs as (Ns' & Hs').
      repeat split; auto. discriminate.
Qed.

(** X21: a process id is read only in front of a slash: when an event has a
    process id, the ids of its header are two numbers with a slash between
    them, the process id is read from the first and the thread id from the
    second; digits without a slash are never split into two ids. *)
Theorem process_id_needs_a_slash (rawEvent : list string) (ev : PerfEvent) (h : string) :
  parseEvent rawEvent = Return (Some ev) ->
  headerOf rawEvent = Some h ->
  processID ev <> None ->
  exists cmd sp p t sp' rest,
    h = (cmd ++ sp ++ p ++ "/" ++ t ++ sp' ++ rest)%string /\
    blanks sp /\ digits p /\ digits t /\ blanks sp' /\
    command ev = Some cmd /\
    processID ev = Some (parseInt p) /\
    threadID ev = Some (parseInt t).
Proof.
  intros E Hh.
  destruct (parseEvent_cases rawEvent)
    as [[_ P] | [(_ & _ & P) | (m & cmd & st & _ & S & G & _ & P)]];
    rewrite P in E; inversion E; subst; cbn [command processID threadID].
  rewrite Hh in S. cbn [toStr] in S.
  destruct (get m 3) as [d3 |] eqn:G3.
  2:{ unfold get in G3. rewrite G3. cbn [truthyString]. congruence. }
  destruct (reEventStart_slash h S G3)
    as (a & w & sp & d2 & sp' & rest & -> & Bsp & D2 & D3 & Bsp' & G1 & G2).
  unfold get in G, G1, G2, G3. rewrite G2, G3. cbn [toStr truthyString].
  destruct D3 as (N3 & H3). pose proof N3 as N3'.
  apply String.eqb_neq in N3'. rewrite N3'. cbn [negb].
  intros _. exists (String a w), sp, d2, d3, sp', rest.
  repeat split; auto; try apply Bsp; try apply D2; try apply Bsp'.
  congruence.
Qed.

End Priorities.

(** ** The priorities of the matcher: the command *)

Section ShortestCommand.
Import MatchFacts PatternFacts RunFacts StepLemmas PrintedFacts HeaderSearch Completeness.

Context {num : JSNumber}.

(** A lazy run takes the shortest part after which the match goes on. *)
Lemma lazy_shortest c s : forall pos k res,
  lazy c s pos k = Some res ->
  exists u v,
    s = (u ++ v)%string /\ allIn c u = true /\
    k v (pos + String.length u) = Some res /\
    forall u' v', s = (u' ++ v')%string ->
                  String.length u' < String.length u ->
                  k v' (pos + String.length u') = None.
Proof.
  induction s as [| a s IH]; intros pos k res G; cbn [lazy] in G.
  - destruct (k "" pos) eqn:K; [| discriminate]. inversion G; subst.
    exists "", "". rewrite Nat.add_0_r. repeat split; auto.
    intros u' v' _ L. cbn [String.length] in L. lia.
  - destruct (k (String a s) pos) eqn:K.
    + inversion G; subst. exists "", (String a s). rewrite Nat.add_0_r.
      repeat split; auto. intros u' v' _ L. cbn [String.length] in L. lia.
    + destruct (inCls c a) eqn:A; [| discriminate].
      destruct (IH _ _ _ G) as (u & v & -> & U & Kv & L).
      exists (String a u), v. cbn [append allIn String.length].
      rewrite A, U, Nat.add_succ_r. repeat split; auto.
      intros u' v' E L'. destruct u' as [| x u'].
      * cbn [append String.length] in *. subst v'. rewrite Nat.add_0_r. exact K.
      * cbn [append] in E. inversion E; subst.
        cbn [String.length] in *. rewrite Nat.add_succ_r. apply L; auto. lia.
Qed.

Lemma run_PlusLazy_unfold c s pos cs k :
  run (PlusLazy c) s pos cs k =
  match s with
  | String a s' =>
      if inCls c a then lazy c s' (S pos) (fun s'' pos' => k s'' pos' cs) else None
  | EmptyString => None
  end.
Proof. destruct s; reflexivity. Qed.

Lemma run_One_unfold c s pos cs k :
  run (One c) s pos cs k =
  match s with
  | String a s' => if inCls c a then k s' (S pos) cs else None
  | EmptyString => None
  end.
Proof. destruct s; reflexivity. Qed.

Lemma afterCommand_sound v pos cs k res :
  run afterCommand v pos cs k = Some res ->
  exists sp ids sp' rest pos' cs',
    v = (sp ++ ids ++ sp' ++ rest)%string /\
    blanks sp /\ idsText ids /\ blanks sp' /\
    k rest pos' cs' = Some res /\ capture 1 cs' = capture 1 cs.
Proof.
  intros R. apply run_sound in R. destruct R as (w & rest & cs' & -> & M & K).
  unfold afterCommand in M.
  apply matches_Cat in M. destruct M as (sp & t1 & cs1 & -> & Msp & M).
  apply matches_Plus in Msp. destruct Msp as (Nsp & Hsp & ->).
  apply matches_Cat in M. destruct M as (d2 & t2 & cs2 & -> & Md & M).
  apply matches_Group in Md. destruct Md as (c2 & -> & Md).
  apply matches_Plus in Md. destruct Md as (Nd & Hd & ->).
  apply matches_Cat in M. destruct M as (o & sp' & cs3 & -> & Mo & M).
  apply matches_Plus in M. destruct M as (Nsp' & Hsp' & ->).
  assert (I : idsText (d2 ++ o) /\ capture 1 cs3 = capture 1 cs).
  { apply matches_Opt in Mo. destruct Mo as [(-> & ->) | (_ & Mo)].
    - split; [| reflexivity]. left. rewrite append_empty_r. split; assumption.
    - apply matches_Cat in Mo. destruct Mo as (sl & d3 & cs4 & -> & Msl & Md3).
      apply matches_Group in Md3. destruct Md3 as (c3 & -> & Md3).
      apply matches_Plus in Md3. destruct Md3 as (Nd3 & Hd3 & ->).
      apply matches_Opt in Msl. destruct Msl as [(-> & ->) | (_ & Msl)].
      + split; [| reflexivity]. left. cbn [append]. split.
        * intros E. apply append_nil_inv in E. destruct E. contradiction.
        * rewrite allIn_app, Hd, Hd3. reflexivity.
      + apply matches_Chr in Msl. destruct Msl as (-> & ->).
        split; [| reflexivity]. right. exists d2, d3. unfold digits. auto. }
  destruct I as (I & C).
  exists sp, (d2 ++ o)%string, sp', rest. eexists _, cs3.
  rewrite !append_assoc. unfold blanks.
  repeat split; auto. exact K.
Qed.

Lemma afterCommand_complete sp ids sp' rest pos cs :
  blanks sp -> idsText ids -> blanks sp' ->
  run afterCommand (sp ++ ids ++ sp' ++ rest) pos cs
      (fun _ pos' cs' => Some (pos', cs')) <> None.
Proof.
  intros (Nsp & Hsp) I (Nsp' & Hsp'). unfold afterCommand.
  destruct I as [(Ni & Hi) | (p & t & -> & (Np & Hp) & (Nt & Ht))].
  - replace (sp ++ ids ++ sp' ++ rest)%string
      with ((sp ++ ids ++ "" ++ sp') ++ rest)%string
      by (cbn [append]; rewrite !append_assoc; reflexivity).
    eapply run_complete;
      [ repeat first [ apply MGroup | apply MPlus | apply MOptNone | eapply MCat ];
        assumption
      | intros s q c1 c2; discriminate | discriminate ].
  - replace (sp ++ (p ++ "/" ++ t) ++ sp' ++ rest)%string
      with ((sp ++ p ++ ("/" ++ t) ++ sp') ++ rest)%string
      by (rewrite !append_assoc; cbn [append]; rewrite ?append_assoc; reflexivity).
    eapply run_complete; [| intros s q c1 c2; discriminate | discriminate ].
    eapply MCat; [apply MPlus; assumption |].
    eapply MCat; [apply MGroup, MPlus; assumption |].
    eapply MCat; [| apply MPlus; assumption].
    apply MOptSome; [discriminate |].
    eapply MCat; [apply MOptSome; [discriminate | apply MOne; reflexivity] |].
    apply MGroup, MPlus; assumption.
Qed.

(** The command that the header pattern captures is the shortest one. *)
Lemma reEventStart_shortest h m :
  exec reEventStart h = Some m ->
  exists cmd,
    get m 1 = Some cmd /\ commandAndIds cmd h /\
    forall cmd', commandAndIds cmd' h -> String.length cmd <= String.length cmd'.
Proof.
  intros E. unfold exec in E. rewrite search_unfold in E.
  unfold reEventStart in E. cbn [seq] in E.
  destruct (attempt _ h 0) as [m' |] eqn:A.
  2:{ destruct h; [discriminate |]. rewrite search_Bol_later in E by lia. discriminate. }
  inversion E; subst m'. clear E. unfold attempt in A.
  match type of A with
  | match ?x with _ => _ end = _ => destruct x as [[e cs] |] eqn:R; [| discriminate]
  end.
  inversion A; subst m. clear A. unfold get. cbn [groups].
  rewrite run_Bol, run_Cat, run_Group, run_Cat, run_One_unfold in R.
  destruct h as [| a t]; [discriminate |].
  destruct (inCls [NonSpace] a) eqn:Ha; [| discriminate].
  rewrite run_PlusLazy_unfold in R.
  destruct t as [| b t]; [discriminate |].
  destruct (inCls [Dot] b) eqn:Hb; [| discriminate].
  apply lazy_shortest in R. destruct R as (u & v & -> & Hu & K & L).
  cbv beta in K.
  change (run afterCommand v (2 + String.length u)
            ((1, take (2 + String.length u - 0) (String a (String b (u ++ v)))) :: [])
            (fun _ pos' cs' => Some (pos', cs')) = Some (e, cs)) in K.
  replace (2 + String.length u - 0) with (String.length (String a (String b u))) in K
    by (cbn [String.length]; lia).
  change (String a (String b (u ++ v))) with (String a (String b u) ++ v)%string in K.
  rewrite take_app in K.
  destruct (@afterCommand_sound _ _ _ _ _ K)
    as (sp & ids & sp' & rest & p' & cs' & -> & Bsp & I & Bsp' & Kf & C).
  inversion Kf; subst e cs. clear Kf.
  exists (String a (String b u)). split; [exact C |]. split.
  - exists a, (String b u), sp, ids, sp', rest.
    cbn [allIn]. rewrite Hb, Hu.
    split; [reflexivity |]. split; [reflexivity |]. split; [assumption |].
    split; [discriminate |]. split; [reflexivity |]. auto.
  - intros cmd' (a' & w' & sp1 & ids1 & sp1' & rest1 & -> & E & _ & Nw' & _ & Bsp1 & I1 & Bsp1').
    destruct w' as [| b' u']; [contradiction |].
    cbn [append] in E. inversion E as [[Ea Eb Eu]]. clear E.
    cbn [String.length].
    destruct (Nat.le_gt_cases (String.length u) (String.length u')) as [Le | Gt];
      [lia | exfalso].
    specialize (L u' _ Eu Gt). cbv beta in L.
    exact (@afterCommand_complete _ _ _ _ _ _ Bsp1 I1 Bsp1' L).
Qed.

(** X20: the command of an event is the shortest start of its header that is
    followed by white space, the ids and white space: a command may have
    white space and numbers in it, and ends at the first number that stands
    between white space. *)
Theorem command_is_the_shortest (rawEvent : list string) (ev : PerfEvent) (h : string) :
  parseEvent rawEvent = Return (Some ev) ->
  headerOf rawEvent = Some h ->
  exists cmd,
    command ev = Some cmd /\ commandAndIds cmd h /\
    forall cmd', commandAndIds cmd' h -> String.length cmd <= String.length cmd'.
Proof.
  intros E Hh.
  destruct (parseEvent_cases rawEvent)
    as [[_ P] | [(_ & _ & P) | (m & cmd & st & _ & S & G & _ & P)]];
    rewrite P in E; inversion E; subst; cbn [command].
  rewrite Hh in S. cbn [toStr] in S.
  destruct (@reEventStart_shortest h m S) as (c & G1 & F & L).
  exists c. split; [congruence | auto].
Qed.

End ShortestCommand.

(** ** The accepted lines at concrete inputs *)

(** A header with a timestamp. *)
Lemma timestamp_iff_header_has_one_witness :
  let h := "foo 1 1000.5: cycles:" in
  let rawEvent := ["# a note"; h; " 7fff bar (baz)"] in
  let ev := {| command := Some "foo";
               processID := None;
               threadID := Some (Decimal.Fin 1 0);
               time := Some (Decimal.Fin 10005 1);
               eventType := "cycles";
               stack := [{| address := "0x7fff"; symbolName := "bar";
                            file := Some "baz"; line := None |}] |} in
  @parseEvent decimalNumber rawEvent = Return (Some ev) /\
  headerOf rawEvent = Some h /\
  (time ev <> None <-> hasTimestamp h).
Proof.
  intros h rawEvent ev.
  assert (P : @parseEvent decimalNumber rawEvent = Return (Some ev)) by reflexivity.
  assert (Hh : headerOf rawEvent = Some h) by reflexivity.
  split; [exact P |]. split; [exact Hh |].
  exact (@timestamp_iff_header_has_one decimalNumber rawEvent ev h P Hh).
Defined.

(** A header without a colon at its end. *)
Lemma event_type_iff_header_ends_with_one_witness :
  let h := "foo 1 1000.5: cycles" in
  let rawEvent := [h] in
  let ev := {| command := Some "foo";
               processID := None;
               threadID := Some (Decimal.Fin 1 0);
               time := Some (Decimal.Fin 10005 1);
               eventType := "";
               stack := [] |} in
  @parseEvent decimalNumber rawEvent = Return (Some ev) /\
  headerOf rawEvent = Some h /\
  (eventType ev <> "" <-> hasEventType h).
Proof.
  intros h rawEvent ev.
  assert (P : @parseEvent decimalNumber rawEvent = Return (Some ev)) by reflexivity.
  assert (Hh : headerOf rawEvent = Some h) by reflexivity.
  split; [exact P |]. split; [exact Hh |].
  exact (@event_type_iff_header_ends_with_one decimalNumber rawEvent ev h P Hh).
Defined.

Lemma process_id_needs_a_slash_witness :
  let h := "foo 12/34 1000.5: cycles:" in
  let rawEvent := [h] in
  let ev := {| command := Some "foo";
               processID := Some (Decimal.Fin 12 0);
               threadID := Some (Decimal.Fin 34 0);
               time := Some (Decimal.Fin 10005 1);
               eventType := "cycles";
               stack := [] |} in
  @parseEvent decimalNumber rawEvent = Return (Some ev) /\
  headerOf rawEvent = Some h /\
  processID ev <> None /\
  exists cmd sp p t sp' rest,
    h = (cmd ++ sp ++ p ++ "/" ++ t ++ sp' ++ rest)%string /\
    blanks sp /\ digits p /\ digits t /\ blanks sp' /\
    command ev = Some cmd /\
    processID ev = Some (parseInt p) /\
    threadID ev = Some (parseInt t).
Proof.
  intros h rawEvent ev.
  assert (P : @parseEvent decimalNumber rawEvent = Return (Some ev)) by reflexivity.
  assert (Hh : headerOf rawEvent = Some h) by reflexivity.
  assert (N : processID ev <> None) by discriminate.
  split; [exact P |]. split; [exact Hh |]. split; [exact N |].
  exact (@process_id_needs_a_slash decimalNumber rawEvent ev h P Hh N).
Defined.

(** The header of the comment of source line 57: the command has a blank
    and a digit. *)
Lemma command_is_the_shortest_witness :
  let h := "V8 WorkerThread 25607 4794564.109216: cycles:" in
  let rawEvent := [h] in
  let ev := {| command := Some "V8 WorkerThread";
               processID := None;
               threadID := Some (Decimal.Fin 25607 0);
               time := Some (Decimal.Fin 4794564109216 6);
               eventType := "cycles";
               stack := [] |} in
  @parseEvent decimalNumber rawEvent = Return (Some ev) /\
  headerOf rawEvent = Some h /\
  exists cmd,
    command ev = Some cmd /\ commandAndIds cmd h /\
    forall cmd', commandAndIds cmd' h -> String.length cmd <= String.length cmd'.
Proof.
  intros h rawEvent ev.
  assert (P : @parseEvent decimalNumber rawEvent = Return (Some ev)) by reflexivity.
  assert (Hh : headerOf rawEvent = Some h) by reflexivity.
  split; [exact P |]. split; [exact Hh |].
  exact (@command_is_the_shortest decimalNumber rawEvent ev h P Hh).
Defined.


(** ** Routing by context *)

Section Routing.
Import MatchFacts PatternFacts RunFacts StepLemmas PrintedFacts HeaderSearch Completeness.

Context {num : JSNumber}.

(** The number at the end of a text, after its last blank. *)
Lemma peel_number s : forall s' d d',
  (s ++ " " ++ d)%string = (s' ++ " " ++ d')%string ->
  allIn [Digit] d = true -> allIn [Digit] d' = true ->
  s = s' /\ d = d'.
Proof.
  induction s as [| x s IH]; intros s' d d' E D D'.
  - destruct s' as [| y s']; cbn [append] in E.
    + inversion E. auto.
    + inversion E as [[Ey Ed]]. rewrite Ed, allIn_app in D.
      cbn in D. rewrite andb_false_r in D. discriminate.
  - destruct s' as [| y s']; cbn [append] in E.
    + inversion E as [[Ey Ed]]. rewrite <- Ed, allIn_app in D'.
      cbn in D'. rewrite andb_false_r in D'. discriminate.
    + inversion E as [[Ey Es]]. destruct (IH s' d d' Es D D') as [-> ->]. auto.
Qed.

Lemma append_same_length s : forall s' u u',
  (s ++ u)%string = (s' ++ u')%string -> String.length u = String.length u' ->
  s = s' /\ u = u'.
Proof.
  induction s as [| x s IH]; intros s' u u' E L.
  - destruct s' as [| y s']; cbn [append] in E; [auto |].
    subst u. cbn [String.length] in L. rewrite length_append in L. lia.
  - destruct s' as [| y s']; cbn [append] in E.
    + subst u'. cbn [String.length] in L. rewrite length_append in L. lia.
    + inversion E as [[Ey Es]]. destruct (IH s' u u' Es L) as [-> ->]. auto.
Qed.

(** The profile name of an event with a command, whose ids are not [0]. *)
Lemma profileNameOf_parts (ev : PerfEvent) c :
  command ev = Some c -> c <> "" -> idsInDigits ev = true ->
  profileNameOf ev =
    (c ++ namePart "pid" (processID ev) ++ namePart "tid" (threadID ev))%string.
Proof.
  intros C N I. unfold idsInDigits in I. apply andb_prop in I. destruct I as [Ip It].
  unfold profileNameOf. rewrite C. cbn [truthyString toStr].
  apply String.eqb_neq in N. rewrite N. cbn [negb].
  destruct (processID ev) as [p |]; destruct (threadID ev) as [t |];
    cbn [idInDigits] in Ip, It; cbn [truthyNumber namePart numStr];
    try (apply andb_prop in Ip; destruct Ip as [-> _]);
    try (apply andb_prop in It; destruct It as [-> _]);
    cbn [app String.concat append]; rewrite ?append_empty_r; reflexivity.
Qed.

(** The command of an event is the shortest start of the header that can be
    one. *)
Lemma parseEvent_command (rawEvent : list string) (ev : PerfEvent) :
  parseEvent rawEvent = Return (Some ev) ->
  exists h cmd,
    headerOf rawEvent = Some h /\ command ev = Some cmd /\ commandAndIds cmd h /\
    forall cmd', commandAndIds cmd' h -> String.length cmd <= String.length cmd'.
Proof.
  intros E.
  destruct (parseEvent_cases rawEvent)
    as [[_ P] | [(_ & _ & P) | (m & cmd & st & T & S & G & _ & P)]];
    rewrite P in E; inversion E; subst; cbn [command].
  destruct (headerOf rawEvent) as [h |]; [| discriminate].
  cbn [toStr] in S.
  destruct (@reEventStart_shortest h m S) as (c & G1 & F & L).
  exists h, c. split; [reflexivity |]. split; [congruence | auto].
Qed.

(** A command does not end with a blank and a number: it would end in front
    of them. *)
Lemma command_ends (rawEvent : list string) (ev : PerfEvent) c' d :
  parseEvent rawEvent = Return (Some ev) ->
  command ev = Some (c' ++ " " ++ d)%string ->
  2 <= String.length c' -> digits d -> False.
Proof.
  intros E C L D.
  destruct (parseEvent_command _ E) as (h & cmd & _ & C' & F & Min).
  rewrite C in C'. inversion C'; subst cmd. clear C'.
  destruct F as (a & w & sp & ids & sp' & rest & Ec & Eh & Ha & Nw & Hw & Bsp & I & Bsp').
  destruct c' as [| a' [| b' w']]; cbn [String.length] in L; try lia.
  cbn [append] in Ec. inversion Ec as [[Ea Ew]]. subst a'.
  assert (F' : commandAndIds (String a (String b' w')) h).
  { exists a, (String b' w'), " ", d, sp, (ids ++ sp' ++ rest)%string.
    split; [reflexivity |]. split.
    { rewrite Eh. cbn [append]. rewrite ?append_assoc. reflexivity. }
    split; [assumption |]. split; [discriminate |]. split.
    { try subst w. cbn [allIn] in Hw |- *.
      apply andb_prop in Hw. destruct Hw as [Hb Hw]. rewrite Hb.
      rewrite allIn_app in Hw. apply andb_prop in Hw. apply Hw. }
    split; [split; [discriminate | reflexivity] |].
    split; [left; assumption | assumption]. }
  apply Min in F'. cbn [String.length append] in F'.
  rewrite length_append in F'. cbn [String.length] in F'. lia.
Qed.

Lemma append_inj_l (a x y : string) : (a ++ x)%string = (a ++ y)%string -> x = y.
Proof.
  induction a as [| c a IH]; cbn [append]; intros E; [exact E |].
  inversion E. auto.
Qed.

(** The last part of a name is read off the name, given the parts in front
    of it. *)
Lemma concat_last_inj (l : list string) (x y : string) :
  String.concat " " (l ++ [x]) = String.concat " " (l ++ [y]) -> x = y.
Proof.
  induction l as [| a l IH]; intros E.
  - exact E.
  - cbn [app String.concat] in E.
    destruct l as [| b l].
    + cbn [app String.concat] in E. apply append_inj_l in E.
      cbn [append] in E. inversion E. reflexivity.
    + cbn [app] in E, IH. apply append_inj_l in E.
      cbn [append] in E. inversion E as [E']. apply IH. exact E'.
Qed.

(** Events with the same command and process ID, and thread ids other than
    [0]: the name tells the thread id, as it is written. *)
Lemma thread_apart (ev ev' : PerfEvent) :
  command ev' = command ev -> processID ev' = processID ev ->
  truthyNumber (threadID ev) = true -> truthyNumber (threadID ev') = true ->
  profileNameOf ev' = profileNameOf ev ->
  numStr (threadID ev') = numStr (threadID ev).
Proof.
  intros C P T T' E. unfold profileNameOf in E. rewrite C, P, T, T' in E.
  rewrite !app_assoc in E. apply concat_last_inj in E.
  cbn [append] in E. inversion E. reflexivity.
Qed.

Lemma namePart_Some label c (n : number) :
  (c ++ namePart label (Some n))%string
  = ((c ++ " " ++ label ++ ":") ++ " " ++ numberToString n)%string.
Proof. cbn [namePart]. rewrite !append_assoc. reflexivity. Qed.

Lemma namePart_None label c : (c ++ namePart label None)%string = c.
Proof. apply append_empty_r. Qed.

Lemma idInDigits_Some (n : number) :
  idInDigits (Some n) = true -> digits (numberToString n).
Proof.
  cbn [idInDigits]. intros H. apply andb_prop in H. destruct H as [_ H].
  apply some_inv in H. exact H.
Qed.

(** A command that does not end with a blank and a number does not end
    with the part of an id. *)
Lemma part_not_in_command label c (n : number) c2 :
  (forall c' d, c2 = (c' ++ " " ++ d)%string -> 2 <= String.length c' ->
                digits d -> False) ->
  idInDigits (Some n) = true ->
  ((c ++ " " ++ label ++ ":") ++ " " ++ numberToString n)%string = c2 -> False.
Proof.
  intros G I E. symmetry in E. apply (G _ _ E); [| apply idInDigits_Some, I].
  rewrite !length_append. cbn [String.length]. lia.
Qed.

(** The command and the process id are read off the start of a name. *)
Lemma pid_apart c1 c2 (p1 p2 : option number) :
  (forall c' d, c1 = (c' ++ " " ++ d)%string -> 2 <= String.length c' ->
                digits d -> False) ->
  (forall c' d, c2 = (c' ++ " " ++ d)%string -> 2 <= String.length c' ->
                digits d -> False) ->
  idInDigits p1 = true -> idInDigits p2 = true ->
  (c1 ++ namePart "pid" p1)%string = (c2 ++ namePart "pid" p2)%string ->
  c1 = c2 /\ numStr p1 = numStr p2.
Proof.
  intros G1 G2 I1 I2 E.
  destruct p1 as [n1 |]; destruct p2 as [n2 |];
    rewrite ?namePart_Some, ?namePart_None in E.
  - apply peel_number in E;
      [| apply idInDigits_Some, I1 | apply idInDigits_Some, I2].
    destruct E as [E R]. apply append_same_length in E; [| reflexivity].
    destruct E as [-> _]. cbn [numStr]. auto.
  - exfalso. exact (@part_not_in_command _ _ _ _ G2 I1 E).
  - exfalso. symmetry in E. exact (@part_not_in_command _ _ _ _ G1 I2 E).
  - auto.
Qed.

(** The command and the ids are read off a name. *)
Lemma names_apart c1 c2 (p1 t1 p2 t2 : option number) :
  (forall c' d, c1 = (c' ++ " " ++ d)%string -> 2 <= String.length c' ->
                digits d -> False) ->
  (forall c' d, c2 = (c' ++ " " ++ d)%string -> 2 <= String.length c' ->
                digits d -> False) ->
  idInDigits p1 = true -> idInDigits t1 = true ->
  idInDigits p2 = true -> idInDigits t2 = true ->
  (c1 ++ namePart "pid" p1 ++ namePart "tid" t1)%string
  = (c2 ++ namePart "pid" p2 ++ namePart "tid" t2)%string ->
  c1 = c2 /\ numStr p1 = numStr p2 /\ numStr t1 = numStr t2.
Proof.
  intros G1 G2 Ip1 It1 Ip2 It2 E.
  rewrite <- (append_assoc c1), <- (append_assoc c2) in E.
  destruct t1 as [n1 |]; destruct t2 as [n2 |];
    rewrite ?namePart_Some, ?namePart_None in E.
  - apply peel_number in E;
      [| apply idInDigits_Some, It1 | apply idInDigits_Some, It2].
    destruct E as [E R]. apply append_same_length in E; [| reflexivity].
    destruct E as [E _].
    destruct (@pid_apart _ _ _ _ G1 G2 Ip1 Ip2 E) as [-> Ep]. cbn [numStr]. auto.
  - exfalso. destruct p2 as [m2 |]; rewrite ?namePart_Some, ?namePart_None in E.
    + apply peel_number in E;
        [| apply idInDigits_Some, It1 | apply idInDigits_Some, Ip2].
      destruct E as [E _]. apply append_same_length in E; [| reflexivity].
      destruct E as [_ E]. discriminate E.
    + exact (@part_not_in_command _ _ _ _ G2 It1 E).
  - exfalso. symmetry in E.
    destruct p1 as [m1 |]; rewrite ?namePart_Some, ?namePart_None in E.
    + apply peel_number in E;
        [| apply idInDigits_Some, It2 | apply idInDigits_Some, Ip1].
      destruct E as [E _]. apply append_same_length in E; [| reflexivity].
      destruct E as [_ E]. discriminate E.
    + exact (@part_not_in_command _ _ _ _ G1 It2 E).
  - destruct (@pid_apart _ _ _ _ G1 G2 Ip1 Ip2 E) as [-> Ep]. auto.
Qed.

(** Two events with the same profile name have the same command and the
    same ids, when no id is [0] and the ids are written in decimal
    digits. *)
Lemma same_name_same_context (rawEvent rawEvent' : list string) (ev ev' : PerfEvent) :
  parseEvent rawEvent = Return (Some ev) ->
  parseEvent rawEvent' = Return (Some ev') ->
  idsInDigits ev = true -> idsInDigits ev' = true ->
  profileNameOf ev' = profileNameOf ev ->
  command ev' = command ev /\
  numStr (processID ev') = numStr (processID ev) /\
  numStr (threadID ev') = numStr (threadID ev).
Proof.
  intros P P' I I' E.
  destruct (parseEvent_command _ P) as (h & c & _ & C & F & _).
  destruct (parseEvent_command _ P') as (h' & c' & _ & C' & F' & _).
  assert (N : c <> "").
  { destruct F as (a & w & _ & _ & _ & _ & -> & _). discriminate. }
  assert (N' : c' <> "").
  { destruct F' as (a & w & _ & _ & _ & _ & -> & _). discriminate. }
  rewrite (profileNameOf_parts ev C N I), (profileNameOf_parts ev' C' N' I') in E.
  unfold idsInDigits in I, I'.
  apply andb_prop in I. destruct I as [Ip It].
  apply andb_prop in I'. destruct I' as [Ip' It'].
  apply names_apart in E; try assumption.
  - destruct E as (-> & Ep & Et). rewrite C, C'. auto.
  - intros x d Ec L D. subst c'. exact (@command_ends _ _ _ _ P' C' L D).
  - intros x d Ec L D. subst c. exact (@command_ends _ _ _ _ P C L D).
Qed.

(** C8, amended: an accepted record is routed to the Builder filed under
    the profile name derived from (command, process ID, thread ID).  Records
    that agree on the three fields have the same name, hence the same
    Builder.  Records with the same command and process ID, and with thread
    ids other than [0] that are written differently, have different names.
    Two parsed records that differ in the command, the process ID or the
    thread ID have different names, provided that every id of the two is not
    [0] and is written in decimal digits (as JavaScript writes an id below
    [10^21]); an id that one record has and the other has not is a
    difference.  A record leaves the Builder of a record with another name,
    and all the Builders under other names, as they were; the Builder is
    created on the first encounter of its name, at the end of the map, with
    that name and the seconds formatter. *)
Theorem records_are_routed_by_profile_name
    (st : ImportLoop) (ev : PerfEvent) (t : number) :
  accepts st ev = true ->
  time ev = Some t ->
  exists st',
    importEvent st (Some ev) = Return st' /\
    (forall ev', command ev' = command ev -> processID ev' = processID ev ->
                 threadID ev' = threadID ev ->
                 profileNameOf ev' = profileNameOf ev) /\
    (forall ev', command ev' = command ev -> processID ev' = processID ev ->
       truthyNumber (threadID ev) = true -> truthyNumber (threadID ev') = true ->
       numStr (threadID ev') <> numStr (threadID ev) ->
       profileNameOf ev' <> profileNameOf ev /\
       mapGet (profilesMap st') (profileNameOf ev') =
         mapGet (profilesMap st) (profileNameOf ev')) /\
    (forall rawEvent rawEvent' ev',
       parseEvent rawEvent = Return (Some ev) ->
       parseEvent rawEvent' = Return (Some ev') ->
       idsInDigits ev = true -> idsInDigits ev' = true ->
       command ev' <> command ev \/
       numStr (processID ev') <> numStr (processID ev) \/
       numStr (threadID ev') <> numStr (threadID ev) ->
       profileNameOf ev' <> profileNameOf ev /\
       mapGet (profilesMap st') (profileNameOf ev') =
         mapGet (profilesMap st) (profileNameOf ev')) /\
    (mapGet (profilesMap st) (profileNameOf ev) = None ->
     profilesMap st' =
       profilesMap st ++
       [(profileNameOf ev,
         {| builderName := profileNameOf ev;
            builderFormatter := TimeFormatter "seconds";
            builderSamples := [(map frameInfoOf (stack ev), t)] |})]) /\
    (forall b, mapGet (profilesMap st) (profileNameOf ev) = Some b ->
       mapKeys (profilesMap st') = mapKeys (profilesMap st) /\
       mapGet (profilesMap st') (profileNameOf ev) =
         Some (appendSampleWithTimestamp (map frameInfoOf (stack ev)) t b)) /\
    (forall k, k <> profileNameOf ev ->
       mapGet (profilesMap st') k = mapGet (profilesMap st) k).
Proof.
  intros A T.
  destruct (importEvent_routed st ev A T) as (st' & S & Same & New & Old & Other).
  exists st'. split; [exact S |]. split; [exact Same |].
  split; [| split; [| split; [exact New | split; [exact Old | exact Other]]]].
  { intros ev' C P Tr Tr' D.
    assert (N : profileNameOf ev' <> profileNameOf ev).
    { intros E. apply D. exact (thread_apart ev ev' C P Tr Tr' E). }
    split; [exact N | exact (Other _ N)]. }
  intros rawEvent rawEvent' ev' P P' I I' D.
  assert (N : profileNameOf ev' <> profileNameOf ev).
  { intros E.
    destruct (@same_name_same_context _ _ _ _ P P' I I' E) as (Ec & Ep & Et).
    destruct D as [D | [D | D]]; contradiction. }
  split; [exact N | exact (Other _ N)].
Qed.

End Routing.

(** The record of thread 1234 of [foo], as the first of its context, as a
    later one, and next to a record of thread 1235, whose Builder it leaves
    as it was; and two threads of [foo] whose ids are written with an
    exponent. *)
Lemma records_are_routed_by_profile_name_witness :
  let ev := {| command := Some "foo";
               processID := None;
               threadID := Some (Decimal.Fin 1234 0);
               time := Some (Decimal.Fin 1000 0);
               eventType := "cycles";
               stack := [] |} in
  let t := Decimal.Fin 1000 0 in
  let b := {| builderName := "foo tid: 1234";
              builderFormatter := TimeFormatter "seconds";
              builderSamples := [([], Decimal.Fin 999 0)] |} in
  let fed := {| profilesMap := [("foo tid: 1234", b)];
                currentEventType := Some "cycles" |} in
  let rawEvent := ["foo 1234 1000.000000: cycles:"] in
  let rawEvent' := ["foo 1235 999.000000: cycles:"] in
  let ev' := {| command := Some "foo";
                processID := None;
                threadID := Some (Decimal.Fin 1235 0);
                time := Some (Decimal.Fin 999 0);
                eventType := "cycles";
                stack := [] |} in
  let b' := {| builderName := "foo tid: 1235";
               builderFormatter := TimeFormatter "seconds";
               builderSamples := [([], Decimal.Fin 999 0)] |} in
  let other := {| profilesMap := [("foo tid: 1235", b')];
                  currentEventType := Some "cycles" |} in
  let big n := {| command := Some "foo";
                  processID := None;
                  threadID := Some (Decimal.Fin (n * 10 ^ 21) 0);
                  time := Some (Decimal.Fin 1000 0);
                  eventType := "cycles";
                  stack := [] |} in
  (* the first record of its context *)
  (accepts importStart ev = true /\
   time ev = Some t /\
   mapGet (profilesMap importStart) (profileNameOf ev) = None /\
   exists st',
     importEvent importStart (Some ev) = Return st' /\
     profilesMap st' =
       profilesMap importStart ++
       [(profileNameOf ev,
         {| builderName := profileNameOf ev;
            builderFormatter := TimeFormatter "seconds";
            builderSamples := [(map frameInfoOf (stack ev), t)] |})]) /\
  (* a later record of the same context *)
  (accepts fed ev = true /\
   time ev = Some t /\
   mapGet (profilesMap fed) (profileNameOf ev) = Some b /\
   exists st',
     importEvent fed (Some ev) = Return st' /\
     mapKeys (profilesMap st') = mapKeys (profilesMap fed) /\
     mapGet (profilesMap st') (profileNameOf ev) =
       Some (appendSampleWithTimestamp (map frameInfoOf (stack ev)) t b)) /\
  (* a record of another thread *)
  (accepts other ev = true /\
   time ev = Some t /\
   @parseEvent decimalNumber rawEvent = Return (Some ev) /\
   @parseEvent decimalNumber rawEvent' = Return (Some ev') /\
   idsInDigits ev = true /\ idsInDigits ev' = true /\
   numStr (threadID ev') <> numStr (threadID ev) /\
   exists st',
     importEvent other (Some ev) = Return st' /\
     profileNameOf ev' <> profileNameOf ev /\
     mapGet (profilesMap st') (profileNameOf ev') = Some b') /\
  (* two threads with ids of 22 digits *)
  (accepts importStart (big 1%N) = true /\
   time (big 1%N) = Some t /\
   numStr (threadID (big 1%N)) = "1e+21" /\
   numStr (threadID (big 2%N)) = "2e+21" /\
   profileNameOf (big 2%N) <> profileNameOf (big 1%N)).
Proof.
  intros ev t b fed rawEvent rawEvent' ev' b' other big.
  assert (T : time ev = Some t) by reflexivity.
  split; [| split; [| split]].
  - assert (A : accepts importStart ev = true) by reflexivity.
    assert (G : mapGet (profilesMap importStart) (profileNameOf ev) = None)
      by reflexivity.
    destruct (@records_are_routed_by_profile_name decimalNumber importStart
                ev t A T) as (st' & S & _ & _ & _ & New & _ & _).
    repeat (split; [assumption |]).
    exists st'. split; [exact S | exact (New G)].
  - assert (A : accepts fed ev = true) by reflexivity.
    assert (G : mapGet (profilesMap fed) (profileNameOf ev) = Some b)
      by reflexivity.
    destruct (@records_are_routed_by_profile_name decimalNumber fed
                ev t A T) as (st' & S & _ & _ & _ & _ & Old & _).
    repeat (split; [assumption |]).
    exists st'. split; [exact S | exact (Old b G)].
  - assert (A : accepts other ev = true) by reflexivity.
    assert (P : @parseEvent decimalNumber rawEvent = Return (Some ev))
      by reflexivity.
    assert (P' : @parseEvent decimalNumber rawEvent' = Return (Some ev'))
      by reflexivity.
    assert (I : idsInDigits ev = true) by reflexivity.
    assert (I' : idsInDigits ev' = true) by reflexivity.
    assert (D : numStr (threadID ev') <> numStr (threadID ev))
      by (cbv; discriminate).
    destruct (@records_are_routed_by_profile_name decimalNumber other
                ev t A T) as (st' & S & _ & _ & Apart & _ & _ & _).
    repeat (split; [assumption |]).
    exists st'. split; [exact S |].
    destruct (Apart rawEvent rawEvent' ev' P P' I I' (or_intror (or_intror D)))
      as (N & G).
    split; [exact N |]. rewrite G. reflexivity.
  - assert (A : accepts importStart (big 1%N) = true) by reflexivity.
    assert (T1 : time (big 1%N) = Some t) by reflexivity.
    assert (R1 : numStr (threadID (big 1%N)) = "1e+21") by reflexivity.
    assert (R2 : numStr (threadID (big 2%N)) = "2e+21") by reflexivity.
    assert (D : numStr (threadID (big 2%N)) <> numStr (threadID (big 1%N)))
      by (rewrite R1, R2; discriminate).
    destruct (@records_are_routed_by_profile_name decimalNumber importStart
                (big 1%N) t A T1) as (st' & _ & _ & Threads & _).
    repeat (split; [assumption |]).
    exact (proj1 (Threads (big 2%N) eq_refl eq_refl eq_refl eq_refl D)).
Defined.
